(** * Weight calculator: plate solver and data layer

    A shallow embedding of the JavaScript sources of the weight-calculator
    application (plate decomposition in [App.js], id generation in
    [utils/idGenerator.js], record normalisation and validation in
    [services/dataService.js], the localStorage backend in
    [services/localStorageService.js], the service factory and the user
    directory in [services/userService.js]) together with the properties
    proved about them.

    Conventions of the embedding:
    - a JavaScript number is an exact rational ([Q]); the data layer adds
      [NaN] and the two infinities, which it can observe through [Number];
    - [localStorage] is a finite map from key strings to the JSON values the
      keys hold ([JSON.parse] of the stored text);
    - [Date.now], [new Date], [Math.random] and [performance.now] are read
      from an explicit environment, one reading per call. *)

From Stdlib Require Import QArith Qround Qabs Lqa ZArith String Ascii List Lia.
From Stdlib Require Import Permutation DecimalString.
From stdpp Require Import gmap strings list fin_maps.

#[local] Set Warnings "-register-all".

(** * 1. Plate solver ([calculatePlates] in App.js) *)

Module PlateSolver.

#[local] Open Scope Q_scope.

Inductive Unit := lbs | kg.

(** utils/constants.js *)
Definition PLATE_WEIGHTS_LBS : list Q := [45; 25; 10; 5; 2.5].
Definition PLATE_WEIGHTS_KG : list Q := [25; 20; 15; 10; 5; 2.5; 1.25].

(** [a < b] on numbers. *)
Definition Qlt_bool (a b : Q) : bool := negb (Qle_bool b a).

(** [Math.round]: nearest integer, ties towards +infinity. *)
Definition Math_round (x : Q) : Z := Qfloor (x + (1 # 2)).

Definition Math_floor (x : Q) : Z := Qfloor x.

(** [Math.round(x * 100) / 100] *)
Definition round2 (x : Q) : Q := inject_Z (Math_round (x * 100)) / 100.

(** The object [plateBreakdown]: properties in creation order, keyed by the
    denomination (the key is the decimal spelling of the number, which
    [parseFloat] reads back). *)
Definition Breakdown := list (Q * Z).

(** [bd[k] = c]: overwrite an existing property, else create it last. *)
Fixpoint bd_set (bd : Breakdown) (k : Q) (c : Z) : Breakdown :=
  match bd with
  | [] => [(k, c)]
  | (k', c') :: rest =>
      if Qeq_bool k' k then (k', c) :: rest else (k', c') :: bd_set rest k c
  end.

Fixpoint bd_get (bd : Breakdown) (k : Q) : option Z :=
  match bd with
  | [] => None
  | (k', c') :: rest => if Qeq_bool k' k then Some c' else bd_get rest k
  end.

(** [Object.fromEntries(plateWeights.map(w => [w, 0]))] *)
Definition zeroBreakdown (plateWeights : list Q) : Breakdown :=
  fold_left (fun bd w => bd_set bd w 0%Z) plateWeights [].

(** Property enumeration order of an ordinary object: array-index keys
    (canonical integers below 2^32 - 1) in ascending order first, then the
    other keys in creation order. *)
Definition is_array_index (k : Q) : bool :=
  Qeq_bool (inject_Z (Qfloor k)) k && (0 <=? Qfloor k)%Z
  && (Qfloor k <? 4294967295)%Z.

Fixpoint insert_by_key (e : Q * Z) (l : Breakdown) : Breakdown :=
  match l with
  | [] => [e]
  | e' :: rest =>
      if Qle_bool (fst e) (fst e') then e :: l else e' :: insert_by_key e rest
  end.

Definition Object_entries (bd : Breakdown) : Breakdown :=
  fold_right insert_by_key [] (List.filter (fun e => is_array_index (fst e)) bd)
  ++ List.filter (fun e => negb (is_array_index (fst e))) bd.

Definition Object_values (bd : Breakdown) : list Z := map snd (Object_entries bd).

(** One iteration of [for (const plateWeight of plateWeights)]. *)
Definition plateStep (st : Breakdown * Q) (plateWeight : Q) : Breakdown * Q :=
  let '(plateBreakdown, remainingWeight) := st in
  if Qle_bool plateWeight remainingWeight then
    let count := Math_floor (remainingWeight / plateWeight) in
    let remainingWeight := remainingWeight - inject_Z count * plateWeight in
    (bd_set plateBreakdown plateWeight count, round2 remainingWeight)
  else st.

Record PlateResult := {
  plateBreakdown : Breakdown;
  actualWeight : Q;
  targetWeight : Q;
  exactMatch : bool;
  totalPlates : Z;
  barbellWeight : Q;
  plateWeight : Q;
  unit : Unit
}.

(** [calculatePlates]; [unit] and [selectedBarbell.weight] are the two
    pieces of component state the callback closes over.

    Numbers are exact rationals, so the product [remainingWeight * 100] is
    exact here.  In the source it is a 64-bit floating-point product, which
    can land on a tie of [Math.round] that the exact product misses by a
    hair (or miss one that the exact product hits); the source then rounds
    the load to the neighbouring cent.  On loads that are whole numbers of
    cents and of quarters, such as the sums of plates, both agree. *)
Definition calculatePlates (unit : Unit) (barbellWeight : Q) (targetWeight : Q)
  : PlateResult :=
  let plateWeights :=
    match unit with lbs => PLATE_WEIGHTS_LBS | kg => PLATE_WEIGHTS_KG end in
  if Qlt_bool targetWeight barbellWeight then
    {| plateBreakdown := zeroBreakdown plateWeights;
       actualWeight := barbellWeight;
       targetWeight := targetWeight;
       exactMatch := false;
       totalPlates := 0;
       barbellWeight := barbellWeight;
       plateWeight := 0;
       unit := unit |}
  else
    let plateBreakdown := zeroBreakdown plateWeights in
    let remainingWeight := targetWeight - barbellWeight in
    let remainingWeight := round2 remainingWeight in
    let '(plateBreakdown, _) :=
      fold_left plateStep plateWeights (plateBreakdown, remainingWeight) in
    let plateWeight :=
      fold_left (fun sum e => sum + fst e * inject_Z (snd e))
                (Object_entries plateBreakdown) 0 in
    let actualWeight := barbellWeight + plateWeight in
    let exactMatch := Qlt_bool (Qabs (actualWeight - targetWeight)) 0.01 in
    let totalPlates :=
      fold_left (fun sum count => (sum + count)%Z) (Object_values plateBreakdown) 0%Z in
    {| plateBreakdown := plateBreakdown;
       actualWeight := actualWeight;
       targetWeight := targetWeight;
       exactMatch := exactMatch;
       totalPlates := totalPlates;
       barbellWeight := barbellWeight;
       plateWeight := plateWeight;
       unit := unit |}.

(** ** Vocabulary of the statements about the solver *)

(** [x] has at most two decimals. *)
Definition cents (x : Q) : Prop := exists z : Z, x * 100 == inject_Z z.

Definition centsb (x : Q) : bool := Qeq_bool (inject_Z (Qfloor (x * 100))) (x * 100).

(** Sum of [weight * count] over the properties, in creation order. *)
Definition entrySum (l : Breakdown) : Q :=
  fold_right (fun e s => fst e * inject_Z (snd e) + s) 0 l.

(** Denominations the loop may be run on: positive, two decimals, pairwise
    different. *)
Fixpoint distinct (ps : list Q) : bool :=
  match ps with
  | [] => true
  | p :: rest => forallb (fun q => negb (Qeq_bool p q)) rest && distinct rest
  end.

Definition plate_ok (w : Q) : bool := Qlt_bool 0 w && centsb w.

Definition plateWeightsOf (u : Unit) : list Q :=
  match u with lbs => PLATE_WEIGHTS_LBS | kg => PLATE_WEIGHTS_KG end.

(** [x] is a whole number of times [d]. *)
Definition multiple_of (d x : Q) : Prop := exists k : Z, x == inject_Z k * d.

(** The lightest plate of the unit. *)
Definition smallestPlate (u : Unit) : Q := List.last (plateWeightsOf u) 0.

End PlateSolver.

(** * 1b. Unit conversion (utils/weightUtils.js) *)

Module WeightUtils.
Import PlateSolver.
#[local] Open Scope Q_scope.

(** [lbsToKg]: [Math.round((lbs * 0.453592) * 100) / 100] *)
Definition lbsToKg (lbs : Q) : Q := round2 (lbs * 0.453592).

(** [kgToLbs]: [Math.round((kg * 2.20462) * 100) / 100] *)
Definition kgToLbs (kg : Q) : Q := round2 (kg * 2.20462).

End WeightUtils.
(** * 2. JavaScript values

    The values the data layer handles: what [JSON.parse] returns, plus
    [undefined], [NaN] and the infinities that arise in memory.  Strings are
    taken to be ASCII. *)

Module Js.

Inductive num := NaN | Inf (negative : bool) | Fin (q : Q).

Inductive value :=
| VUndef
| VNull
| VBool (b : bool)
| VNum (n : num)
| VStr (s : string)
| VArr (items : list value)
| VObj (props : gmap string value).

Definition VInt (z : Z) : value := VNum (Fin (inject_Z z)).

(** ** Characters and strings *)

Definition chars (s : string) : list ascii := list_ascii_of_string s.
Definition str (l : list ascii) : string := string_of_list_ascii l.

Definition code (c : ascii) : nat := nat_of_ascii c.

Definition between (lo hi : nat) (c : ascii) : bool :=
  (lo <=? code c)%nat && (code c <=? hi)%nat.

(** [\d] *)
Definition is_digit : ascii -> bool := between 48 57.
Definition is_lower : ascii -> bool := between 97 122.
Definition is_upper : ascii -> bool := between 65 90.
(** [[a-f0-9]] *)
Definition is_hex_lower (c : ascii) : bool := is_digit c || between 97 102 c.
(** [[0-9a-f]] under the [i] flag *)
Definition is_hex (c : ascii) : bool := is_hex_lower c || between 65 70 c.
(** [\s], ASCII part: tab, line feed, vertical tab, form feed, carriage
    return, space. *)
Definition is_space (c : ascii) : bool := between 9 13 c || (code c =? 32)%nat.

Definition lower_char (c : ascii) : ascii :=
  if is_upper c then ascii_of_nat (code c + 32) else c.

(** [s.toLowerCase()] *)
Definition toLowerCase (s : string) : string := str (map lower_char (chars s)).

Fixpoint drop_spaces (l : list ascii) : list ascii :=
  match l with
  | c :: rest => if is_space c then drop_spaces rest else l
  | [] => []
  end.

(** [s.trim()] *)
Definition trim (s : string) : string :=
  str (rev (drop_spaces (rev (drop_spaces (chars s))))).

(** [s.substr(start, len)] for non-negative arguments. *)
Definition substr (start len : nat) (s : string) : string :=
  str (firstn len (skipn start (chars s))).

(** [l.join(sep)] on strings. *)
Fixpoint join (sep : string) (l : list string) : string :=
  match l with
  | [] => EmptyString
  | [s] => s
  | s :: rest => s ++ sep ++ join sep rest
  end.

(** Decimal spelling of a non-negative integer, as in a template literal. *)
Definition N_to_string (n : N) : string := NilZero.string_of_uint (N.to_uint n).

(** ** Coercions *)

(** [Boolean(v)], the test of [if], [!], [||] and [&&]. *)
Definition truthy (v : value) : bool :=
  match v with
  | VUndef | VNull => false
  | VBool b => b
  | VNum NaN => false
  | VNum (Inf _) => true
  | VNum (Fin q) => negb (Qeq_bool q 0)
  | VStr EmptyString => false
  | VStr _ => true
  | VArr _ | VObj _ => true
  end.

(** [a || b] *)
Definition or_else (a b : value) : value := if truthy a then a else b.

Definition typeof (v : value) : string :=
  match v with
  | VUndef => "undefined"
  | VNull | VArr _ | VObj _ => "object"
  | VBool _ => "boolean"
  | VNum _ => "number"
  | VStr _ => "string"
  end.

(** [v === s] for a string literal [s]. *)
Definition is_str (v : value) (s : string) : bool :=
  match v with VStr s' => String.eqb s' s | _ => false end.

(** Value of a digit in a base up to 16. *)
Definition digit_val (c : ascii) : option Z :=
  if is_digit c then Some (Z.of_nat (code c - 48))
  else if between 97 102 c then Some (Z.of_nat (code c - 87))
  else if between 65 70 c then Some (Z.of_nat (code c - 55))
  else None.

(** A non-empty run of digits of the base, read as an integer. *)
Fixpoint digits_from (base acc : Z) (l : list ascii) : option Z :=
  match l with
  | [] => Some acc
  | c :: rest =>
      match digit_val c with
      | Some d => if (d <? base)%Z then digits_from base (acc * base + d) rest else None
      | None => None
      end
  end.

Definition digits (base : Z) (l : list ascii) : option Z :=
  match l with [] => None | _ => digits_from base 0 l end.

(** Split at the first character satisfying [p]. *)
Fixpoint break (p : ascii -> bool) (l : list ascii) : list ascii * option (list ascii) :=
  match l with
  | [] => ([], None)
  | c :: rest =>
      if p c then ([], Some rest)
      else let '(a, b) := break p rest in (c :: a, b)
  end.

Definition signed (l : list ascii) : bool * list ascii :=
  match l with
  | "+"%char :: rest => (false, rest)
  | "-"%char :: rest => (true, rest)
  | _ => (false, l)
  end.

(** [digits] [.] [digits], at least one digit in all. *)
Definition mantissa (l : list ascii) : option Q :=
  let '(ip, fp) := break (fun c => Ascii.eqb c ".") l in
  match fp with
  | None => inject_Z <$> digits 10 ip
  | Some fp =>
      match ip, fp with
      | [], [] => None
      | _, _ =>
          i ← digits_from 10 0 ip;
          f ← digits_from 10 0 fp;
          Some (inject_Z i + inject_Z f / Qpower 10 (Z.of_nat (length fp)))%Q
      end
  end.

(** [StrUnsignedDecimalLiteral] without the [Infinity] case. *)
Definition decimal (l : list ascii) : option Q :=
  let '(m, e) := break (fun c => Ascii.eqb c "e" || Ascii.eqb c "E") l in
  match e with
  | None => mantissa m
  | Some e =>
      let '(neg, ed) := signed e in
      m ← mantissa m;
      k ← digits 10 ed;
      Some (m * Qpower 10 (if neg then - k else k))%Q
  end.

(** [Number(s)] on a string: surrounding white space is ignored, the empty
    string is 0, then a radix-prefixed integer, or an optionally signed
    [Infinity] or decimal literal; anything else is [NaN].  The value is
    exact. *)
Definition StringToNumber (s : string) : num :=
  match chars (trim s) with
  | [] => Fin 0
  | "0"%char :: "x"%char :: rest | "0"%char :: "X"%char :: rest =>
      match digits 16 rest with Some z => Fin (inject_Z z) | None => NaN end
  | "0"%char :: "o"%char :: rest | "0"%char :: "O"%char :: rest =>
      match digits 8 rest with Some z => Fin (inject_Z z) | None => NaN end
  | "0"%char :: "b"%char :: rest | "0"%char :: "B"%char :: rest =>
      match digits 2 rest with Some z => Fin (inject_Z z) | None => NaN end
  | l =>
      let '(neg, body) := signed l in
      if String.eqb (str body) "Infinity" then Inf neg
      else match decimal body with
           | Some q => Fin (if neg then - q else q)%Q
           | None => NaN
           end
  end.

(** [Number(v)].  An array goes through its [toString]: the empty array is
    the empty string, a one-element array is its element's string ([null] and
    [undefined] print as nothing, a number reads back as itself), a longer
    array contains a comma; a plain object prints as [[object Object]]. *)
Fixpoint ToNumber (v : value) : num :=
  match v with
  | VUndef => NaN
  | VNull => Fin 0
  | VBool b => Fin (if b then 1 else 0)
  | VNum n => n
  | VStr s => StringToNumber s
  | VObj _ => NaN
  | VArr [] => Fin 0
  | VArr [x] =>
      match x with
      | VUndef | VNull => Fin 0
      | VBool _ => NaN
      | _ => ToNumber x
      end
  | VArr _ => NaN
  end.

(** [n || d] for a number: [NaN] and zero give way. *)
Definition num_or (n d : num) : num := if truthy (VNum n) then n else d.

(** [n <= 0]; a comparison with [NaN] is false. *)
Definition num_le0 (n : num) : bool :=
  match n with
  | NaN => false
  | Inf negative => negative
  | Fin q => Qle_bool q 0
  end.

(** [a === b]: primitives by value (no number equals [NaN]), objects and
    arrays by identity, and two values read from storage are never the same
    object. *)
Definition strict_eq (a b : value) : bool :=
  match a, b with
  | VUndef, VUndef | VNull, VNull => true
  | VBool x, VBool y => Bool.eqb x y
  | VNum (Fin x), VNum (Fin y) => Qeq_bool x y
  | VNum (Inf x), VNum (Inf y) => Bool.eqb x y
  | VStr x, VStr y => String.eqb x y
  | _, _ => false
  end.

(** Decimal spelling of an integer. *)
Definition Z_to_string (z : Z) : string :=
  if (z <? 0)%Z then "-" ++ N_to_string (Z.to_N (- z)) else N_to_string (Z.to_N z).

(** The digits of a fraction [0 <= q < 1], at most [n] of them. *)
Fixpoint frac_digits (n : nat) (q : Q) : list ascii :=
  match n with
  | O => []
  | S n =>
      if Qeq_bool q 0 then []
      else
        let d := Qfloor (q * 10) in
        ascii_of_N (48 + Z.to_N d) :: frac_digits n (q * 10 - inject_Z d)
  end.

(** [String(v)], the conversion of a template literal.  A number that is
    not an integer is spelt with at most twenty decimals. *)
Fixpoint ToString (v : value) : string :=
  match v with
  | VUndef => "undefined"
  | VNull => "null"
  | VBool b => if b then "true" else "false"
  | VNum NaN => "NaN"
  | VNum (Inf negative) => if negative then "-Infinity" else "Infinity"
  | VNum (Fin q) =>
      let a := Qabs q in
      let i := Qfloor a in
      ((if Qle_bool 0 q then EmptyString else "-") ++ Z_to_string i
       ++ match frac_digits 20 (a - inject_Z i) with
          | [] => EmptyString
          | ds => "." ++ str ds
          end)%string
  | VStr s => s
  | VArr items =>
      join "," (map (fun x => match x with
                              | VUndef | VNull => EmptyString
                              | _ => ToString x
                              end) items)
  | VObj _ => "[object Object]"
  end.

(** ** Properties *)

(** [v.k] for [v] neither [null] nor [undefined], and for the property names
    the sources use (none of which is an index or a prototype member):
    only plain objects carry them. *)
Definition prop (v : value) (k : string) : value :=
  match v with
  | VObj props => default VUndef (props !! k)
  | _ => VUndef
  end.

Definition nullish (v : value) : bool :=
  match v with VUndef | VNull => true | _ => false end.

(** The own enumerable properties copied by a spread [{...v}]. *)
Definition own_props (v : value) : gmap string value :=
  match v with
  | VObj props => props
  | VArr items =>
      list_to_map (imap (fun i x => (N_to_string (N.of_nat i), x)) items)
  | VStr s =>
      list_to_map (imap (fun i c => (N_to_string (N.of_nat i), VStr (String c EmptyString))) (chars s))
  | _ => ∅
  end.

(** [{...a, ...b}]: the later source wins. *)
Definition spread (a b : gmap string value) : gmap string value := b ∪ a.

(** An object literal. *)
Definition object (l : list (string * value)) : value := VObj (list_to_map (rev l)).

(** ** JSON *)

(** An array element through JSON. *)
Definition JSON_element (JSON_roundtrip : value -> value) (x : value) : value :=
  match x with
  | VUndef => VNull
  | _ => JSON_roundtrip x
  end.

(** [JSON.parse(JSON.stringify(v))]: [NaN] and the infinities become
    [null], an [undefined] array element becomes [null], an [undefined]
    property disappears.  At top level [undefined] does not serialise: it
    stays [undefined] here, and stands for an item that does not parse. *)
Fixpoint JSON_roundtrip (v : value) : value :=
  match v with
  | VNum NaN | VNum (Inf _) => VNull
  | VArr items =>
      VArr (map (JSON_element JSON_roundtrip) items)
  | VObj props =>
      VObj (omap (fun x => match x with
                           | VUndef => None
                           | _ => Some (JSON_roundtrip x)
                           end) props)
  | _ => v
  end.

End Js.

(** * 3. The environment: clock, randomness, storage *)

Module Runtime.
Import Js.

Inductive hexdigit :=
| H0 | H1 | H2 | H3 | H4 | H5 | H6 | H7
| H8 | H9 | Ha | Hb | Hc | Hd | He | Hf.

Definition hex_to_N (h : hexdigit) : N :=
  match h with
  | H0 => 0 | H1 => 1 | H2 => 2 | H3 => 3 | H4 => 4 | H5 => 5 | H6 => 6 | H7 => 7
  | H8 => 8 | H9 => 9 | Ha => 10 | Hb => 11 | Hc => 12 | Hd => 13 | He => 14 | Hf => 15
  end%N.

(** [v.toString(16)] for [0 <= v < 16] *)
Definition hex_char_of_N (n : N) : ascii :=
  if (n <? 10)%N then ascii_of_N (48 + n) else ascii_of_N (87 + n).

Definition hex_char (h : hexdigit) : ascii := hex_char_of_N (hex_to_N h).

(** What the platform supplies.  Each reading of the clock, of the random
    source or of the performance timer is numbered; [Math_random] gives the
    hexadecimal digits of the fraction drawn (a double in [0, 1) has
    finitely many).  [Date_parse] is the time value [new Date(v)] gets from
    a string or an object, [NaN] when it is no date. *)
Record Env := {
  Date_now : nat -> N;
  Math_random : nat -> list hexdigit;
  performance_now : nat -> Q;
  Date_parse : value -> num
}.

(** The [LocalStorageService] instance. *)
Record LocalStorageService := {
  isAvailable : bool;
  userId : option string   (* [null] or a user id *)
}.

(** The state the services run in: the environment and the number of
    readings made of it, the content of [localStorage] (each item as the
    value its text parses to), the [LocalStorageService] instance, whether
    [dataServiceFactory.currentService] holds it, and
    [userService.isAvailable]. *)
Record World := {
  env : Env;
  ticks : nat;
  localStorage : gmap string value;
  service : LocalStorageService;
  currentService : bool;
  userServiceAvailable : bool
}.

(** What a computation can fail with: [new Error(message)], a [TypeError]
    of the language, or, for the two unbounded loops of the sources, the
    exhaustion of the steps allotted to them. *)
Inductive Error :=
| JsError (message : string)
| TypeError (message : string)
| OutOfFuel.

Inductive Outcome (A : Type) :=
| Return (a : A)
| Throw (e : Error).
Arguments Return {A} a.
Arguments Throw {A} e.

(** Computations that read and write the world and may throw. *)
Definition M (A : Type) : Type := World -> Outcome A * World.

#[export] Instance M_ret : MRet M := fun A a w => (Return a, w).

#[export] Instance M_bind : MBind M := fun A B f m w =>
  match m w with
  | (Return a, w') => f a w'
  | (Throw e, w') => (Throw e, w')
  end.

#[export] Instance M_fmap : FMap M := fun A B f m w =>
  match m w with
  | (Return a, w') => (Return (f a), w')
  | (Throw e, w') => (Throw e, w')
  end.

Definition throw {A} (e : Error) : M A := fun w => (Throw e, w).

(** [try { m } catch (error) { h error }]; running out of steps is not an
    exception and is not caught. *)
Definition try_catch {A} (m : M A) (h : Error -> M A) : M A := fun w =>
  match m w with
  | (Throw OutOfFuel, w') => (Throw OutOfFuel, w')
  | (Throw e, w') => h e w'
  | r => r
  end.

(** [try { m } finally { f }]: [f] runs whatever the outcome of [m], and
    its own failure replaces that outcome. *)
Definition try_finally {A} (m : M A) (f : M unit) : M A := fun w =>
  let '(r, w1) := m w in
  match f w1 with
  | (Return _, w2) => (r, w2)
  | (Throw e, w2) => (Throw e, w2)
  end.

(** [for (const x of l) body], threading an accumulator. *)
Fixpoint for_of {A B} (l : list A) (acc : B) (body : B -> A -> M B) : M B :=
  match l with
  | [] => mret acc
  | x :: rest => acc' ← body acc x; for_of rest acc' body
  end.

Definition get_world : M World := fun w => (Return w, w).

(** A pure outcome inside a computation. *)
Definition lift {A} (o : Outcome A) : M A := fun w => (o, w).

Definition tick (w : World) : World :=
  {| env := env w; ticks := S (ticks w); localStorage := localStorage w;
     service := service w; currentService := currentService w;
     userServiceAvailable := userServiceAvailable w |}.

Definition set_localStorage (ls : gmap string value) (w : World) : World :=
  {| env := env w; ticks := ticks w; localStorage := ls;
     service := service w; currentService := currentService w;
     userServiceAvailable := userServiceAvailable w |}.

Definition set_service (s : LocalStorageService) (w : World) : World :=
  {| env := env w; ticks := ticks w; localStorage := localStorage w;
     service := s; currentService := currentService w;
     userServiceAvailable := userServiceAvailable w |}.

(** [Date.now()] *)
Definition now : M N := fun w => (Return (Date_now (env w) (ticks w)), tick w).

(** [Math.random()], as the digits of the fraction. *)
Definition random : M (list hexdigit) := fun w =>
  (Return (Math_random (env w) (ticks w)), tick w).

(** [performance.now()] *)
Definition perf_now : M Q := fun w =>
  (Return (performance_now (env w) (ticks w)), tick w).

(** ** localStorage *)

(** [localStorage.getItem(key)]; [None] is [null]. *)
Definition getItem (key : string) : M (option value) := fun w =>
  (Return (localStorage w !! key), w).

(** [localStorage.setItem(key, JSON.stringify(v))] *)
Definition setItem (key : string) (v : value) : M unit := fun w =>
  (Return tt, set_localStorage (<[key := JSON_roundtrip v]> (localStorage w)) w).

(** [localStorage.removeItem(key)] *)
Definition removeItem (key : string) : M unit := fun w =>
  (Return tt, set_localStorage (delete key (localStorage w)) w).

(** [item ? JSON.parse(item) : defaultValue] inside a [try] whose [catch]
    returns [defaultValue]: an item that does not parse reads as the
    default. *)
Definition parse_or (item : option value) (defaultValue : value) : value :=
  match item with
  | None | Some VUndef => defaultValue
  | Some v => v
  end.

(** ** Dates *)

#[local] Open Scope Z_scope.

Definition pad (width : nat) (n : Z) : string :=
  let s := N_to_string (Z.to_N n) in
  str (repeat "0"%char (width - String.length s)%nat) ++ s.

(** Calendar date of a day number counted from 1970-01-01. *)
Definition civil_from_days (z : Z) : Z * Z * Z :=
  let z := z + 719468 in
  let era := z / 146097 in
  let doe := z mod 146097 in
  let yoe := (doe - doe / 1460 + doe / 36524 - doe / 146096) / 365 in
  let y := yoe + era * 400 in
  let doy := doe - (365 * yoe + yoe / 4 - yoe / 100) in
  let mp := (5 * doy + 2) / 153 in
  let d := doy - (153 * mp + 2) / 5 + 1 in
  let m := if mp <? 10 then mp + 3 else mp - 9 in
  (if m <=? 2 then y + 1 else y, m, d).

(** [new Date(ms).toISOString()] *)
Definition toISOString (ms : N) : string :=
  let t := Z.of_N ms in
  let '(y, m, d) := civil_from_days (t / 86400000) in
  let r := t mod 86400000 in
  (if y <=? 9999 then pad 4 y else "+" ++ pad 6 y)
  ++ "-" ++ pad 2 m ++ "-" ++ pad 2 d
  ++ "T" ++ pad 2 (r / 3600000) ++ ":" ++ pad 2 (r / 60000 mod 60)
  ++ ":" ++ pad 2 (r / 1000 mod 60) ++ "." ++ pad 3 (r mod 1000) ++ "Z".

(** [new Date().toISOString()] *)
Definition now_iso : M string := t ← now; mret (toISOString t).

(** [new Date().toISOString().split('T')[0]] *)
Definition today : M string :=
  s ← now_iso; mret (str (fst (break (fun c => Ascii.eqb c "T") (chars s)))).

(** Rounding towards zero. *)
Definition Qtrunc (q : Q) : Z := if Qle_bool 0 q then Qfloor q else Qceiling q.

(** The time value of [new Date(v)]. *)
Definition Date_value (e : Env) (v : value) : num :=
  match v with
  | VUndef => NaN
  | VNull => Fin 0
  | VBool b => Fin (if b then 1 else 0)
  | VNum (Fin q) =>
      if Qle_bool (Qabs q) 8640000000000000 then Fin (inject_Z (Qtrunc q)) else NaN
  | VNum _ => NaN
  | VStr _ | VArr _ | VObj _ => Date_parse e v
  end.

(** [a - b] on time values, which are never infinite. *)
Definition num_sub (a b : num) : num :=
  match a, b with
  | Fin x, Fin y => Fin (x - y)
  | _, _ => NaN
  end.

(** [arr.sort(cmp)]: stable, an element moves behind those the comparator
    puts strictly before it; a [NaN] comparison counts as 0. *)
Definition positive_num (n : num) : bool :=
  match n with
  | Fin q => negb (Qle_bool q 0)
  | Inf negative => negb negative
  | NaN => false
  end.

Fixpoint sort_insert {A} (cmp : A -> A -> num) (x : A) (l : list A) : list A :=
  match l with
  | [] => [x]
  | y :: rest =>
      if positive_num (cmp x y) then y :: sort_insert cmp x rest else x :: l
  end.

Definition Array_sort {A} (cmp : A -> A -> num) (l : list A) : list A :=
  fold_right (sort_insert cmp) [] l.

(** ** Vocabulary of the statements about computations *)

(** [w'] is [w] after some readings of the environment: nothing else
    changed. *)
Definition later (w w' : World) : Prop :=
  env w' = env w
  /\ localStorage w' = localStorage w
  /\ service w' = service w
  /\ currentService w' = currentService w
  /\ userServiceAvailable w' = userServiceAvailable w.

(** [m] always returns, changes nothing but the count of readings, and its
    result satisfies [P]. *)
Definition returns_later {A} (m : M A) (P : A -> Prop) : Prop :=
  forall w, exists a w', m w = (Return a, w') /\ later w w' /\ P a.

(** Whatever its outcome, [m] changes nothing but the count of readings;
    when it returns, its result satisfies [P]. *)
Definition ensures {A} (m : M A) (P : A -> Prop) : Prop :=
  forall w, later w (snd (m w)) /\ forall a, fst (m w) = Return a -> P a.

(** Whatever its outcome, [m] takes a world to one related to it by [R]. *)
Definition preserves {A} (R : World -> World -> Prop) (m : M A) : Prop :=
  forall w, R w (snd (m w)).

(** The backend object of [w'] is that of [w]: same availability, same
    user scope. *)
Definition same_service (w w' : World) : Prop := service w' = service w.

(** [n < 0] *)
Definition negative_num (n : num) : bool :=
  match n with
  | Fin q => negb (Qle_bool 0 q)
  | Inf negative => negative
  | NaN => false
  end.

(** ** A reference platform for the worked examples *)

(** Day number of a calendar date. *)
Definition days_from_civil (y m d : Z) : Z :=
  let y := if m <=? 2 then y - 1 else y in
  let era := y / 400 in
  let yoe := y - era * 400 in
  let doy := (153 * (if 2 <? m then m - 3 else m + 9) + 2) / 5 + d - 1 in
  let doe := yoe * 365 + yoe / 4 - yoe / 100 + doy in
  era * 146097 + doe - 719468.

Definition field (start len : nat) (s : string) : option Z :=
  digits 10 (chars (substr start len s)).

(** [Date.parse] on the two ISO shapes the application writes,
    [YYYY-MM-DD] and [YYYY-MM-DDTHH:mm:ss.sssZ]. *)
Definition parse_iso (v : value) : num :=
  match v with
  | VStr s =>
      match field 0 4 s, field 5 2 s, field 8 2 s with
      | Some y, Some m, Some d =>
          let day := days_from_civil y m d * 86400000 in
          if (String.length s =? 10)%nat then Fin (inject_Z day)
          else
            match field 11 2 s, field 14 2 s, field 17 2 s, field 20 3 s with
            | Some h, Some mi, Some sec, Some ms =>
                Fin (inject_Z (day + h * 3600000 + mi * 60000 + sec * 1000 + ms))
            | _, _, _, _ => NaN
            end
      | _, _, _ => NaN
      end
  | _ => NaN
  end.

(** A platform frozen at one instant whose random source always draws the
    same fraction. *)
Definition frozen_env (t : N) (r : list hexdigit) (p : Q) : Env :=
  {| Date_now := fun _ => t;
     Math_random := fun _ => r;
     performance_now := fun _ => p;
     Date_parse := parse_iso |}.

(** A platform whose clock advances one millisecond per reading and whose
    [k]-th random draw spells [k] in its last digits. *)
Definition hex_of_nat (k : nat) : hexdigit :=
  match (k mod 16)%nat with
  | 0 => H0 | 1 => H1 | 2 => H2 | 3 => H3 | 4 => H4 | 5 => H5 | 6 => H6 | 7 => H7
  | 8 => H8 | 9 => H9 | 10 => Ha | 11 => Hb | 12 => Hc | 13 => Hd | 14 => He | _ => Hf
  end%nat.

Definition running_env (t0 : N) : Env :=
  {| Date_now := fun k => (t0 + N.of_nat k)%N;
     Math_random := fun k =>
       [Ha; H3; Hf; H7; hex_of_nat (k / 16)%nat; hex_of_nat k; Hc; H9];
     performance_now := fun k => (inject_Z (Z.of_nat k) / 8)%Q;
     Date_parse := parse_iso |}.

Definition initial_world (e : Env) (ls : gmap string value) : World :=
  {| env := e; ticks := 0%nat; localStorage := ls;
     service := {| isAvailable := true; userId := None |};
     currentService := true;
     userServiceAvailable := true |}.

End Runtime.

(** * 4. Identifiers (utils/idGenerator.js) *)

Module IdGenerator.
Import Js Runtime.

(** The fraction without its trailing zeros. *)
Fixpoint strip_zeros (l : list hexdigit) : list hexdigit :=
  match l with
  | [] => []
  | h :: rest =>
      match strip_zeros rest, h with
      | [], H0 => []
      | rest', _ => h :: rest'
      end
  end.

(** [Math.random().toString(16)] *)
Definition random_toString16 (r : list hexdigit) : string :=
  match strip_zeros r with
  | [] => "0"
  | ds => "0." ++ str (map hex_char ds)
  end.

(** [Math.random() * 16 | 0]: the first digit of the fraction. *)
Definition random_times16 (r : list hexdigit) : N :=
  match r with
  | [] => 0
  | h :: _ => hex_to_N h
  end.

(** [generateUniqueId] *)
Definition generateUniqueId : M string :=
  timestamp ← now;
  r ← random;
  let randomHex := substr 2 6 (random_toString16 r) in
  mret (N_to_string timestamp ++ "_" ++ randomHex)%string.

(** The callback of [replace(/[xy]/g, ...)] on one character of the
    template. *)
Definition uuid_char (c : ascii) : M ascii :=
  if Ascii.eqb c "x" || Ascii.eqb c "y" then
    rnd ← random;
    let r := random_times16 rnd in
    let v := if Ascii.eqb c "x" then r else N.lor (N.land r 3) 8 in
    mret (hex_char_of_N v)
  else mret c.

(** [generateUUID] *)
Definition generateUUID : M string :=
  l ← for_of (chars "xxxxxxxx-xxxx-4xxx-yxxx-xxxxxxxxxxxx") []
        (fun acc c => v ← uuid_char c; mret (v :: acc));
  mret (str (rev l)).

(** The argument [existingIds]: a [Set] of strings, or something else (the
    array index [Array.prototype.map] passes, [undefined] when omitted). *)
Inductive IdSet :=
| IdsSet (s : gset string)
| IdsOther (v : value).

(** The default parameter [existingIds = new Set()]. *)
Definition default_ids (existingIds : IdSet) : IdSet :=
  match existingIds with
  | IdsOther VUndef => IdsSet ∅
  | _ => existingIds
  end.

(** [existingIds.has(id)] *)
Definition has (existingIds : IdSet) (id : string) : M bool :=
  match existingIds with
  | IdsSet s => mret (bool_decide (id ∈ s))
  | IdsOther _ => throw (TypeError "existingIds.has is not a function")
  end.

(** The [while (attempts < maxAttempts)] loop of [generateWorkoutId], with
    [remaining = maxAttempts - attempts] iterations left, followed by the
    fallback. *)
Fixpoint generateWorkoutId_loop (remaining attempts : nat) (existingIds : IdSet)
  : M string :=
  match remaining with
  | O => generateUUID
  | S remaining =>
      id ← generateUniqueId;
      taken ← has existingIds id;
      if negb taken then mret id
      else
        let attempts := S attempts in
        if (10 <? attempts)%nat then
          timestamp ← now;
          p ← perf_now;
          let microseconds := (p - inject_Z (Qfloor p))%Q in
          r ← random;
          let randomHex := substr 2 8 (random_toString16 r) in
          let uniqueId :=
            (N_to_string timestamp ++ "_"
             ++ N_to_string (Z.to_N (Qfloor (microseconds * 1000))) ++ "_"
             ++ randomHex)%string in
          taken ← has existingIds uniqueId;
          if negb taken then mret uniqueId
          else generateWorkoutId_loop remaining attempts existingIds
        else generateWorkoutId_loop remaining attempts existingIds
  end.

(** [generateWorkoutId] *)
Definition generateWorkoutId (existingIds : IdSet) : M string :=
  generateWorkoutId_loop 100 0 (default_ids existingIds).

(** [/^\d{13}_[a-f0-9]{6,}$/] *)
Definition timestampRandomPattern (s : string) : bool :=
  let l := chars s in
  let ts := firstn 13 l in
  match skipn 13 l with
  | "_"%char :: hex =>
      (length ts =? 13)%nat && forallb is_digit ts
      && (6 <=? length hex)%nat && forallb is_hex_lower hex
  | _ => false
  end.

(** A run of exactly [n] hexadecimal digits followed by [rest]. *)
Definition hex_run (n : nat) (l : list ascii) : option (list ascii) :=
  if (length (firstn n l) =? n)%nat && forallb is_hex (firstn n l)
  then Some (skipn n l) else None.

Definition dash (l : list ascii) : option (list ascii) :=
  match l with "-"%char :: rest => Some rest | _ => None end.

(** [/^[0-9a-f]{8}-[0-9a-f]{4}-4[0-9a-f]{3}-[89ab][0-9a-f]{3}-[0-9a-f]{12}$/i] *)
Definition uuidPattern (s : string) : bool :=
  match
    l ← hex_run 8 (chars s); l ← dash l;
    l ← hex_run 4 l; l ← dash l;
    l ← match l with "4"%char :: l => hex_run 3 l | _ => None end; l ← dash l;
    l ← match l with
        | c :: l =>
            if existsb (Ascii.eqb (lower_char c)) (chars "89ab") then hex_run 3 l else None
        | [] => None
        end;
    l ← dash l;
    hex_run 12 l
  with
  | Some [] => true
  | _ => false
  end.

(** [/^\d+$/] *)
Definition numericPattern (s : string) : bool :=
  match chars s with
  | [] => false
  | l => forallb is_digit l
  end.

(** [isValidWorkoutId] *)
Definition isValidWorkoutId (id : value) : bool :=
  match id with
  | VStr s =>
      if negb (truthy id) then false
      else if timestampRandomPattern s then true
      else if uuidPattern s then true
      else if numericPattern s then true
      else false
  | _ => false
  end.

(** [/^\d+$/.test(id)], which the sources reach with strings only. *)
Definition test_numeric (id : value) : bool :=
  match id with
  | VStr s => numericPattern s
  | _ => false
  end.

(** [upgradeLegacyId] *)
Definition upgradeLegacyId (oldId : value) (existingIds : IdSet) : M value :=
  let existingIds := default_ids existingIds in
  if isValidWorkoutId oldId && negb (test_numeric oldId) then mret oldId
  else VStr <$> generateWorkoutId existingIds.

(** ** Vocabulary of the statements about identifiers *)

(** What [generateUUID] may write in place of the template character [c]:
    a lower-case hexadecimal digit for [x], one of [8 9 a b] for [y], the
    character itself otherwise. *)
Definition uuid_slot (c v : ascii) : Prop :=
  if Ascii.eqb c "x" then is_hex_lower v = true
  else if Ascii.eqb c "y" then existsb (Ascii.eqb v) (chars "89ab") = true
  else v = c.

(** ** Worlds of the worked examples *)

(** A platform frozen at 2023-12-29T23:07:14.567Z whose draws all spell
    [0.a3f7c9d2e1], with the performance timer at 5.25 ms. *)
Definition frozen_at (t : N) : Env :=
  frozen_env t [Ha; H3; Hf; H7; Hc; H9; Hd; H2; He; H1] 5.25.

Definition T0 : N := 1703891234567.

(** The id [generateUniqueId] makes at [T0] on that platform. *)
Definition taken_ids : gset string := {["1703891234567_a3f7c9"]}.

End IdGenerator.

(** * 5. Schemas (services/dataService.js) *)

Module DataService.
Import Js Runtime IdGenerator.

Definition DATA_SCHEMA_VERSION : string := "1.0.0".

(** [STORAGE_KEYS] *)
Definition WORKOUT_HISTORY : string := "weightCalculator_workoutHistory".
Definition USER_PREFERENCES : string := "weightCalculator_preferences".
Definition APP_SETTINGS : string := "weightCalculator_settings".
Definition DATA_VERSION : string := "weightCalculator_dataVersion".

Definition DEFAULT_PREFERENCES : value :=
  object [("unit", VStr "lbs");
          ("theme", VStr "light");
          ("defaultBarbell",
            object [("weight", VInt 45); ("label", VStr "Olympic Barbell (45 lbs)")]);
          ("autoSave", VBool true);
          ("showNotifications", VBool true)].

Definition DEFAULT_SETTINGS : value :=
  object [("dataVersion", VStr DATA_SCHEMA_VERSION);
          ("lastBackup", VNull);
          ("totalWorkouts", VInt 0);
          ("firstUse", VNull)].

(** [createDefaultSettings] *)
Definition createDefaultSettings : M value :=
  firstUse ← now_iso;
  mret (object [("dataVersion", VStr DATA_SCHEMA_VERSION);
                ("lastBackup", VNull);
                ("totalWorkouts", VInt 0);
                ("firstUse", VStr firstUse)]).

Definition quote : string := String (ascii_of_nat 34) EmptyString.

(** Reading a property of [null] or [undefined]. *)
Definition cannot_read (k : string) : Error :=
  TypeError ("Cannot read properties of null or undefined (reading '" ++ k ++ "')").

(** [typeof v !== 'number' || v <= 0] *)
Definition not_positive_number (v : value) : bool :=
  match v with
  | VNum n => num_le0 n
  | _ => true
  end.

(** [!['lbs', 'kg'].includes(v)] *)
Definition not_a_unit (v : value) : bool := negb (is_str v "lbs" || is_str v "kg").

Definition required_workout_fields : list string :=
  ["id"; "date"; "exercise"; "targetWeight"; "actualWeight"; "unit"; "sets"; "reps"].

(** [DataValidators.workout] *)
Definition DataValidators_workout (workout : value) : Outcome bool :=
  if nullish workout then Throw (cannot_read "id")
  else
    let missing :=
      List.filter (fun field => nullish (prop workout field)) required_workout_fields in
    if (0 <? length missing)%nat then
      Throw (JsError ("Missing required workout fields: " ++ join ", " missing))
    else if not_positive_number (prop workout "targetWeight") then
      Throw (JsError "Target weight must be a positive number")
    else if not_positive_number (prop workout "actualWeight") then
      Throw (JsError "Actual weight must be a positive number")
    else if not_a_unit (prop workout "unit") then
      Throw (JsError ("Unit must be either " ++ quote ++ "lbs" ++ quote ++ " or " ++ quote ++ "kg" ++ quote))
    else if not_positive_number (prop workout "sets") then
      Throw (JsError "Sets must be a positive number")
    else if not_positive_number (prop workout "reps") then
      Throw (JsError "Reps must be a positive number")
    else Return true.

(** [DataValidators.preferences] *)
Definition DataValidators_preferences (preferences : value) : Outcome bool :=
  if nullish preferences then Throw (cannot_read "unit")
  else if truthy (prop preferences "unit") && not_a_unit (prop preferences "unit") then
    Throw (JsError ("Unit preference must be either " ++ quote ++ "lbs" ++ quote ++ " or " ++ quote ++ "kg" ++ quote))
  else if truthy (prop preferences "theme")
          && negb (is_str (prop preferences "theme") "light"
                   || is_str (prop preferences "theme") "dark") then
    Throw (JsError ("Theme preference must be either " ++ quote ++ "light" ++ quote ++ " or " ++ quote ++ "dark" ++ quote))
  else Return true.

(** [Number(v) || d] *)
Definition number_or (v : value) (d : Z) : value :=
  VNum (num_or (ToNumber v) (Fin (inject_Z d))).

(** [DataTransformers.normalizeWorkout], with the id helpers of
    utils/idGenerator.js that its [require] resolves to. *)
Definition normalizeWorkout (workout : value) (existingIds : IdSet) : M value :=
  let existingIds := default_ids existingIds in
  if nullish workout then throw (cannot_read "id")
  else
    let workoutId := prop workout "id" in
    workoutId ←
      (if negb (truthy workoutId) || negb (isValidWorkoutId workoutId) then
         VStr <$> generateWorkoutId existingIds
       else if test_numeric workoutId then
         upgradeLegacyId workoutId existingIds
       else mret workoutId);
    date ← (if truthy (prop workout "date") then mret (prop workout "date")
            else VStr <$> today);
    createdAt ← (if truthy (prop workout "createdAt") then mret (prop workout "createdAt")
                 else VStr <$> now_iso);
    updatedAt ← now_iso;
    mret (object
      [("id", workoutId);
       ("date", date);
       ("exercise", or_else (prop workout "exercise") (VStr EmptyString));
       ("targetWeight", number_or (prop workout "targetWeight") 0);
       ("actualWeight", number_or (prop workout "actualWeight") 0);
       ("unit", or_else (prop workout "unit") (VStr "lbs"));
       ("barbell", or_else (prop workout "barbell") (VStr "Olympic Barbell (45 lbs)"));
       ("sets", number_or (prop workout "sets") 1);
       ("reps", number_or (prop workout "reps") 1);
       ("completed", VBool (truthy (prop workout "completed")));
       ("notes", or_else (prop workout "notes") (VStr EmptyString));
       ("createdAt", createdAt);
       ("updatedAt", VStr updatedAt)]).

(** [arr.map(f)] for a callback that may throw; the callback receives the
    element and its index. *)
Fixpoint map_indexed {A B} (f : A -> nat -> M B) (l : list A) (i : nat) : M (list B) :=
  match l with
  | [] => mret []
  | x :: rest => y ← f x i; ys ← map_indexed f rest (S i); mret (y :: ys)
  end.

(** [Math.min(...l)] and [Math.max(...l)] on time values. *)
Definition num_extreme (pick_first : Q -> Q -> bool) (l : list num) (empty : num) : num :=
  match l with
  | [] => empty
  | x :: rest =>
      fold_left (fun acc y =>
                   match acc, y with
                   | Fin a, Fin b => Fin (if pick_first a b then a else b)
                   | _, _ => NaN
                   end) rest x
  end.

Definition Math_min (l : list num) : num := num_extreme Qle_bool l (Inf false).
Definition Math_max (l : list num) : num := num_extreme (fun a b => Qle_bool b a) l (Inf true).

(** [DataTransformers.prepareExportData].  [workouts.map(normalizeWorkout)]
    hands each record's index to [normalizeWorkout] as [existingIds]. *)
Definition prepareExportData (workouts : list value) (preferences settings : value)
  : M value :=
  exportDate ← now_iso;
  normalized ← map_indexed
    (fun w i => normalizeWorkout w (IdsOther (VInt (Z.of_nat i)))) workouts 0;
  w ← get_world;
  let times := map (fun w' => Date_value (env w) (prop w' "date")) workouts in
  mret (object
    [("version", VStr DATA_SCHEMA_VERSION);
     ("exportDate", VStr exportDate);
     ("workouts", VArr normalized);
     ("preferences", VObj (spread (own_props DEFAULT_PREFERENCES) (own_props preferences)));
     ("settings", VObj (spread (own_props DEFAULT_SETTINGS) (own_props settings)));
     ("metadata", object
        [("totalWorkouts", VInt (Z.of_nat (length workouts)));
         ("dateRange",
           if (0 <? length workouts)%nat then
             object [("earliest", VNum (Math_min times)); ("latest", VNum (Math_max times))]
           else VNull)])]).

(** ** Vocabulary of the statements about records *)

(** An id [normalizeWorkout] keeps: accepted by [isValidWorkoutId] and not
    a legacy integer. *)
Definition modern_id (id : value) : bool :=
  truthy id && isValidWorkoutId id && negb (test_numeric id).

(** The record [normalizeWorkout] builds from [workout] once the id, the two
    dates and the stamp are chosen. *)
Definition normalized_record (workout id date createdAt : value) (updatedAt : string)
  : value :=
  object
    [("id", id);
     ("date", date);
     ("exercise", or_else (prop workout "exercise") (VStr EmptyString));
     ("targetWeight", number_or (prop workout "targetWeight") 0);
     ("actualWeight", number_or (prop workout "actualWeight") 0);
     ("unit", or_else (prop workout "unit") (VStr "lbs"));
     ("barbell", or_else (prop workout "barbell") (VStr "Olympic Barbell (45 lbs)"));
     ("sets", number_or (prop workout "sets") 1);
     ("reps", number_or (prop workout "reps") 1);
     ("completed", VBool (truthy (prop workout "completed")));
     ("notes", or_else (prop workout "notes") (VStr EmptyString));
     ("createdAt", createdAt);
     ("updatedAt", VStr updatedAt)].

(** The id chosen for a record whose own id is [raw]. *)
Definition id_choice (raw id : value) : Prop :=
  (exists s, id = VStr s) /\ (modern_id raw = true -> id = raw).

(** The value chosen for a field defaulted by [raw || ...]. *)
Definition field_choice (raw chosen : value) : Prop :=
  truthy chosen = true /\ (truthy raw = true -> chosen = raw).

(** What validation asks of the raw record: both weights coerce to a
    positive number, the unit is absent or one of the two, neither count
    coerces to a negative number. *)
Definition validates (workout : value) : bool :=
  positive_num (ToNumber (prop workout "targetWeight"))
  && positive_num (ToNumber (prop workout "actualWeight"))
  && (negb (truthy (prop workout "unit"))
      || is_str (prop workout "unit") "lbs" || is_str (prop workout "unit") "kg")
  && negb (negative_num (ToNumber (prop workout "sets")))
  && negb (negative_num (ToNumber (prop workout "reps"))).

(** [r] is what [normalizeWorkout] makes of the record [x] when it keeps
    the id of [x]. *)
Definition reads_as (x r : value) : Prop :=
  exists date createdAt updatedAt,
    r = normalized_record x (prop x "id") date createdAt updatedAt
    /\ truthy date = true /\ truthy createdAt = true.

End DataService.

(** * 6. The localStorage backend (services/localStorageService.js) *)

Module LocalStorage.
Import Js Runtime IdGenerator DataService.

Definition this : M LocalStorageService := fun w => (Return (service w), w).

(** [this.userId = u] *)
Definition set_userId (u : option string) : M unit := fun w =>
  (Return tt, set_service {| isAvailable := isAvailable (service w); userId := u |} w).

(** [!u] on a user id. *)
Definition no_user (u : option string) : bool :=
  match u with
  | None | Some EmptyString => true
  | Some _ => false
  end.

(** [_getUserScopedKey] *)
Definition _getUserScopedKey (key : string) : M string :=
  self ← this;
  match userId self with
  | Some u => if no_user (Some u) then mret key else mret (key ++ "_user_" ++ u)%string
  | None => mret key
  end.

(** [_getItem] *)
Definition _getItem (key : string) (defaultValue : value) : M value :=
  self ← this;
  if negb (isAvailable self) then mret defaultValue
  else
    scopedKey ← _getUserScopedKey key;
    item ← getItem scopedKey;
    mret (parse_or item defaultValue).

(** [_setItem]; storage is unbounded, the quota error does not arise. *)
Definition _setItem (key : string) (v : value) : M bool :=
  self ← this;
  if negb (isAvailable self) then throw (JsError "localStorage is not available")
  else
    scopedKey ← _getUserScopedKey key;
    setItem scopedKey v;;
    mret true.

(** [_removeItem] *)
Definition _removeItem (key : string) : M unit :=
  self ← this;
  if negb (isAvailable self) then mret tt
  else
    scopedKey ← _getUserScopedKey key;
    removeItem scopedKey.

(** The string ids among [workouts.map(w => w.id).filter(Boolean)]: the
    members of the [Set] that a string can be compared equal to. *)
Fixpoint string_ids (workouts : list value) : M (gset string) :=
  match workouts with
  | [] => mret ∅
  | w :: rest =>
      if nullish w then throw (cannot_read "id")
      else
        ids ← string_ids rest;
        match prop w "id" with
        | VStr s => if truthy (VStr s) then mret ({[s]} ∪ ids) else mret ids
        | _ => mret ids
        end
  end.

(** A value used as an array: [v.map], [for ... of v]. *)
Definition as_array (v : value) : M (list value) :=
  match v with
  | VArr items => mret items
  | _ => throw (TypeError "workouts.map is not a function")
  end.

(** The body of [for (const workout of workouts)] in [getWorkoutHistory]. *)
Definition history_step (st : gset string * list value) (workout : value)
  : M (gset string * list value) :=
  let '(existingIds, normalizedWorkouts) := st in
  try_catch
    (normalized ← normalizeWorkout workout (IdsSet existingIds);
     lift (DataValidators_workout normalized);;
     mret (match prop normalized "id" with
           | VStr s => {[s]} ∪ existingIds
           | _ => existingIds
           end,
           normalizedWorkouts ++ [normalized]))
    (fun _ => mret (existingIds, normalizedWorkouts)).

(** [getWorkoutHistory] *)
Definition getWorkoutHistory : M (list value) :=
  workouts ← _getItem WORKOUT_HISTORY (VArr []);
  workouts ← as_array workouts;
  existingIds ← string_ids workouts;
  r ← for_of workouts (existingIds, []) history_step;
  mret (snd r).

(** [getPreferences] *)
Definition getPreferences : M value :=
  preferences ← _getItem USER_PREFERENCES DEFAULT_PREFERENCES;
  try_catch
    (lift (DataValidators_preferences preferences);;
     mret (VObj (spread (own_props DEFAULT_PREFERENCES) (own_props preferences))))
    (fun _ => mret DEFAULT_PREFERENCES).

(** [savePreferences] *)
Definition savePreferences (preferences : value) : M value :=
  let merged := VObj (spread (own_props DEFAULT_PREFERENCES) (own_props preferences)) in
  lift (DataValidators_preferences merged);;
  _setItem USER_PREFERENCES merged;;
  mret merged.

(** [saveSettings] *)
Definition saveSettings (settings : value) : M value :=
  currentSettings ← _getItem APP_SETTINGS VNull;
  let current_firstUse :=
    if nullish currentSettings then VUndef else prop currentSettings "firstUse" in
  firstUse ←
    (if truthy current_firstUse then mret current_firstUse
     else if nullish settings then throw (cannot_read "firstUse")
     else if truthy (prop settings "firstUse") then mret (prop settings "firstUse")
     else VStr <$> now_iso);
  let merged :=
    VObj (<["firstUse" := firstUse]>
            (spread (spread (own_props DEFAULT_SETTINGS) (own_props currentSettings))
                    (own_props settings))) in
  _setItem APP_SETTINGS merged;;
  mret merged.

(** [getSettings] *)
Definition getSettings : M value :=
  settings ← _getItem APP_SETTINGS VNull;
  if negb (truthy settings) then
    newSettings ← createDefaultSettings;
    saveSettings newSettings;;
    mret newSettings
  else mret (VObj (spread (own_props DEFAULT_SETTINGS) (own_props settings))).

(** [Promise.all([a, b, c])] on three calls that each run to completion
    when started: all three run, the first failure is the one reported. *)
Definition promise_all3 {A B C} (a : M A) (b : M B) (c : M C) : M (A * B * C) := fun w =>
  let '(ra, w1) := a w in
  let '(rb, w2) := b w1 in
  let '(rc, w3) := c w2 in
  match ra, rb, rc with
  | Return x, Return y, Return z => (Return (x, y, z), w3)
  | Throw e, _, _ => (Throw e, w3)
  | _, Throw e, _ => (Throw e, w3)
  | _, _, Throw e => (Throw e, w3)
  end.

(** [exportData] *)
Definition exportData : M value :=
  '(workouts, preferences, settings) ←
    promise_all3 getWorkoutHistory getPreferences getSettings;
  prepareExportData workouts preferences settings.

(** The body of [for (const workout of data.workouts)] in [importData]. *)
Definition import_one (st : gset string * list value) (workout : value)
  : M (gset string * list value) :=
  let '(existingIds, validWorkouts) := st in
  try_catch
    (normalized ← normalizeWorkout workout (IdsSet existingIds);
     lift (DataValidators_workout normalized);;
     match prop normalized "id" with
     | VStr s =>
         if bool_decide (s ∈ existingIds) then mret (existingIds, validWorkouts)
         else mret ({[s]} ∪ existingIds, validWorkouts ++ [normalized])
     | _ => mret (existingIds, validWorkouts ++ [normalized])
     end)
    (fun _ => mret (existingIds, validWorkouts)).

(** [(a, b) => new Date(b.date) - new Date(a.date)] *)
Definition by_date_desc (e : Env) (a b : value) : num :=
  num_sub (Date_value e (prop b "date")) (Date_value e (prop a "date")).

(** [importData] *)
Definition importData (data : value) : M bool :=
  if negb (truthy data) || negb (String.eqb (typeof data) "object") then
    throw (JsError "Invalid import data format")
  else if negb (truthy (prop data "version")) then
    throw (JsError "Import data missing version information")
  else
    match prop data "workouts" with
    | VArr workouts =>
        existingWorkouts ← getWorkoutHistory;
        existingIds ← string_ids existingWorkouts;
        r ← for_of workouts (existingIds, []) import_one;
        w ← get_world;
        let mergedWorkouts :=
          Array_sort (by_date_desc (env w)) (existingWorkouts ++ snd r) in
        _setItem WORKOUT_HISTORY (VArr mergedWorkouts);;
        mret tt
    | _ => mret tt
    end;;
    (if truthy (prop data "preferences") then
       try_catch (savePreferences (prop data "preferences");; mret tt)
                 (fun _ => mret tt)
     else mret tt);;
    finalWorkouts ← getWorkoutHistory;
    currentSettings ← getSettings;
    let totalWorkouts := VInt (Z.of_nat (length finalWorkouts)) in
    (if truthy (prop data "settings") then
       try_catch
         (saveSettings
            (VObj (<["totalWorkouts" := totalWorkouts]> (own_props (prop data "settings"))));;
          mret tt)
         (fun _ => mret tt)
     else
       saveSettings
         (VObj (<["totalWorkouts" := totalWorkouts]> (own_props currentSettings)));;
       mret tt);;
    mret true.

(** [workouts.findIndex(p)], [None] for -1 *)
Fixpoint findIndex (p : value -> bool) (l : list value) : option nat :=
  match l with
  | [] => None
  | x :: rest => if p x then Some O else S <$> findIndex p rest
  end.

(** [saveWorkout] *)
Definition saveWorkout (workout : value) : M value :=
  workouts ← getWorkoutHistory;
  existingIds ← string_ids workouts;
  normalized ← normalizeWorkout workout (IdsSet existingIds);
  lift (DataValidators_workout normalized);;
  let workouts :=
    match findIndex (fun w => strict_eq (prop w "id") (prop normalized "id")) workouts with
    | Some existingIndex => <[existingIndex := normalized]> workouts
    | None => normalized :: workouts
    end in
  _setItem WORKOUT_HISTORY (VArr workouts);;
  settings ← getSettings;
  saveSettings
    (VObj (<["totalWorkouts" := VInt (Z.of_nat (length workouts))]> (own_props settings)));;
  mret normalized.


(** [deleteWorkout] *)
Definition deleteWorkout (workoutId : value) : M bool :=
  workouts ← getWorkoutHistory;
  let filteredWorkouts :=
    List.filter (fun w => negb (strict_eq (prop w "id") workoutId)) workouts in
  if (length filteredWorkouts =? length workouts)%nat then
    throw (JsError ("Workout with ID " ++ ToString workoutId ++ " not found"))
  else
    _setItem WORKOUT_HISTORY (VArr filteredWorkouts);;
    settings ← getSettings;
    saveSettings
      (VObj (<["totalWorkouts" := VInt (Z.of_nat (length filteredWorkouts))]>
               (own_props settings)));;
    mret true.

(** [clearWorkoutHistory] *)
Definition clearWorkoutHistory : M bool :=
  _setItem WORKOUT_HISTORY (VArr []);;
  settings ← getSettings;
  saveSettings (VObj (<["totalWorkouts" := VInt 0]> (own_props settings)));;
  mret true.

(** [clearAllData]: [Object.values(STORAGE_KEYS).forEach(...)] *)
Definition clearAllData : M bool :=
  for_of [WORKOUT_HISTORY; USER_PREFERENCES; APP_SETTINGS; DATA_VERSION] tt
         (fun _ key => _removeItem key);;
  mret true.

(** [getDataVersion] *)
Definition getDataVersion : M value :=
  _getItem DATA_VERSION (VStr DATA_SCHEMA_VERSION).


(** A user id as a value. *)
Definition userId_value (u : option string) : value :=
  match u with
  | Some s => VStr s
  | None => VNull
  end.

(** [getAllUserData] *)
Definition getAllUserData (userId : option string) : M value :=
  self ← this;
  let targetUserId := if no_user userId then Runtime.userId self else userId in
  if no_user targetUserId then throw (JsError "User ID required for scoped data export")
  else
    let originalUserId := Runtime.userId self in
    set_userId targetUserId;;
    try_finally
      ('(workouts, preferences, settings) ←
         promise_all3 getWorkoutHistory getPreferences getSettings;
       mret (object [("workouts", VArr workouts);
                     ("preferences", preferences);
                     ("settings", settings);
                     ("userId", userId_value targetUserId)]))
      (set_userId originalUserId).

(** The [console.log] of a template that reads [v.length]. *)
Definition read_length (v : value) : M unit :=
  if nullish v then throw (cannot_read "length") else mret tt.

(** One of the three blocks of [migrateLegacyDataToUser]. *)
Definition migrate_key (userId : option string) (key : string) (defaultValue : value)
    (logs_length : bool) (legacy : option value) (migrated : bool) : M bool :=
  match legacy with
  | Some _ =>
      data ← _getItem key defaultValue;
      set_userId userId;;
      _setItem key data;;
      set_userId None;;
      _removeItem key;;
      (if logs_length then read_length data else mret tt);;
      mret true
  | None => mret migrated
  end.

(** [migrateLegacyDataToUser] *)
Definition migrateLegacyDataToUser (userId : option string) : M bool :=
  self ← this;
  if negb (isAvailable self) || no_user userId then mret false
  else
    let originalUserId := Runtime.userId self in
    try_catch
      (legacyWorkouts ← getItem WORKOUT_HISTORY;
       legacyPreferences ← getItem USER_PREFERENCES;
       legacySettings ← getItem APP_SETTINGS;
       let migrated := false in
       set_userId None;;
       migrated ← migrate_key userId WORKOUT_HISTORY (VArr []) true legacyWorkouts migrated;
       migrated ← migrate_key userId USER_PREFERENCES (VObj ∅) false legacyPreferences migrated;
       migrated ← migrate_key userId APP_SETTINGS (VObj ∅) false legacySettings migrated;
       set_userId originalUserId;;
       mret migrated)
      (fun _ =>
         set_userId (if no_user originalUserId then None else originalUserId);;
         mret false).

(** [hasLegacyData] *)
Definition hasLegacyData : M bool :=
  self ← this;
  if negb (isAvailable self) then mret false
  else
    a ← getItem WORKOUT_HISTORY;
    b ← getItem USER_PREFERENCES;
    c ← getItem APP_SETTINGS;
    mret (bool_decide (is_Some a) || bool_decide (is_Some b) || bool_decide (is_Some c)).

(** ** Vocabulary of the statements about the backend *)

(** The key [key] scoped to user [u]. *)
Definition scoped (key u : string) : string := (key ++ "_user_" ++ u)%string.

(** An item as [JSON.parse] returns it: it parses, and it survives a round
    trip through JSON. *)
Definition stored_json (v : value) : Prop := v <> VUndef /\ JSON_roundtrip v = v.

(** [Object.values(STORAGE_KEYS)] *)
Definition storage_keys : list string :=
  [WORKOUT_HISTORY; USER_PREFERENCES; APP_SETTINGS; DATA_VERSION].

(** The three keys that hold legacy data when unscoped. *)
Definition legacy_keys : list string := [WORKOUT_HISTORY; USER_PREFERENCES; APP_SETTINGS].

(** Some legacy item is present. *)
Definition has_legacy (ls : gmap string value) : bool :=
  existsb (fun key => bool_decide (is_Some (ls !! key))) legacy_keys.

(** Moving the item at [key], if any, under the key scoped to [u]. *)
Definition move_key (u key : string) (ls : gmap string value) : gmap string value :=
  match ls !! key with
  | Some v => delete key (<[scoped key u := v]> ls)
  | None => ls
  end.

(** The store after the migration of the three legacy items to [u]. *)
Definition migrated (u : string) (ls : gmap string value) : gmap string value :=
  move_key u APP_SETTINGS (move_key u USER_PREFERENCES (move_key u WORKOUT_HISTORY ls)).

(** The key under which the backend of [w] keeps the item [key]. *)
Definition user_key (w : World) (key : string) : string :=
  match userId (service w) with
  | Some u => if no_user (Some u) then key else scoped key u
  | None => key
  end.

(** The preferences [getPreferences] makes of the stored item. *)
Definition read_preferences (item : option value) : value :=
  let preferences := parse_or item DEFAULT_PREFERENCES in
  match DataValidators_preferences preferences with
  | Return _ => VObj (spread (own_props DEFAULT_PREFERENCES) (own_props preferences))
  | Throw _ => DEFAULT_PREFERENCES
  end.

(** The records kept under the history key. *)
Definition stored_history (w : World) : list value :=
  match localStorage w !! user_key w WORKOUT_HISTORY with
  | Some (VArr items) => items
  | _ => []
  end.

(** The number of records [getWorkoutHistory] returns. *)
Definition history_count : M nat := length <$> getWorkoutHistory.

(** A stored record that [normalizeWorkout] reads with its own id, and
    whose weights do not read as an infinity. *)
Definition kept_record (x : value) : Prop :=
  nullish x = false
  /\ modern_id (prop x "id") = true
  /\ ToNumber (prop x "targetWeight") <> Inf false
  /\ ToNumber (prop x "actualWeight") <> Inf false.


(** [data] is not an object. *)
Definition not_an_object (data : value) : bool :=
  negb (truthy data) || negb (String.eqb (typeof data) "object").

(** ** Worlds of the worked examples *)

(** A legacy store: one logged workout, preferences, settings. *)
Definition legacy_store : gmap string value :=
  <[WORKOUT_HISTORY :=
      VArr [object [("id", VStr "1703891234567_a3f7c9"); ("date", VStr "2023-12-29");
                    ("exercise", VStr "Squat"); ("targetWeight", VInt 225);
                    ("actualWeight", VInt 225); ("unit", VStr "lbs");
                    ("sets", VInt 5); ("reps", VInt 5)]]]>
  (<[USER_PREFERENCES := object [("unit", VStr "kg"); ("theme", VStr "dark")]]>
  (<[APP_SETTINGS := object [("totalWorkouts", VInt 1);
                             ("firstUse", VStr "2023-12-29T23:07:14.567Z")]]> ∅)).

(** The legacy store, with a history already kept for the user [ann]. *)
Definition mixed_store : gmap string value :=
  <[scoped WORKOUT_HISTORY "ann" := VArr [] ]> legacy_store.

(** A record to be saved: a bench press under a modern id. *)
Definition bench_press : value :=
  object [("id", VStr "1703891299999_b4e8d0"); ("date", VStr "2023-12-30");
          ("exercise", VStr "Bench Press"); ("targetWeight", VInt 135);
          ("actualWeight", VInt 135); ("unit", VStr "lbs");
          ("sets", VInt 3); ("reps", VInt 8)].


End LocalStorage.

(** * 7. The service factory (services/dataServiceFactory.js) *)

Module DataServiceFactory.
Import Js Runtime LocalStorage.

(** [migrateLegacyData] *)
Definition migrateLegacyData (userId : option string) : M bool :=
  w ← get_world;
  if negb (currentService w) || no_user userId then mret false
  else try_catch (migrateLegacyDataToUser userId) (fun _ => mret false).

(** [hasLegacyData] *)
Definition hasLegacyData : M bool :=
  w ← get_world;
  if negb (currentService w) then mret false
  else try_catch LocalStorage.hasLegacyData (fun _ => mret false).

End DataServiceFactory.

(** * 8. The user directory (services/userService.js) *)

Module UserService.
Import Js Runtime.

(** [USER_STORAGE_KEYS] *)
Definition USERS_LIST : string := "weightCalculator_users".
Definition CURRENT_USER : string := "weightCalculator_currentUser".
Definition USER_SESSIONS : string := "weightCalculator_userSessions".

Definition DEFAULT_USER_PREFERENCES : value :=
  object [("unit", VStr "lbs");
          ("theme", VStr "light");
          ("defaultBarbell",
            object [("weight", VInt 45); ("label", VStr "Olympic Barbell (45 lbs)")]);
          ("autoSave", VBool true);
          ("showNotifications", VBool true)].

Definition cannot_read (k : string) : Error :=
  TypeError ("Cannot read properties of null or undefined (reading '" ++ k ++ "')").

(** [/^[a-zA-Z0-9\s\-_]+$/] *)
Definition name_pattern (s : string) : bool :=
  match chars s with
  | [] => false
  | l => forallb (fun c => is_lower c || is_upper c || is_digit c || is_space c
                           || Ascii.eqb c "-" || Ascii.eqb c "_") l
  end.

(** [UserValidators.name] *)
Definition UserValidators_name (name : value) : Outcome bool :=
  match name with
  | VStr s =>
      if negb (truthy name) then
        Throw (JsError "User name is required and must be a string")
      else if (String.length (trim s) <? 2)%nat then
        Throw (JsError "User name must be at least 2 characters long")
      else if (50 <? String.length (trim s))%nat then
        Throw (JsError "User name must be less than 50 characters")
      else if negb (name_pattern (trim s)) then
        Throw (JsError "User name can only contain letters, numbers, spaces, hyphens, and underscores")
      else Return true
  | _ => Throw (JsError "User name is required and must be a string")
  end.

(** [UserValidators.user] *)
Definition UserValidators_user (user : value) : Outcome bool :=
  if nullish user then Throw (cannot_read "id")
  else
    let missing :=
      List.filter (fun field => negb (truthy (prop user field))) ["id"; "name"; "createdAt"] in
    if (0 <? length missing)%nat then
      Throw (JsError ("Missing required user fields: " ++ join ", " missing))
    else
      match UserValidators_name (prop user "name") with
      | Throw e => Throw e
      | Return _ =>
          match prop user "id" with
          | VStr s =>
              if (String.length s <? 1)%nat then
                Throw (JsError "User ID must be a non-empty string")
              else Return true
          | _ => Throw (JsError "User ID must be a non-empty string")
          end
      end.

(** The [do ... while (existingIds.has(id))] loop of [generateUserId], run
    for at most [fuel] rounds. *)
Fixpoint generateUserId (fuel : nat) (existingIds : gset string) : M string :=
  match fuel with
  | O => throw OutOfFuel
  | S fuel =>
      t ← now;
      r ← random;
      let id := ("user_" ++ N_to_string t ++ "_"
                 ++ substr 2 6 (IdGenerator.random_toString16 r))%string in
      if bool_decide (id ∈ existingIds) then generateUserId fuel existingIds
      else mret id
  end.

(** Rounds allotted to [generateUserId]. *)
Definition ID_FUEL : nat := 1000.

(** [v?.k] *)
Definition opt_prop (v : value) (k : string) : value :=
  if nullish v then VUndef else prop v k.

(** [UserTransformers.normalizeUser] *)
Definition normalizeUser (userData : value) (existingIds : gset string) : M value :=
  now_ ← now_iso;
  if nullish userData then throw (cannot_read "id")
  else
    id ← (if truthy (prop userData "id") then mret (prop userData "id")
          else VStr <$> generateUserId ID_FUEL existingIds);
    name ← match or_else (prop userData "name") (VStr EmptyString) with
           | VStr s => mret (VStr (trim s))
           | _ => throw (TypeError "(userData.name || '').trim is not a function")
           end;
    let metadata := prop userData "metadata" in
    mret (object
      [("id", id);
       ("name", name);
       ("createdAt", or_else (prop userData "createdAt") (VStr now_));
       ("lastActive", or_else (prop userData "lastActive") (VStr now_));
       ("preferences",
         VObj (spread (own_props DEFAULT_USER_PREFERENCES)
                      (own_props (or_else (prop userData "preferences") (VObj ∅)))));
       ("isActive",
         match prop userData "isActive" with
         | VUndef => VBool true
         | v => v
         end);
       ("metadata",
         VObj (spread
                 (own_props (object
                    [("totalWorkouts", or_else (opt_prop metadata "totalWorkouts") (VInt 0));
                     ("firstWorkout", or_else (opt_prop metadata "firstWorkout") VNull);
                     ("lastWorkout", or_else (opt_prop metadata "lastWorkout") VNull)]))
                 (own_props metadata)))]).

(** [_getItem] *)
Definition _getItem (key : string) (defaultValue : value) : M value :=
  w ← get_world;
  if negb (userServiceAvailable w) then mret defaultValue
  else item ← getItem key; mret (parse_or item defaultValue).

(** [_setItem]; storage is unbounded, the quota error does not arise. *)
Definition _setItem (key : string) (v : value) : M bool :=
  w ← get_world;
  if negb (userServiceAvailable w) then throw (JsError "localStorage not available")
  else setItem key v;; mret true.

(** A value used as an array. *)
Definition as_array (what : string) (v : value) : M (list value) :=
  match v with
  | VArr items => mret items
  | _ => throw (TypeError (what ++ " is not a function"))
  end.

(** The string ids among [users.map(u => u.id).filter(Boolean)]. *)
Fixpoint string_ids (users : list value) : M (gset string) :=
  match users with
  | [] => mret ∅
  | u :: rest =>
      if nullish u then throw (cannot_read "id")
      else
        ids ← string_ids rest;
        match prop u "id" with
        | VStr s => if truthy (VStr s) then mret ({[s]} ∪ ids) else mret ids
        | _ => mret ids
        end
  end.

(** [(a, b) => new Date(b.lastActive) - new Date(a.lastActive)] *)
Definition by_lastActive_desc (e : Env) (a b : value) : num :=
  num_sub (Date_value e (prop b "lastActive")) (Date_value e (prop a "lastActive")).

(** The body of [for (const user of users)] in [getAllUsers]. *)
Definition getAllUsers_step (st : gset string * list value) (user : value)
  : M (gset string * list value) :=
  let '(existingIds, normalizedUsers) := st in
  try_catch
    (normalized ← normalizeUser user existingIds;
     lift (UserValidators_user normalized);;
     mret (match prop normalized "id" with
           | VStr s => {[s]} ∪ existingIds
           | _ => existingIds
           end,
           normalizedUsers ++ [normalized]))
    (fun _ => mret (existingIds, normalizedUsers)).

(** [getAllUsers] *)
Definition getAllUsers : M (list value) :=
  users ← _getItem USERS_LIST (VArr []);
  users ← as_array "users.map" users;
  existingIds ← string_ids users;
  r ← for_of users (existingIds, []) getAllUsers_step;
  w ← get_world;
  mret (Array_sort (by_lastActive_desc (env w)) (snd r)).

(** [arr.find(p) || null] on objects *)
Definition find_or_null (p : value -> bool) (l : list value) : value :=
  match List.find p l with
  | Some v => v
  | None => VNull
  end.

(** [arr.findIndex(p)], [None] for -1 *)
Fixpoint findIndex (p : value -> bool) (l : list value) : option nat :=
  match l with
  | [] => None
  | x :: rest => if p x then Some O else S <$> findIndex p rest
  end.

(** [getUserById] *)
Definition getUserById (userId : value) : M value :=
  if negb (truthy userId) then mret VNull
  else
    users ← getAllUsers;
    mret (find_or_null (fun user => strict_eq (prop user "id") userId) users).

(** [getCurrentUser] *)
Definition getCurrentUser : M value :=
  userId ← _getItem CURRENT_USER VNull;
  if negb (truthy userId) then mret VNull
  else getUserById userId.

(** [s.toLowerCase()] on a value; only a string has the method. *)
Definition lower (v : value) : M string :=
  match v with
  | VStr s => mret (toLowerCase s)
  | VUndef | VNull => throw (cannot_read "toLowerCase")
  | _ => throw (TypeError "toLowerCase is not a function")
  end.

Fixpoint lower_names (users : list value) : M (gset string) :=
  match users with
  | [] => mret ∅
  | u :: rest =>
      n ← lower (prop u "name");
      names ← lower_names rest;
      mret ({[n]} ∪ names)
  end.

(** [createUser] *)
Definition createUser (userData : value) : M value :=
  users ← getAllUsers;
  existingIds ← string_ids users;
  existingNames ← lower_names users;
  (if nullish userData then throw (cannot_read "name") else mret tt);;
  name ← lower (prop userData "name");
  if bool_decide (trim name ∈ existingNames) then
    throw (JsError "A user with this name already exists")
  else
    newUser ← normalizeUser userData existingIds;
    lift (UserValidators_user newUser);;
    _setItem USERS_LIST (VArr (users ++ [newUser]));;
    mret newUser.

(** [userExistsByName] *)
Definition userExistsByName (name : value) : M bool :=
  if negb (truthy name) then mret false
  else
    users ← getAllUsers;
    wanted ← lower name;
    for_of users false
      (fun found user =>
         if found then mret true
         else if truthy (prop user "isActive") then
           n ← lower (prop user "name");
           mret (String.eqb (trim n) (trim wanted))
         else mret false).

(** [_logSession] *)
Definition _logSession (userId : value) (type : string) : M unit :=
  try_catch
    (sessions ← _getItem USER_SESSIONS (VArr []);
     sessions ← as_array "sessions.push" sessions;
     timestamp ← now_iso;
     let sessions :=
       sessions ++ [object [("userId", userId); ("type", VStr type);
                            ("timestamp", VStr timestamp)]] in
     (if existsb nullish sessions then throw (cannot_read "userId") else mret tt);;
     let mine := List.filter (fun s => strict_eq (prop s "userId") userId) sessions in
     let userSessions := skipn (length mine - 100) mine in
     let otherSessions :=
       List.filter (fun s => negb (strict_eq (prop s "userId") userId)) sessions in
     _setItem USER_SESSIONS (VArr (otherSessions ++ userSessions));;
     mret tt)
    (fun _ => mret tt).

(** [isHealthy] *)
Definition isHealthy : M value :=
  try_catch
    (t ← now;
     let testValue := object [("timestamp", VInt (Z.of_N t))] in
     _setItem "userService_health_test" testValue;;
     retrieved ← _getItem "userService_health_test" VNull;
     removeItem "userService_health_test";;
     mret (if truthy retrieved
           then VBool (strict_eq (prop retrieved "timestamp") (prop testValue "timestamp"))
           else retrieved))
    (fun _ => mret (VBool false)).

(** [clearCurrentUser] *)
Definition clearCurrentUser : M bool :=
  currentUser ← getCurrentUser;
  (if truthy currentUser then _logSession (prop currentUser "id") "logout" else mret tt);;
  removeItem CURRENT_USER;;
  mret true.

(** [user.isActive = false; user.lastActive = lastActive] *)
Definition deactivate (lastActive : string) (user : value) : value :=
  VObj (<["lastActive" := VStr lastActive]> (<["isActive" := VBool false]> (own_props user))).

(** [deleteUser] *)
Definition deleteUser (userId : value) : M bool :=
  users ← getAllUsers;
  match findIndex (fun u => strict_eq (prop u "id") userId) users with
  | None => throw (JsError ("User with ID " ++ ToString userId ++ " not found"))
  | Some userIndex =>
      lastActive ← now_iso;
      let users := alter (deactivate lastActive) userIndex users in
      _setItem USERS_LIST (VArr users);;
      currentUser ← getCurrentUser;
      (if truthy currentUser && strict_eq (prop currentUser "id") userId
       then clearCurrentUser else mret true);;
      mret true
  end.

(** [typeof userOrId === 'string' ? userOrId : userOrId.id] *)
Definition user_ref (userOrId : value) : value :=
  if String.eqb (typeof userOrId) "string" then userOrId else prop userOrId "id".

(** [setCurrentUser] and [updateUser] call each other; [fuel] bounds the
    depth of the calls. *)
Fixpoint setCurrentUser (fuel : nat) (userOrId : value) : M value :=
  match fuel with
  | O => throw OutOfFuel
  | S fuel =>
      (if nullish userOrId then throw (cannot_read "id") else mret tt);;
      let userId := user_ref userOrId in
      user ← getUserById userId;
      if negb (truthy user) then
        throw (JsError ("User with ID " ++ ToString userId ++ " not found"))
      else if negb (truthy (prop user "isActive")) then
        throw (JsError "Cannot set inactive user as current user")
      else
        lastActive ← now_iso;
        updateUser fuel userId (object [("lastActive", VStr lastActive)]);;
        _setItem CURRENT_USER userId;;
        _logSession userId "login";;
        mret user
  end
with updateUser (fuel : nat) (userId updates : value) : M value :=
  match fuel with
  | O => throw OutOfFuel
  | S fuel =>
      users ← getAllUsers;
      match findIndex (fun u => strict_eq (prop u "id") userId) users with
      | None => throw (JsError ("User with ID " ++ ToString userId ++ " not found"))
      | Some userIndex =>
          let old := default VUndef (users !! userIndex) in
          (if nullish updates then throw (cannot_read "name") else mret tt);;
          (if truthy (prop updates "name")
              && negb (strict_eq (prop updates "name") (prop old "name")) then
             existingNames ← lower_names
               (List.filter (fun u => negb (strict_eq (prop u "id") userId)) users);
             name ← lower (prop updates "name");
             if bool_decide (trim name ∈ existingNames) then
               throw (JsError "A user with this name already exists")
             else mret tt
           else mret tt);;
          lastActive ← now_iso;
          let updatedUser :=
            VObj (<["lastActive" := VStr lastActive]>
                    (spread (own_props old) (own_props updates))) in
          normalized ← normalizeUser updatedUser ∅;
          lift (UserValidators_user normalized);;
          _setItem USERS_LIST (VArr (<[userIndex := normalized]> users));;
          currentUser ← getCurrentUser;
          (if truthy currentUser && strict_eq (prop currentUser "id") userId
           then setCurrentUser fuel normalized;; mret tt else mret tt);;
          mret normalized
      end
  end.

(** ** Vocabulary of the statements about the directory *)

(** The profile [normalizeUser] builds from [userData] once the id, the
    trimmed name and the time are known. *)
Definition user_record (userData id name : value) (now_ : string) : value :=
  let metadata := prop userData "metadata" in
  object
    [("id", id);
     ("name", name);
     ("createdAt", or_else (prop userData "createdAt") (VStr now_));
     ("lastActive", or_else (prop userData "lastActive") (VStr now_));
     ("preferences",
       VObj (spread (own_props DEFAULT_USER_PREFERENCES)
                    (own_props (or_else (prop userData "preferences") (VObj ∅)))));
     ("isActive",
       match prop userData "isActive" with
       | VUndef => VBool true
       | v => v
       end);
     ("metadata",
       VObj (spread
               (own_props (object
                  [("totalWorkouts", or_else (opt_prop metadata "totalWorkouts") (VInt 0));
                   ("firstWorkout", or_else (opt_prop metadata "firstWorkout") VNull);
                   ("lastWorkout", or_else (opt_prop metadata "lastWorkout") VNull)]))
               (own_props metadata)))].

(** A profile that [getAllUsers] returns: built by [normalizeUser] and
    accepted by [UserValidators.user]. *)
Definition good_user (x : value) : Prop :=
  exists userData id n t,
    x = user_record userData (VStr id) (VStr n) t
    /\ id <> EmptyString
    /\ UserValidators_name (VStr n) = Return true
    /\ trim n = n.



(** The directory and the availability flag are those of [w]. *)
Definition same_directory (w w' : World) : Prop :=
  userServiceAvailable w' = userServiceAvailable w
  /\ localStorage w' !! USERS_LIST = localStorage w !! USERS_LIST.








(** A soft-deleted profile in storage. *)
Definition deleted_bob : value :=
  object [("id", VStr "user_1703891234568_a3f702");
          ("name", VStr "Bob");
          ("createdAt", VStr "2023-12-29T23:07:14.567Z");
          ("lastActive", VStr "2023-12-30T08:00:00.000Z");
          ("isActive", VBool false)].

Definition active_ann : value :=
  object [("id", VStr "user_1703891234999_0c11d4");
          ("name", VStr "Ann");
          ("createdAt", VStr "2023-12-29T23:07:14.999Z");
          ("lastActive", VStr "2023-12-31T08:00:00.000Z");
          ("isActive", VBool true)].

Definition directory : gmap string value :=
  <[USERS_LIST := VArr [deleted_bob; active_ann]]>
  (<[CURRENT_USER := VStr "user_1703891234999_0c11d4"]> ∅).

(** Two live profiles stored under one id, both last active at a date the
    clock has not reached. *)
Definition twin_ann : value :=
  object [("id", VStr "user_1703891234568_a3f702");
          ("name", VStr "Ann");
          ("createdAt", VStr "2023-12-29T23:07:14.567Z");
          ("lastActive", VStr "2099-01-02T00:00:00.000Z");
          ("isActive", VBool true)].

Definition twin_bob : value :=
  object [("id", VStr "user_1703891234568_a3f702");
          ("name", VStr "Bob");
          ("createdAt", VStr "2023-12-29T23:07:14.567Z");
          ("lastActive", VStr "2099-01-01T00:00:00.000Z");
          ("isActive", VBool true)].

Definition twin_directory : gmap string value :=
  {[ USERS_LIST := VArr [twin_ann; twin_bob] ]}.

(** An entry of the session log. *)
Definition session_entry (userId type timestamp : string) : value :=
  object [("userId", VStr userId); ("type", VStr type); ("timestamp", VStr timestamp)].

(** A full session log: a hundred entries of Ann, the oldest one from the
    29th, between two entries of Bob. *)
Definition busy_log : list value :=
  session_entry "user_1703891234568_a3f702" "login" "2023-12-28T09:00:00.000Z"
  :: session_entry "user_1703891234999_0c11d4" "login" "2023-12-29T23:07:14.999Z"
  :: repeat (session_entry "user_1703891234999_0c11d4" "login" "2023-12-30T08:00:00.000Z") 99
  ++ [session_entry "user_1703891234568_a3f702" "logout" "2023-12-30T09:00:00.000Z"].

(** The worked directory with the full session log. *)
Definition busy_directory : gmap string value :=
  <[USER_SESSIONS := VArr busy_log]> directory.

End UserService.

(** * Properties of the plate solver *)

Module PlateSolverFacts.
Import PlateSolver.
#[local] Open Scope Q_scope.

(** ** Arithmetic of two-decimal amounts *)

Lemma centsb_cents x : centsb x = true -> cents x.
Proof.
  unfold centsb. intros H%Qeq_bool_eq. exists (Qfloor (x * 100)). now symmetry.
Qed.

Lemma Qfloor_unique (x : Q) (z : Z) :
  inject_Z z <= x -> x < inject_Z z + 1 -> Qfloor x = z.
Proof.
  intros Hlo Hhi.
  pose proof (Qfloor_le x) as Hfl. pose proof (Qlt_floor x) as Hfu.
  rewrite inject_Z_plus in Hfu. change (inject_Z 1) with 1 in Hfu.
  assert (Qfloor x < z + 1)%Z as H1.
  { rewrite Zlt_Qlt, inject_Z_plus. change (inject_Z 1) with 1. lra. }
  assert (z < Qfloor x + 1)%Z as H2.
  { rewrite Zlt_Qlt, inject_Z_plus. change (inject_Z 1) with 1. lra. }
  lia.
Qed.

Lemma round2_cents x : cents x -> round2 x == x.
Proof.
  intros [z Hz]. unfold round2, Math_round.
  rewrite (Qfloor_unique (x * 100 + (1 # 2)) z) by (rewrite Hz; lra).
  rewrite <- Hz. field.
Qed.

Lemma cents_round2 x : cents (round2 x).
Proof. exists (Math_round (x * 100)). unfold round2. field. Qed.

Lemma round2_upper x : round2 x <= x + 0.005.
Proof.
  unfold round2, Math_round.
  pose proof (Qfloor_le (x * 100 + (1 # 2))) as H.
  apply Qle_shift_div_r; [reflexivity | lra].
Qed.

Lemma round2_nonneg x : 0 <= x -> 0 <= round2 x.
Proof.
  intros Hx. unfold round2, Math_round.
  assert (0 <= Qfloor (x * 100 + (1 # 2)))%Z as H.
  { change 0%Z with (Qfloor 0). apply Qfloor_resp_le. lra. }
  apply Qle_shift_div_l; [reflexivity |].
  rewrite Zle_Qle in H. change (inject_Z 0) with 0 in H. lra.
Qed.

Lemma cents_sub_mul (a w : Q) (n : Z) :
  cents a -> cents w -> cents (a - inject_Z n * w).
Proof.
  intros [za Ha] [zw Hw]. exists (za + - (n * zw))%Z.
  rewrite inject_Z_plus, inject_Z_opp, inject_Z_mult, <- Ha, <- Hw. ring.
Qed.

(** ** The breakdown object *)

Lemma reduce_entrySum (l : Breakdown) (a : Q) :
  fold_left (fun sum e => sum + fst e * inject_Z (snd e)) l a == a + entrySum l.
Proof.
  revert a. induction l as [|e l IH]; intros a; simpl.
  - lra.
  - rewrite IH. lra.
Qed.

Lemma entrySum_app l1 l2 : entrySum (l1 ++ l2) == entrySum l1 + entrySum l2.
Proof. induction l1 as [|e l1 IH]; simpl; [lra | rewrite IH; lra]. Qed.

Lemma entrySum_Permutation l l' : Permutation l l' -> entrySum l == entrySum l'.
Proof.
  induction 1 as [| e l l' _ IH | e1 e2 l | l1 l2 l3 _ IH1 _ IH2]; simpl.
  - reflexivity.
  - rewrite IH. reflexivity.
  - lra.
  - now rewrite IH1.
Qed.

Lemma insert_by_key_Permutation e l : Permutation (insert_by_key e l) (e :: l).
Proof.
  induction l as [|e' l IH]; simpl; [reflexivity |].
  destruct (Qle_bool (fst e) (fst e')); [reflexivity |].
  rewrite IH. apply perm_swap.
Qed.

Lemma sort_by_key_Permutation l : Permutation (fold_right insert_by_key [] l) l.
Proof.
  induction l as [|e l IH]; simpl; [reflexivity |].
  rewrite insert_by_key_Permutation. now constructor.
Qed.

Lemma filter_split_Permutation {A} (f : A -> bool) (l : list A) :
  Permutation (List.filter f l ++ List.filter (fun x => negb (f x)) l) l.
Proof.
  induction l as [|x l IH]; simpl; [reflexivity |].
  destruct (f x); simpl.
  - now constructor.
  - symmetry. apply Permutation_cons_app. now symmetry.
Qed.

Lemma Object_entries_Permutation bd : Permutation (Object_entries bd) bd.
Proof.
  unfold Object_entries.
  rewrite sort_by_key_Permutation.
  apply (filter_split_Permutation (fun e => is_array_index (fst e))).
Qed.

Lemma entrySum_bd_set bd w c :
  bd_get bd w = Some 0%Z ->
  entrySum (bd_set bd w c) == entrySum bd + w * inject_Z c.
Proof.
  induction bd as [|[k' c'] bd IH]; simpl; [discriminate |].
  destruct (Qeq_bool k' w) eqn:E; simpl.
  - intros [= ->]. apply Qeq_bool_eq in E. rewrite E.
    change (inject_Z 0) with 0. lra.
  - intros H. rewrite (IH H). lra.
Qed.

Lemma bd_get_bd_set_other bd w c w' :
  Qeq_bool w w' = false -> bd_get (bd_set bd w c) w' = bd_get bd w'.
Proof.
  intros Hne. induction bd as [|[k' c'] bd IH]; simpl.
  - now rewrite Hne.
  - destruct (Qeq_bool k' w) eqn:E; simpl.
    + destruct (Qeq_bool k' w') eqn:E'; [| reflexivity].
      apply Qeq_bool_eq in E, E'.
      rewrite <- E, E' in Hne. now rewrite Qeq_bool_refl in Hne.
    + now rewrite IH.
Qed.

Lemma plateStep_spec bd rem w :
  plate_ok w = true -> bd_get bd w = Some 0%Z -> 0 <= rem -> cents rem ->
  let st := plateStep (bd, rem) w in
  entrySum (fst st) + snd st == entrySum bd + rem
  /\ 0 <= snd st /\ snd st <= rem /\ cents (snd st).
Proof.
  intros [Hpos Hc%centsb_cents]%andb_prop Hget Hrem Hcents. cbv zeta. unfold plateStep.
  unfold Qlt_bool in Hpos. apply negb_true_iff in Hpos.
  assert (0 < w) as Hw.
  { destruct (Qlt_le_dec 0 w) as [|Hle]; [assumption |].
    apply Qle_bool_iff in Hle. congruence. }
  destruct (Qle_bool w rem) eqn:Hle; cbn [fst snd]; [| repeat split; (lra || assumption)].
  set (count := Math_floor (rem / w)).
  assert (inject_Z count * w <= rem) as Hfit.
  { pose proof (Qfloor_le (rem / w)) as Hfl. fold (Math_floor (rem / w)) in Hfl.
    fold count in Hfl.
    apply (Qmult_le_compat_r _ _ w) in Hfl; [| lra].
    assert (rem / w * w == rem) as E by (field; lra).
    now rewrite E in Hfl. }
  assert (0 <= inject_Z count * w) as Hnn.
  { apply Qmult_le_0_compat; [| lra].
    change 0 with (inject_Z 0). rewrite <- Zle_Qle.
    change 0%Z with (Qfloor 0). apply Qfloor_resp_le.
    apply Qle_shift_div_l; lra. }
  pose proof (cents_sub_mul rem w count Hcents Hc) as Hc'.
  pose proof (round2_cents _ Hc') as Hr.
  pose proof (entrySum_bd_set _ _ count Hget) as Hs.
  repeat split; try lra. apply cents_round2.
Qed.

Lemma plateLoop_spec ps : forall bd rem,
  forallb plate_ok ps = true -> distinct ps = true ->
  Forall (fun w => bd_get bd w = Some 0%Z) ps ->
  0 <= rem -> cents rem ->
  let st := fold_left plateStep ps (bd, rem) in
  entrySum (fst st) + snd st == entrySum bd + rem
  /\ 0 <= snd st /\ snd st <= rem.
Proof.
  induction ps as [|w ps IH]; intros bd rem Hok Hd Hz Hrem Hc; cbn [fold_left].
  - cbn. repeat split; lra.
  - cbn [forallb distinct] in Hok, Hd.
    apply andb_prop in Hok as [Hw Hok]. apply andb_prop in Hd as [Hfresh Hd].
    inversion Hz as [|? ? Hget Hz']; subst.
    destruct (plateStep_spec bd rem w Hw Hget Hrem Hc) as (Hsum & Hnn & Hle & Hc').
    destruct (plateStep (bd, rem) w) as [bd1 rem1] eqn:Hstep.
    cbn [fst snd] in Hsum, Hnn, Hle, Hc'.
    assert (Forall (fun w' => bd_get bd1 w' = Some 0%Z) ps) as Hz1.
    { unfold plateStep in Hstep.
      destruct (Qle_bool w rem); inversion Hstep; subst; [| assumption].
      rewrite Forall_forall in Hz' |- *. intros w' Hin.
      rewrite bd_get_bd_set_other; [now apply Hz' |].
      rewrite forallb_forall in Hfresh.
      specialize (Hfresh w'). rewrite negb_true_iff in Hfresh. apply Hfresh.
      now apply list_elem_of_In. }
    destruct (IH bd1 rem1 Hok Hd Hz1 Hnn Hc') as (Hsum' & Hnn' & Hle').
    cbv zeta. repeat split; lra.
Qed.

Lemma builtin_plates_ok u :
  forallb plate_ok (plateWeightsOf u) = true
  /\ distinct (plateWeightsOf u) = true
  /\ Forall (fun w => bd_get (zeroBreakdown (plateWeightsOf u)) w = Some 0%Z)
            (plateWeightsOf u)
  /\ entrySum (zeroBreakdown (plateWeightsOf u)) == 0.
Proof.
  destruct u; (split; [| split; [| split]]);
    try (vm_compute; reflexivity); repeat constructor.
Qed.

(** From the bar upwards the answer is never lighter than the bar and
    exceeds the target by no more than the 0.005 that the rounding of the
    load to two decimals can add, and not at all when the load has at most
    two decimals. *)
Lemma calculatePlates_upper (u : Unit) (barbell target : Q) :
  barbell <= target ->
  barbell <= actualWeight (calculatePlates u barbell target)
  /\ actualWeight (calculatePlates u barbell target) <= target + 0.005
  /\ (cents (target - barbell) ->
        actualWeight (calculatePlates u barbell target) <= target).
Proof.
  intros Hle. unfold calculatePlates. fold (plateWeightsOf u).
  assert (Qlt_bool target barbell = false) as ->.
  { unfold Qlt_bool. apply negb_false_iff, Qle_bool_iff, Hle. }
  destruct (builtin_plates_ok u) as (Hok & Hd & Hz & Hzero).
  pose proof (round2_nonneg (target - barbell) ltac:(lra)) as Hr0.
  pose proof (plateLoop_spec _ _ _ Hok Hd Hz Hr0 (cents_round2 _)) as Hloop.
  cbv zeta in Hloop.
  destruct (fold_left plateStep (plateWeightsOf u) _) as [bd rem].
  cbn [fst snd actualWeight] in *.
  destruct Hloop as (Hsum & Hnn & Hle').
  rewrite reduce_entrySum, (entrySum_Permutation _ _ (Object_entries_Permutation bd)).
  pose proof (round2_upper (target - barbell)) as Hup.
  repeat split; try lra.
  intros Hc%round2_cents. lra.
Qed.

(** Below the bar the solver answers the bare bar, without a plate. *)
Lemma calculatePlates_below_bar (u : Unit) (barbell target : Q) :
  target < barbell ->
  actualWeight (calculatePlates u barbell target) = barbell
  /\ totalPlates (calculatePlates u barbell target) = 0%Z.
Proof.
  intros Hlt. unfold calculatePlates.
  assert (Qlt_bool target barbell = true) as ->; [| now split].
  unfold Qlt_bool. apply negb_true_iff.
  destruct (Qle_bool barbell target) eqn:E; [| reflexivity].
  apply Qle_bool_iff in E. lra.
Qed.

(** C1 as stated fails: with the 45 lbs bar and a 46 lbs target no plate
    fits, and the answer, 45, is below the target (by less than the
    lightest plate, 2.5 lbs). *)
Lemma calculatePlates_below_target :
  0 <= 46 /\ 0 < 45 /\ 45 <= 46
  /\ ~ (46 <= actualWeight (calculatePlates lbs 45 46)).
Proof. repeat split; vm_compute; try discriminate. intros H. now apply H. Qed.

(** The rounding of the load can also push the answer above the target. *)
Example calculatePlates_above_target :
  47.496 < actualWeight (calculatePlates lbs 45 47.496).
Proof. vm_compute. reflexivity. Qed.

(** C2 (as amended).  Bar 45 lbs, target 225 lbs: the load of 180 lbs is
    four 45 lbs plates; the breakdown is {45: 4} with every other
    denomination at 0, actualWeight 225, exactMatch true, totalPlates 4,
    the count for the whole bar. *)
Theorem calculatePlates_225 :
  plateBreakdown (calculatePlates lbs 45 225)
    = [(45, 4%Z); (25, 0%Z); (10, 0%Z); (5, 0%Z); (2.5, 0%Z)]
  /\ actualWeight (calculatePlates lbs 45 225) == 225
  /\ exactMatch (calculatePlates lbs 45 225) = true
  /\ totalPlates (calculatePlates lbs 45 225) = 4%Z.
Proof. repeat split. Qed.

(** C2 as stated fails: the solver does not answer two plates. *)
Lemma calculatePlates_225_not_two_plates :
  ~ (bd_get (plateBreakdown (calculatePlates lbs 45 225)) 45 = Some 2%Z
     /\ actualWeight (calculatePlates lbs 45 225) == 225
     /\ exactMatch (calculatePlates lbs 45 225) = true
     /\ totalPlates (calculatePlates lbs 45 225) = 2%Z).
Proof. intros (H & _). vm_compute in H. discriminate. Qed.

(** The two other worked examples of the specification. *)
Example calculatePlates_137_5 :
  plateBreakdown (calculatePlates lbs 45 137.5)
    = [(45, 2%Z); (25, 0%Z); (10, 0%Z); (5, 0%Z); (2.5, 1%Z)]
  /\ actualWeight (calculatePlates lbs 45 137.5) == 137.5
  /\ exactMatch (calculatePlates lbs 45 137.5) = true
  /\ totalPlates (calculatePlates lbs 45 137.5) = 3%Z.
Proof. repeat split. Qed.

Example calculatePlates_61_25 :
  plateBreakdown (calculatePlates kg 20 61.25)
    = [(25, 1%Z); (20, 0%Z); (15, 1%Z); (10, 0%Z); (5, 0%Z); (2.5, 0%Z); (1.25, 1%Z)]
  /\ actualWeight (calculatePlates kg 20 61.25) == 61.25
  /\ totalPlates (calculatePlates kg 20 61.25) = 3%Z.
Proof. repeat split. Qed.

End PlateSolverFacts.
(** * Reasoning about computations *)

Module RuntimeFacts.
Import Js Runtime.

Lemma later_refl w : later w w.
Proof. repeat split. Qed.

Lemma later_trans w1 w2 w3 : later w1 w2 -> later w2 w3 -> later w1 w3.
Proof.
  intros (?&?&?&?&?) (?&?&?&?&?). repeat split; congruence.
Qed.

Lemma later_tick w : later w (tick w).
Proof. repeat split. Qed.

Lemma returns_later_ret {A} (a : A) (P : A -> Prop) : P a -> returns_later (mret a) P.
Proof. intros H w. exists a, w. repeat split. exact H. Qed.

Lemma returns_later_bind {A B} (m : M A) (f : A -> M B) (P : A -> Prop) (Q : B -> Prop) :
  returns_later m P -> (forall a, P a -> returns_later (f a) Q) ->
  returns_later (m ≫= f) Q.
Proof.
  intros Hm Hf w. destruct (Hm w) as (a & w1 & E1 & L1 & Pa).
  destruct (Hf a Pa w1) as (b & w2 & E2 & L2 & Qb).
  exists b, w2. unfold mbind, M_bind. rewrite E1, E2.
  split; [reflexivity |]. split; [eapply later_trans; eassumption | exact Qb].
Qed.

Lemma returns_later_fmap {A B} (g : A -> B) (m : M A) (P : A -> Prop) (Q : B -> Prop) :
  returns_later m P -> (forall a, P a -> Q (g a)) -> returns_later (g <$> m) Q.
Proof.
  intros Hm Hg w. destruct (Hm w) as (a & w1 & E1 & L1 & Pa).
  exists (g a), w1. unfold fmap, M_fmap. rewrite E1. auto.
Qed.

Lemma returns_later_weaken {A} (m : M A) (P Q : A -> Prop) :
  returns_later m P -> (forall a, P a -> Q a) -> returns_later m Q.
Proof.
  intros Hm HPQ w. destruct (Hm w) as (a & w1 & E1 & L1 & Pa). eauto 6.
Qed.

Lemma returns_later_now : returns_later now (fun _ => True).
Proof. intros w. eexists _, _. split; [reflexivity |]. split; [apply later_tick | exact I]. Qed.

Lemma returns_later_random : returns_later random (fun _ => True).
Proof. intros w. eexists _, _. split; [reflexivity |]. split; [apply later_tick | exact I]. Qed.

Lemma returns_later_perf_now : returns_later perf_now (fun _ => True).
Proof. intros w. eexists _, _. split; [reflexivity |]. split; [apply later_tick | exact I]. Qed.

Lemma returns_later_now_iso : returns_later now_iso (fun _ => True).
Proof.
  unfold now_iso. eapply returns_later_bind; [apply returns_later_now |].
  intros t _. now apply returns_later_ret.
Qed.

Lemma returns_later_today : returns_later today (fun s => True).
Proof.
  unfold today. eapply returns_later_bind; [apply returns_later_now_iso |].
  intros t _. now apply returns_later_ret.
Qed.

Lemma returns_later_for_of {A B} (l : list A) (body : B -> A -> M B) (acc : B) :
  (forall b a, returns_later (body b a) (fun _ => True)) ->
  returns_later (for_of l acc body) (fun _ => True).
Proof.
  intros Hbody. revert acc. induction l as [|x l IH]; intros acc; simpl.
  - now apply returns_later_ret.
  - eapply returns_later_bind; [apply Hbody |]. intros b _. apply IH.
Qed.

Lemma returns_later_bind_any {A B} (m : M A) (f : A -> M B) (Q : B -> Prop) :
  returns_later m (fun _ => True) -> (forall a, returns_later (f a) Q) ->
  returns_later (m ≫= f) Q.
Proof. intros Hm Hf. eapply returns_later_bind; [exact Hm | intros a _; apply Hf]. Qed.

Lemma returns_later_any {A} (m : M A) (P : A -> Prop) :
  returns_later m P -> returns_later m (fun _ => True).
Proof. intros H. eapply returns_later_weaken; [exact H | trivial]. Qed.

(** ** Computations that may throw *)

Lemma bind_run {A B} (m : M A) (f : A -> M B) w :
  (m ≫= f) w
  = match m w with
    | (Return a, w') => f a w'
    | (Throw e, w') => (Throw e, w')
    end.
Proof. reflexivity. Qed.

Lemma ensures_of_returns {A} (m : M A) (P : A -> Prop) :
  returns_later m P -> ensures m P.
Proof.
  intros H w. destruct (H w) as (a & w' & E & L & Pa). rewrite E. cbn.
  split; [exact L |]. now intros a' [= <-].
Qed.

Lemma ensures_ret {A} (a : A) (P : A -> Prop) : P a -> ensures (mret a) P.
Proof. intros H w. split; [apply later_refl |]. now intros a' [= <-]. Qed.

Lemma ensures_throw {A} (e : Error) (P : A -> Prop) : ensures (throw e) P.
Proof. intros w. split; [apply later_refl | discriminate]. Qed.

Lemma ensures_lift {A} (o : Outcome A) (P : A -> Prop) :
  (forall a, o = Return a -> P a) -> ensures (lift o) P.
Proof. intros H w. split; [apply later_refl | exact H]. Qed.

Lemma ensures_bind {A B} (m : M A) (f : A -> M B) (P : A -> Prop) (Q : B -> Prop) :
  ensures m P -> (forall a, P a -> ensures (f a) Q) -> ensures (m ≫= f) Q.
Proof.
  intros Hm Hf w. rewrite bind_run. destruct (Hm w) as [L1 H1].
  destruct (m w) as [[a | e] w1]; cbn in *.
  - destruct (Hf a (H1 a eq_refl) w1) as [L2 H2].
    split; [eapply later_trans; eassumption | exact H2].
  - split; [exact L1 | discriminate].
Qed.

Lemma ensures_weaken {A} (m : M A) (P Q : A -> Prop) :
  ensures m P -> (forall a, P a -> Q a) -> ensures m Q.
Proof. intros Hm HPQ w. destruct (Hm w) as [L H]. split; auto. Qed.

Lemma ensures_try_catch {A} (m : M A) (h : Error -> M A) (P : A -> Prop) :
  ensures m P -> (forall e, ensures (h e) P) -> ensures (try_catch m h) P.
Proof.
  intros Hm Hh w. unfold try_catch. destruct (Hm w) as [L1 H1].
  destruct (m w) as [[a | e] w1]; cbn in *.
  - split; [exact L1 | exact H1].
  - destruct e;
      [destruct (Hh (JsError message) w1) as [L2 H2]
      |destruct (Hh (TypeError message) w1) as [L2 H2]
      |split; [exact L1 | discriminate]];
      (split; [eapply later_trans; eassumption | exact H2]).
Qed.

Lemma ensures_for_of {A B} (l : list A) (body : B -> A -> M B) (I : B -> Prop) (acc : B) :
  I acc -> (forall b a, I b -> ensures (body b a) I) ->
  ensures (for_of l acc body) I.
Proof.
  intros Hacc Hbody. revert acc Hacc. induction l as [|x l IH]; intros acc Hacc; simpl.
  - now apply ensures_ret.
  - eapply ensures_bind; [now apply Hbody | exact IH].
Qed.

Lemma ensures_run {A} (m : M A) (P : A -> Prop) w a w' :
  ensures m P -> m w = (Return a, w') -> later w w' /\ P a.
Proof. intros H E. destruct (H w) as [L Ha]. rewrite E in *. auto. Qed.

(** ** Relations preserved by a computation *)

Section Preserves.
Context (R : World -> World -> Prop).
Hypothesis R_refl : forall w, R w w.
Hypothesis R_trans : forall w1 w2 w3, R w1 w2 -> R w2 w3 -> R w1 w3.

Lemma preserves_ret {A} (a : A) : preserves R (mret a).
Proof. intros w. apply R_refl. Qed.

Lemma preserves_throw {A} (e : Error) : preserves R (@throw A e).
Proof. intros w. apply R_refl. Qed.

Lemma preserves_bind {A B} (m : M A) (f : A -> M B) :
  preserves R m -> (forall a, preserves R (f a)) -> preserves R (m ≫= f).
Proof.
  intros Hm Hf w. rewrite bind_run. specialize (Hm w).
  destruct (m w) as [[a | e] w1]; cbn in *; [| exact Hm].
  eapply R_trans; [exact Hm | apply Hf].
Qed.

Lemma preserves_try_catch {A} (m : M A) (h : Error -> M A) :
  preserves R m -> (forall e, preserves R (h e)) -> preserves R (try_catch m h).
Proof.
  intros Hm Hh w. unfold try_catch. specialize (Hm w).
  destruct (m w) as [[a | e] w1]; cbn in *; [exact Hm |].
  destruct e; try exact Hm; (eapply R_trans; [exact Hm | apply Hh]).
Qed.

Lemma preserves_of_ensures {A} (m : M A) (P : A -> Prop) :
  (forall w w', later w w' -> R w w') -> ensures m P -> preserves R m.
Proof. intros HR Hm w. apply HR, Hm. Qed.
End Preserves.

(** ** Sorting *)

Lemma sort_insert_Permutation {A} (cmp : A -> A -> num) x l :
  Permutation (sort_insert cmp x l) (x :: l).
Proof.
  induction l as [|y l IH]; simpl; [reflexivity |].
  destruct (positive_num (cmp x y)); [| reflexivity].
  rewrite IH. apply perm_swap.
Qed.

Lemma Array_sort_Permutation {A} (cmp : A -> A -> num) l :
  Permutation (Array_sort cmp l) l.
Proof.
  induction l as [|x l IH]; simpl; [reflexivity |].
  rewrite sort_insert_Permutation. now constructor.
Qed.

Create HintDb returns.

#[export] Hint Resolve returns_later_now returns_later_random returns_later_perf_now
  returns_later_now_iso returns_later_today : returns.

(** Straight-line code whose steps are known to return. *)
Ltac returns :=
  repeat first
    [ apply (returns_later_ret _ (fun _ => True) I)
    | solve [auto with returns]
    | apply returns_later_bind_any; [| intros ?]
    | apply returns_later_fmap with (P := (fun _ => True)); [| trivial] ].

End RuntimeFacts.

(** * Properties of the id generator *)

Module IdGeneratorFacts.
Import Js Runtime IdGenerator RuntimeFacts.

(** ** The generator always returns *)

Lemma generateUniqueId_returns : returns_later generateUniqueId (fun _ => True).
Proof. unfold generateUniqueId. returns. Qed.

Lemma uuid_char_returns c : returns_later (uuid_char c) (fun _ => True).
Proof. unfold uuid_char. destruct (_ || _); returns. Qed.

Lemma generateUUID_returns : returns_later generateUUID (fun _ => True).
Proof.
  unfold generateUUID. apply returns_later_bind_any; [| intros l; returns].
  apply returns_later_for_of. intros acc c.
  apply returns_later_bind_any; [apply uuid_char_returns | intros v; returns].
Qed.

#[export] Hint Resolve generateUniqueId_returns generateUUID_returns : returns.

Lemma generateWorkoutId_loop_returns remaining attempts s :
  returns_later (generateWorkoutId_loop remaining attempts (IdsSet s)) (fun _ => True).
Proof.
  revert attempts. induction remaining as [|n IH]; intros attempts; simpl.
  - apply generateUUID_returns.
  - apply returns_later_bind_any; [returns | intros id].
    apply returns_later_bind_any; [returns | intros taken].
    destruct taken; simpl; [| returns].
    destruct (10 <? S attempts)%nat; [| apply IH].
    apply returns_later_bind_any; [returns | intros timestamp].
    apply returns_later_bind_any; [returns | intros p].
    apply returns_later_bind_any; [returns | intros r].
    apply returns_later_bind_any; [returns | intros taken].
    destruct taken; simpl; [apply IH | returns].
Qed.

Lemma generateWorkoutId_returns s :
  returns_later (generateWorkoutId (IdsSet s)) (fun _ => True).
Proof. apply generateWorkoutId_loop_returns. Qed.

#[export] Hint Resolve generateWorkoutId_returns : returns.

(** ** What the validator accepts *)

(** C7 fails on the code.  With the one id the first eleven attempts make
    already in [existingIds], [generateWorkoutId] leaves through the
    widened-entropy branch, and the identifier it returns,
    [1703891234567_250_a3f7c9d2], has none of the three shapes
    [isValidWorkoutId] accepts. *)
Theorem generateWorkoutId_widened_id_rejected :
  fst (generateWorkoutId (IdsSet taken_ids) (initial_world (frozen_at T0) ∅))
    = Return "1703891234567_250_a3f7c9d2"
  /\ isValidWorkoutId (VStr "1703891234567_250_a3f7c9d2") = false.
Proof. split; vm_compute; reflexivity. Qed.

(** The first branch can miss the shape too: a draw of one half prints as
    [0.8] and leaves a single digit after the underscore. *)
Example generateWorkoutId_short_random_rejected :
  fst (generateWorkoutId (IdsSet ∅) (initial_world (frozen_env T0 [H8] 0) ∅))
    = Return "1703891234567_8"
  /\ isValidWorkoutId (VStr "1703891234567_8") = false.
Proof. split; vm_compute; reflexivity. Qed.

(** The two other exits produce accepted identifiers on this platform. *)
Example generateWorkoutId_first_attempt :
  fst (generateWorkoutId (IdsSet ∅) (initial_world (frozen_at T0) ∅))
    = Return "1703891234567_a3f7c9"
  /\ isValidWorkoutId (VStr "1703891234567_a3f7c9") = true.
Proof. split; vm_compute; reflexivity. Qed.

Example generateWorkoutId_fallback :
  fst (generateWorkoutId
         (IdsSet ({["1703891234567_250_a3f7c9d2"]} ∪ taken_ids))
         (initial_world (frozen_at T0) ∅))
    = Return "aaaaaaaa-aaaa-4aaa-aaaa-aaaaaaaaaaaa"
  /\ isValidWorkoutId (VStr "aaaaaaaa-aaaa-4aaa-aaaa-aaaaaaaaaaaa") = true.
Proof. split; vm_compute; reflexivity. Qed.

End IdGeneratorFacts.

(** * Properties of normalisation and validation *)

Module NormalizerFacts.
Import Js Runtime IdGenerator DataService RuntimeFacts IdGeneratorFacts.

(** ** Dates are never empty *)

Lemma N_to_string_head n : exists c rest, N_to_string n = String c rest.
Proof.
  unfold N_to_string, NilZero.string_of_uint.
  destruct (N.to_uint n); simpl; eauto.
Qed.

Lemma pad_head width z : exists c rest, pad width z = String c rest /\ c <> "T"%char.
Proof.
  unfold pad.
  assert (exists c rest, N_to_string (Z.to_N z) = String c rest /\ c <> "T"%char) as (c & rest & E & Hc).
  { unfold N_to_string, NilZero.string_of_uint.
    destruct (N.to_uint (Z.to_N z)); simpl; eexists _, _; (split; [reflexivity | discriminate]). }
  rewrite E. destruct (width - _)%nat; simpl; eauto.
Qed.

Lemma toISOString_head t : exists c rest, toISOString t = String c rest /\ c <> "T"%char.
Proof.
  unfold toISOString. destruct (civil_from_days _) as [[y m] d].
  destruct (y <=? 9999)%Z.
  - destruct (pad_head 4 y) as (c & rest & -> & Hc). simpl. eauto.
  - simpl. eexists _, _. split; [reflexivity | discriminate].
Qed.

Lemma now_iso_head :
  returns_later now_iso (fun s => exists c rest, s = String c rest /\ c <> "T"%char).
Proof.
  unfold now_iso. apply returns_later_bind_any; [returns | intros t].
  apply returns_later_ret. apply toISOString_head.
Qed.

Lemma now_iso_truthy : returns_later now_iso (fun s => truthy (VStr s) = true).
Proof.
  eapply returns_later_weaken; [apply now_iso_head |].
  intros s (c & rest & -> & _). reflexivity.
Qed.

Lemma today_truthy : returns_later today (fun s => truthy (VStr s) = true).
Proof.
  unfold today. eapply returns_later_bind; [apply now_iso_head |].
  intros s (c & rest & -> & Hc). apply returns_later_ret. cbn.
  apply Ascii.eqb_neq in Hc. rewrite Hc.
  destruct (break _ _). reflexivity.
Qed.

(** ** Coercions *)

Lemma truthy_not_nullish v : truthy v = true -> nullish v = false.
Proof. now destruct v. Qed.


Lemma or_else_not_nullish a b : nullish b = false -> nullish (or_else a b) = false.
Proof.
  unfold or_else. destruct (truthy a) eqn:E; [| trivial].
  intros _. now apply truthy_not_nullish.
Qed.

Lemma or_else_idem a b : or_else (or_else a b) b = or_else a b.
Proof.
  unfold or_else. destruct (truthy a) eqn:E; [now rewrite E |].
  now destruct (truthy b).
Qed.

Lemma weight_check v :
  not_positive_number (number_or v 0) = negb (positive_num (ToNumber v)).
Proof.
  unfold number_or, num_or. destruct (ToNumber v) as [| b | q]; simpl; try reflexivity.
  - now destruct b.
  - destruct (Qeq_bool q 0) eqn:E; simpl.
    + apply Qeq_bool_eq in E.
      assert (Qle_bool q 0 = true) as -> by (apply Qle_bool_iff; rewrite E; apply Qle_refl).
      reflexivity.
    + now rewrite negb_involutive.
Qed.

Lemma count_check v :
  not_positive_number (number_or v 1) = negative_num (ToNumber v).
Proof.
  unfold number_or, num_or. destruct (ToNumber v) as [| b | q]; simpl; try reflexivity.
  destruct (Qeq_bool q 0) eqn:E; simpl.
  - apply Qeq_bool_eq in E.
    assert (Qle_bool 0 q = true) as -> by (apply Qle_bool_iff; rewrite E; apply Qle_refl).
    reflexivity.
  - apply Qeq_bool_neq in E.
    destruct (Qle_bool q 0) eqn:E1, (Qle_bool 0 q) eqn:E2; try reflexivity.
    + apply Qle_bool_iff in E1, E2. destruct E. now apply Qle_antisym.
    + destruct (Qlt_le_dec q 0) as [H%Qlt_le_weak | H]; apply Qle_bool_iff in H; congruence.
Qed.

Lemma unit_check v :
  not_a_unit (or_else v (VStr "lbs"))
  = negb (negb (truthy v) || is_str v "lbs" || is_str v "kg").
Proof.
  unfold or_else. destruct (truthy v) eqn:E; simpl; [reflexivity |].
  reflexivity.
Qed.

(** ** The normalised record *)

Lemma normalized_record_props workout id date createdAt updatedAt :
  let r := normalized_record workout id date createdAt updatedAt in
  prop r "id" = id
  /\ prop r "date" = date
  /\ prop r "exercise" = or_else (prop workout "exercise") (VStr EmptyString)
  /\ prop r "targetWeight" = number_or (prop workout "targetWeight") 0
  /\ prop r "actualWeight" = number_or (prop workout "actualWeight") 0
  /\ prop r "unit" = or_else (prop workout "unit") (VStr "lbs")
  /\ prop r "barbell" = or_else (prop workout "barbell") (VStr "Olympic Barbell (45 lbs)")
  /\ prop r "sets" = number_or (prop workout "sets") 1
  /\ prop r "reps" = number_or (prop workout "reps") 1
  /\ prop r "completed" = VBool (truthy (prop workout "completed"))
  /\ prop r "notes" = or_else (prop workout "notes") (VStr EmptyString)
  /\ prop r "createdAt" = createdAt
  /\ prop r "updatedAt" = VStr updatedAt.
Proof. repeat split. Qed.

Lemma validate_normalized_iff workout id date createdAt updatedAt :
  nullish id = false -> nullish date = false ->
  DataValidators_workout (normalized_record workout id date createdAt updatedAt) = Return true
  <-> validates workout = true.
Proof.
  intros Hid Hdate.
  destruct (normalized_record_props workout id date createdAt updatedAt)
    as (Pid & Pdate & Pex & Ptw & Paw & Punit & _ & Psets & Preps & _).
  unfold DataValidators_workout.
  change (nullish (normalized_record workout id date createdAt updatedAt)) with false.
  cbv iota.
  unfold required_workout_fields. cbn [List.filter].
  rewrite Pid, Pdate, Pex, Ptw, Paw, Punit, Psets, Preps, Hid, Hdate.
  rewrite or_else_not_nullish by reflexivity.
  rewrite or_else_not_nullish by reflexivity.
  cbn [nullish number_or length Nat.ltb Nat.leb].
  rewrite !weight_check, !count_check, unit_check. unfold validates.
  destruct (positive_num (ToNumber (prop workout "targetWeight"))); cbn; [| easy].
  destruct (positive_num (ToNumber (prop workout "actualWeight"))); cbn; [| easy].
  destruct (negb (truthy (prop workout "unit")) || is_str (prop workout "unit") "lbs"
            || is_str (prop workout "unit") "kg"); cbn; [| easy].
  destruct (negative_num (ToNumber (prop workout "sets"))); cbn; [easy |].
  destruct (negative_num (ToNumber (prop workout "reps"))); cbn; easy.
Qed.


Lemma modern_id_string id : modern_id id = true -> exists s, id = VStr s.
Proof.
  unfold modern_id. destruct id; simpl; try discriminate;
    rewrite ?andb_false_r; try discriminate. eauto.
Qed.

Lemma normalizeWorkout_spec workout ids :
  nullish workout = false ->
  (exists s, default_ids ids = IdsSet s) \/ modern_id (prop workout "id") = true ->
  returns_later (normalizeWorkout workout ids)
    (fun r => exists id date createdAt updatedAt,
       r = normalized_record workout id date createdAt updatedAt
       /\ id_choice (prop workout "id") id
       /\ field_choice (prop workout "date") date
       /\ field_choice (prop workout "createdAt") createdAt).
Proof.
  intros Hw Hids. unfold normalizeWorkout. rewrite Hw.
  set (raw := prop workout "id") in *.
  eapply returns_later_bind with (P := id_choice raw).
  { unfold id_choice, modern_id.
    destruct (truthy raw) eqn:Ht; simpl.
    - destruct (isValidWorkoutId raw) eqn:Hv; simpl.
      + destruct (test_numeric raw) eqn:Hn; simpl.
        * destruct Hids as [[s Hs] | Hm];
            [| unfold modern_id in Hm; rewrite Ht, Hv, Hn in Hm; discriminate].
          unfold upgradeLegacyId. rewrite Hv, Hn. simpl.
          replace (default_ids (default_ids ids)) with (IdsSet s)
            by (rewrite Hs; reflexivity).
          eapply returns_later_fmap; [apply generateWorkoutId_returns |].
          intros id _. split; [eauto | cbn; intros; discriminate].
        * apply returns_later_ret. split; [| reflexivity].
          destruct raw; try discriminate. eauto.
      + destruct Hids as [[s Hs] | Hm];
          [| unfold modern_id in Hm; rewrite Ht, Hv in Hm; discriminate].
        rewrite Hs.
        eapply returns_later_fmap; [apply generateWorkoutId_returns |].
        intros id _. split; [eauto | cbn; intros; discriminate].
    - destruct Hids as [[s Hs] | Hm];
        [| unfold modern_id in Hm; rewrite Ht in Hm; discriminate].
      rewrite Hs.
      eapply returns_later_fmap; [apply generateWorkoutId_returns |].
      intros id _. split; [eauto | cbn; intros; discriminate]. }
  intros id Hid.
  eapply returns_later_bind with (P := field_choice (prop workout "date")).
  { destruct (truthy (prop workout "date")) eqn:Hd.
    - apply returns_later_ret. now split.
    - eapply returns_later_fmap; [apply today_truthy |].
      intros s Hs. split; [exact Hs | intros; congruence]. }
  intros date Hdate.
  eapply returns_later_bind with (P := field_choice (prop workout "createdAt")).
  { destruct (truthy (prop workout "createdAt")) eqn:Hd.
    - apply returns_later_ret. now split.
    - eapply returns_later_fmap; [apply now_iso_truthy |].
      intros s Hs. split; [exact Hs | intros; congruence]. }
  intros createdAt Hcreated.
  apply returns_later_bind_any; [returns | intros updatedAt].
  apply returns_later_ret. exists id, date, createdAt, updatedAt. auto.
Qed.



(** ** Idempotence *)

Lemma num_or_idem n d : num_or (num_or n d) d = num_or n d.
Proof.
  unfold num_or. destruct (truthy (VNum n)) eqn:E; [now rewrite E |].
  now destruct (truthy (VNum d)).
Qed.

Lemma number_or_idem v d : number_or (number_or v d) d = number_or v d.
Proof. unfold number_or. cbn [ToNumber]. now rewrite num_or_idem. Qed.

(** Normalising a normalised record rebuilds it. *)
Lemma normalized_record_idem workout id date createdAt u id' date' createdAt' u' :
  normalized_record (normalized_record workout id date createdAt u) id' date' createdAt' u'
  = normalized_record workout id' date' createdAt' u'.
Proof.
  destruct (normalized_record_props workout id date createdAt u)
    as (Pid & Pdate & Pex & Ptw & Paw & Punit & Pbar & Psets & Preps & Pdone & Pnotes & _).
  unfold normalized_record at 1.
  rewrite Pex, Ptw, Paw, Punit, Pbar, Psets, Preps, Pdone, Pnotes.
  rewrite !or_else_idem, !number_or_idem. reflexivity.
Qed.

Lemma normalized_record_restamp workout id date createdAt u u' :
  VObj (<["updatedAt" := VStr u']> (own_props (normalized_record workout id date createdAt u)))
  = normalized_record workout id date createdAt u'.
Proof. reflexivity. Qed.

(** Normalisation is idempotent, up to [updatedAt], whenever the id the
    first pass assigned is one it keeps. *)
Lemma normalizeWorkout_twice workout ids w :
  nullish workout = false ->
  (exists s, default_ids ids = IdsSet s) \/ modern_id (prop workout "id") = true ->
  exists r1 w1,
    normalizeWorkout workout ids w = (Return r1, w1)
    /\ later w w1
    /\ (modern_id (prop r1 "id") = true ->
        forall ids' w2, exists u2 w2',
          normalizeWorkout r1 ids' w2
          = (Return (VObj (<["updatedAt" := VStr u2]> (own_props r1))), w2')
          /\ later w2 w2').
Proof.
  intros Hw Hids.
  destruct (normalizeWorkout_spec workout ids Hw Hids w)
    as (r1 & w1 & E & L & id & date & createdAt & u & -> & Hid & [Hd _] & [Hc _]).
  eexists _, w1. split; [exact E |]. split; [exact L |].
  destruct (normalized_record_props workout id date createdAt u)
    as (Pid & Pdate & _ & _ & _ & _ & _ & _ & _ & _ & _ & Pcreated & _).
  rewrite Pid. intros Hm ids' w2.
  destruct (normalizeWorkout_spec (normalized_record workout id date createdAt u) ids'
              eq_refl (or_intror (eq_ind_r (fun v => modern_id v = true) Hm Pid)) w2)
    as (r2 & w2' & E2 & L2 & id2 & date2 & createdAt2 & u2 & -> & [_ Hid2] & [_ Hd2] & [_ Hc2]).
  rewrite Pid in Hid2. rewrite Pdate in Hd2. rewrite Pcreated in Hc2.
  rewrite (Hid2 Hm), (Hd2 Hd), (Hc2 Hc), normalized_record_idem in E2.
  exists u2, w2'. rewrite normalized_record_restamp. auto.
Qed.

(** C5 fails on the code, through the defect of C7.  Normalising the empty
    record against a set that holds the id of the first eleven attempts
    assigns the widened-entropy id; normalising the result again, one second
    later, finds that id invalid and replaces it. *)
Theorem normalizeWorkout_second_pass_changes_id :
  match normalizeWorkout (VObj ∅) (IdsSet taken_ids) (initial_world (frozen_at T0) ∅) with
  | (Return r1, _) =>
      match normalizeWorkout r1 (IdsSet taken_ids)
              (initial_world (frozen_at (T0 + 1000)) ∅) with
      | (Return r2, _) =>
          prop r1 "id" = VStr "1703891234567_250_a3f7c9d2"
          /\ prop r2 "id" = VStr "1703891235567_a3f7c9"
          /\ prop r2 "id" <> prop r1 "id"
      | (Throw _, _) => False
      end
  | (Throw _, _) => False
  end.
Proof. vm_compute. repeat split. discriminate. Qed.

End NormalizerFacts.

(** * Properties of the localStorage backend *)

Module StorageFacts.
Import Js Runtime IdGenerator DataService LocalStorage RuntimeFacts NormalizerFacts.


(** ** Import of a malformed bundle *)

(** C10.  A bundle that is not an object, or whose version is missing (or
    otherwise falsy), makes [importData] throw at once: the world, and with
    it the stored workouts, preferences and settings, is left as it was. *)
Theorem importData_rejects_before_writing (data : value) (w : World) :
  not_an_object data = true \/ truthy (prop data "version") = false ->
  importData data w
  = (Throw (JsError (if not_an_object data then "Invalid import data format"
                     else "Import data missing version information")), w).
Proof.
  unfold importData, not_an_object. intros [H | H].
  - rewrite H. reflexivity.
  - destruct (negb (truthy data) || negb (typeof data =? "object")%string);
      [reflexivity |].
    rewrite H. reflexivity.
Qed.

Lemma importData_rejects_before_writing_witness :
  truthy (prop (object [("workouts", VArr [])]) "version") = false
  /\ importData (object [("workouts", VArr [])]) (initial_world (frozen_at T0) ∅)
     = (Throw (JsError "Import data missing version information"),
        initial_world (frozen_at T0) ∅).
Proof.
  split; [reflexivity |].
  apply (importData_rejects_before_writing (object [("workouts", VArr [])])).
  right. reflexivity.
Defined.

(** A version that differs from the schema version is accepted. *)
Example importData_other_version :
  fst (importData (object [("version", VStr "0.9.0"); ("workouts", VArr [])])
         (initial_world (frozen_at T0) ∅))
  = Return true.
Proof. vm_compute. reflexivity. Qed.

(** ** Running the backend on an explicit world *)

#[local] Abbreviation W e t ls ou cs ua :=
  {| env := e; ticks := t; localStorage := ls;
     service := {| isAvailable := true; userId := ou |};
     currentService := cs; userServiceAvailable := ua |}.

Lemma no_user_Some u : u <> EmptyString -> no_user (Some u) = false.
Proof. destruct u; [congruence | reflexivity]. Qed.

Ltac norm_world :=
  cbv beta iota delta
      [set_userId set_service set_localStorage tick env ticks localStorage service
       currentService userServiceAvailable isAvailable userId].

Ltac unfold_storage :=
  cbv beta iota zeta delta
      [mbind M_bind mret M_ret fmap M_fmap try_catch
       _getItem _setItem _removeItem _getUserScopedKey this set_userId getItem setItem
       removeItem get_world throw set_service set_localStorage tick
       env ticks localStorage service currentService userServiceAvailable
       isAvailable userId negb orb andb fst snd].

Lemma migrate_key_absent userId key d logs migrated w :
  migrate_key userId key d logs None migrated w = (Return migrated, w).
Proof. reflexivity. Qed.

Lemma migrate_key_present u key d logs migrated v e t ls cs ua :
  u <> EmptyString ->
  ls !! key = Some v ->
  (logs = true -> nullish (parse_or (Some v) d) = false) ->
  migrate_key (Some u) key d logs (Some v) migrated (W e t ls None cs ua)
  = (Return true,
     W e t (delete key (<[scoped key u := JSON_roundtrip (parse_or (Some v) d)]> ls))
       None cs ua).
Proof.
  intros Hu Hls Hlog. apply no_user_Some in Hu.
  unfold migrate_key, read_length. unfold_storage. rewrite Hu. unfold_storage.
  rewrite Hls. destruct logs; [rewrite Hlog by reflexivity |]; reflexivity.
Qed.

(** ** Keys *)

Lemma scoped_not_legacy k k' u :
  k ∈ legacy_keys -> k' ∈ legacy_keys -> scoped k u <> k'.
Proof.
  unfold legacy_keys, scoped. rewrite !elem_of_cons, !elem_of_nil.
  intros [-> | [-> | [-> | []]]] [-> | [-> | [-> | []]]]; cbn; discriminate.
Qed.

Lemma scoped_inj k k' u :
  k ∈ legacy_keys -> k' ∈ legacy_keys -> scoped k u = scoped k' u -> k = k'.
Proof.
  unfold legacy_keys, scoped. rewrite !elem_of_cons, !elem_of_nil.
  intros [-> | [-> | [-> | []]]] [-> | [-> | [-> | []]]]; cbn;
    first [reflexivity | discriminate].
Qed.

Lemma parse_stored v d : stored_json v -> JSON_roundtrip (parse_or (Some v) d) = v.
Proof. intros [Hv Hr]. destruct v; try congruence; exact Hr. Qed.

Lemma move_key_other u k ls key :
  key <> k -> key <> scoped k u -> move_key u k ls !! key = ls !! key.
Proof.
  intros H1 H2. unfold move_key. destruct (ls !! k); [| reflexivity].
  rewrite lookup_delete_ne, lookup_insert_ne by congruence. reflexivity.
Qed.

Lemma move_key_legacy u k ls : move_key u k ls !! k = None.
Proof.
  unfold move_key. destruct (ls !! k) eqn:E; [apply lookup_delete_eq | exact E].
Qed.

Lemma move_key_scoped u k ls :
  k ∈ legacy_keys -> ls !! scoped k u = None ->
  move_key u k ls !! scoped k u = ls !! k.
Proof.
  intros Hk Hfree. unfold move_key. destruct (ls !! k) eqn:E; [| exact Hfree].
  rewrite lookup_delete_ne by (intros H; symmetry in H; revert H; now apply scoped_not_legacy).
  apply lookup_insert_eq.
Qed.

(** The store after the migration to user [u]. *)
Lemma migrateLegacyDataToUser_run u e t ls ou cs ua :
  u <> EmptyString ->
  (forall k v, k ∈ legacy_keys -> ls !! k = Some v -> stored_json v) ->
  ls !! WORKOUT_HISTORY <> Some VNull ->
  migrateLegacyDataToUser (Some u) (W e t ls ou cs ua)
  = (Return (has_legacy ls),
     W e t (migrated u ls) ou cs ua).
Proof.
  intros Hu Hjson Hnull. unfold migrated.
  assert (WORKOUT_HISTORY ∈ legacy_keys) as K1 by (unfold legacy_keys; rewrite !elem_of_cons; tauto).
  assert (USER_PREFERENCES ∈ legacy_keys) as K2 by (unfold legacy_keys; rewrite !elem_of_cons; tauto).
  assert (APP_SETTINGS ∈ legacy_keys) as K3 by (unfold legacy_keys; rewrite !elem_of_cons; tauto).
  unfold migrateLegacyDataToUser.
  rewrite bind_run. cbn [this service isAvailable negb orb].
  rewrite (no_user_Some u Hu). cbv iota. cbn [Runtime.userId service].
  unfold try_catch.
  rewrite bind_run. cbn [getItem localStorage].
  rewrite bind_run. cbn [getItem localStorage].
  rewrite bind_run. cbn [getItem localStorage].
  rewrite bind_run. cbn [set_userId set_service service isAvailable env ticks localStorage
                         currentService userServiceAvailable].
  set (ls1 := move_key u WORKOUT_HISTORY ls).
  set (ls2 := move_key u USER_PREFERENCES ls1).
  set (ls3 := move_key u APP_SETTINGS ls2).
  (* workouts *)
  rewrite bind_run. norm_world.
  assert (migrate_key (Some u) WORKOUT_HISTORY (VArr []) true (ls !! WORKOUT_HISTORY) false
            (W e t ls None cs ua)
          = (Return (bool_decide (is_Some (ls !! WORKOUT_HISTORY))), W e t ls1 None cs ua)) as ->.
  { subst ls1. unfold move_key. destruct (ls !! WORKOUT_HISTORY) as [v|] eqn:E; [| reflexivity].
    pose proof (Hjson _ _ K1 E) as Hv.
    rewrite (migrate_key_present u WORKOUT_HISTORY (VArr []) true false v) by
      (try assumption; intros _; destruct v; first [reflexivity | congruence]).
    now rewrite (parse_stored _ _ Hv). }
  cbv iota beta. norm_world.
  (* preferences *)
  assert (ls1 !! USER_PREFERENCES = ls !! USER_PREFERENCES) as E1.
  { apply move_key_other; [discriminate |]. now apply not_eq_sym, scoped_not_legacy. }
  rewrite bind_run.
  assert (migrate_key (Some u) USER_PREFERENCES (VObj ∅) false (ls !! USER_PREFERENCES)
            (bool_decide (is_Some (ls !! WORKOUT_HISTORY))) (W e t ls1 None cs ua)
          = (Return (bool_decide (is_Some (ls !! WORKOUT_HISTORY))
                     || bool_decide (is_Some (ls !! USER_PREFERENCES))),
             W e t ls2 None cs ua)) as ->.
  { subst ls2. unfold move_key. rewrite E1.
    destruct (ls !! USER_PREFERENCES) as [v|] eqn:E;
      [| now rewrite migrate_key_absent, orb_false_r].
    pose proof (Hjson _ _ K2 E) as Hv.
    rewrite (migrate_key_present u USER_PREFERENCES (VObj ∅) false _ v) by
      (try assumption; discriminate).
    rewrite (parse_stored _ _ Hv). now rewrite orb_true_r. }
  cbv iota beta. norm_world.
  (* settings *)
  assert (ls2 !! APP_SETTINGS = ls !! APP_SETTINGS) as E2.
  { subst ls2. rewrite move_key_other;
      [| discriminate | now apply not_eq_sym, scoped_not_legacy].
    apply move_key_other; [discriminate |]. now apply not_eq_sym, scoped_not_legacy. }
  rewrite bind_run.
  assert (migrate_key (Some u) APP_SETTINGS (VObj ∅) false (ls !! APP_SETTINGS)
            (bool_decide (is_Some (ls !! WORKOUT_HISTORY))
             || bool_decide (is_Some (ls !! USER_PREFERENCES))) (W e t ls2 None cs ua)
          = (Return (has_legacy ls), W e t ls3 None cs ua)) as ->.
  { subst ls3. unfold move_key, has_legacy, legacy_keys. cbn [existsb]. rewrite E2.
    destruct (ls !! APP_SETTINGS) as [v|] eqn:E;
      [| now rewrite migrate_key_absent, !orb_false_r].
    pose proof (Hjson _ _ K3 E) as Hv.
    rewrite (migrate_key_present u APP_SETTINGS (VObj ∅) false _ v) by
      (try assumption; discriminate).
    rewrite (parse_stored _ _ Hv).
    now rewrite (bool_decide_eq_true_2 (is_Some (Some v))), !orb_true_r by eauto. }
  cbv iota beta. rewrite bind_run. norm_world. reflexivity.
Qed.

Lemma migrated_other u ls key :
  key ∉ legacy_keys -> (forall k, k ∈ legacy_keys -> key <> scoped k u) ->
  migrated u ls !! key = ls !! key.
Proof.
  unfold legacy_keys. rewrite !not_elem_of_cons. intros (H1 & H2 & H3 & _) Hs.
  unfold migrated.
  rewrite !move_key_other; auto; apply Hs; unfold legacy_keys; rewrite !elem_of_cons; tauto.
Qed.

Lemma migrated_legacy u ls k : k ∈ legacy_keys -> migrated u ls !! k = None.
Proof.
  assert (forall k', k' ∈ legacy_keys -> k <> k' -> k ∈ legacy_keys ->
          forall m, move_key u k' m !! k = m !! k) as Hother.
  { intros k' Hk' Hne Hk m. apply move_key_other; [exact Hne |].
    now apply not_eq_sym, scoped_not_legacy. }
  unfold legacy_keys at 1. rewrite !elem_of_cons, elem_of_nil. unfold migrated.
  intros [-> | [-> | [-> | []]]].
  - rewrite !Hother by (unfold legacy_keys; rewrite ?elem_of_cons; first [tauto | discriminate]).
    apply move_key_legacy.
  - rewrite Hother by (unfold legacy_keys; rewrite ?elem_of_cons; first [tauto | discriminate]).
    apply move_key_legacy.
  - apply move_key_legacy.
Qed.

Lemma migrated_scoped u ls k :
  k ∈ legacy_keys -> (forall k', k' ∈ legacy_keys -> ls !! scoped k' u = None) ->
  migrated u ls !! scoped k u = ls !! k.
Proof.
  intros Hk Hfree.
  assert (forall k' m, k' ∈ legacy_keys -> k <> k' ->
          move_key u k' m !! scoped k u = m !! scoped k u) as Hskip.
  { intros k' m Hk' Hne. apply move_key_other; [now apply scoped_not_legacy |].
    intros H. apply Hne. eapply scoped_inj; eassumption. }
  assert (forall k' m, k' ∈ legacy_keys -> k <> k' -> move_key u k' m !! k = m !! k) as Hkeep.
  { intros k' m Hk' Hne. apply move_key_other; [exact Hne |].
    now apply not_eq_sym, scoped_not_legacy. }
  revert Hk. unfold legacy_keys at 1. rewrite !elem_of_cons, elem_of_nil. unfold migrated.
  assert (WORKOUT_HISTORY ∈ legacy_keys) as K1 by (unfold legacy_keys; rewrite !elem_of_cons; tauto).
  assert (USER_PREFERENCES ∈ legacy_keys) as K2 by (unfold legacy_keys; rewrite !elem_of_cons; tauto).
  assert (APP_SETTINGS ∈ legacy_keys) as K3 by (unfold legacy_keys; rewrite !elem_of_cons; tauto).
  assert (forall k' m, k' ∈ legacy_keys -> k <> k' -> m !! scoped k u = None ->
          move_key u k' m !! scoped k u = None) as Hnone.
  { intros k' m Hk' Hne Hm. now rewrite Hskip. }
  intros [-> | [-> | [-> | []]]].
  - rewrite !Hskip by (assumption || discriminate).
    apply move_key_scoped; auto.
  - rewrite Hskip by (assumption || discriminate).
    rewrite move_key_scoped by (first [assumption | apply Hnone; auto; discriminate]).
    apply Hkeep; [assumption | discriminate].
  - rewrite move_key_scoped
      by (first [assumption | repeat (apply Hnone; [assumption | discriminate |]); auto]).
    rewrite !Hkeep by (assumption || discriminate). reflexivity.
Qed.

Lemma migrateLegacyData_of_service u w r w' :
  u <> EmptyString -> currentService w = true ->
  migrateLegacyDataToUser (Some u) w = (Return r, w') ->
  DataServiceFactory.migrateLegacyData (Some u) w = (Return r, w').
Proof.
  intros Hu Hc E. unfold DataServiceFactory.migrateLegacyData.
  rewrite bind_run. cbn [get_world]. rewrite Hc, (no_user_Some u Hu).
  cbn [negb orb]. unfold try_catch. now rewrite E.
Qed.

Lemma migrated_nothing u m :
  (forall k, k ∈ legacy_keys -> m !! k = None) ->
  has_legacy m = false /\ migrated u m = m.
Proof.
  intros Hgone.
  assert (WORKOUT_HISTORY ∈ legacy_keys) as K1 by (unfold legacy_keys; rewrite !elem_of_cons; tauto).
  assert (USER_PREFERENCES ∈ legacy_keys) as K2 by (unfold legacy_keys; rewrite !elem_of_cons; tauto).
  assert (APP_SETTINGS ∈ legacy_keys) as K3 by (unfold legacy_keys; rewrite !elem_of_cons; tauto).
  unfold has_legacy, migrated, legacy_keys. cbn [existsb]. unfold move_key.
  rewrite (Hgone _ K1), (Hgone _ K2), (Hgone _ K3). split; reflexivity.
Qed.

(** C8.  On a store that holds nothing but legacy items (JSON values, the
    workout history not [null]), [migrateLegacyData(u)] for a user id [u]
    returns whether there was anything to move, leaves none of the three
    unscoped keys, leaves every legacy item under its key scoped to [u] and
    nothing else in the store; a second call returns [false] and changes
    nothing. *)
Theorem migrateLegacyData_moves_legacy_data (u : string) (w : World) :
  currentService w = true -> isAvailable (service w) = true -> u <> EmptyString ->
  map_Forall (fun key _ => key ∈ legacy_keys) (localStorage w) ->
  map_Forall (fun _ v => stored_json v) (localStorage w) ->
  localStorage w !! WORKOUT_HISTORY <> Some VNull ->
  exists w1,
    DataServiceFactory.migrateLegacyData (Some u) w
      = (Return (has_legacy (localStorage w)), w1)
    /\ (forall key, key ∈ legacy_keys ->
          localStorage w1 !! key = None
          /\ localStorage w1 !! scoped key u = localStorage w !! key)
    /\ (forall key, is_Some (localStorage w1 !! key) ->
          exists k, k ∈ legacy_keys /\ key = scoped k u)
    /\ DataServiceFactory.migrateLegacyData (Some u) w1 = (Return false, w1).
Proof.
  destruct w as [e t ls [av ou] cs ua]. cbn [currentService service isAvailable localStorage].
  intros -> -> Hu Honly Hjson Hnull.
  assert (forall k, k ∈ legacy_keys -> ls !! scoped k u = None) as Hfree.
  { intros k Hk. destruct (ls !! scoped k u) eqn:E; [| reflexivity].
    exfalso. eapply (scoped_not_legacy k _ u Hk); [| reflexivity].
    eapply Honly. exact E. }
  assert (forall k v, k ∈ legacy_keys -> ls !! k = Some v -> stored_json v) as Hjson'
    by (intros k v _ E; exact (Hjson k v E)).
  exists (W e t (migrated u ls) ou true ua). cbn [localStorage].
  split; [| split; [| split]].
  - apply migrateLegacyData_of_service; [exact Hu | reflexivity |].
    now apply migrateLegacyDataToUser_run.
  - intros key Hk. split; [now apply migrated_legacy | now apply migrated_scoped].
  - intros key Hsome.
    destruct (decide (key ∈ legacy_keys)) as [Hk | Hk].
    { rewrite migrated_legacy in Hsome by assumption. now destruct Hsome. }
    destruct (decide (Exists (fun k => key = scoped k u) legacy_keys)) as [Hex | Hex].
    { apply Exists_exists in Hex as (k & Hin & ->). exists k. split; [| reflexivity].
      first [assumption | now apply list_elem_of_In]. }
    exfalso. apply Hk.
    rewrite (migrated_other u ls key) in Hsome; [destruct Hsome as [v E]; exact (Honly _ _ E) | exact Hk |].
    intros k Hin ->. apply Hex, Exists_exists. exists k. split; [| reflexivity].
    first [assumption | now apply list_elem_of_In].
  - apply migrateLegacyData_of_service; [exact Hu | reflexivity |].
    assert (forall k, k ∈ legacy_keys -> migrated u ls !! k = None) as Hgone
      by (intros k Hk; now apply migrated_legacy).
    assert (WORKOUT_HISTORY ∈ legacy_keys) as K1 by (unfold legacy_keys; rewrite !elem_of_cons; tauto).
    assert (USER_PREFERENCES ∈ legacy_keys) as K2 by (unfold legacy_keys; rewrite !elem_of_cons; tauto).
    assert (APP_SETTINGS ∈ legacy_keys) as K3 by (unfold legacy_keys; rewrite !elem_of_cons; tauto).
    destruct (migrated_nothing u (migrated u ls) Hgone) as [Hno Hsame].
    rewrite migrateLegacyDataToUser_run.
    + now rewrite Hno, Hsame.
    + exact Hu.
    + intros k v Hk E. rewrite Hgone in E by assumption. discriminate.
    + rewrite Hgone by assumption. discriminate.
Qed.

Lemma migrateLegacyData_moves_legacy_data_witness :
  exists w1,
    DataServiceFactory.migrateLegacyData (Some "user_1")
      (initial_world (frozen_at T0) legacy_store) = (Return true, w1)
    /\ localStorage w1 !! WORKOUT_HISTORY = None
    /\ localStorage w1 !! scoped WORKOUT_HISTORY "user_1"
       = legacy_store !! WORKOUT_HISTORY
    /\ DataServiceFactory.migrateLegacyData (Some "user_1") w1 = (Return false, w1).
Proof.
  destruct (migrateLegacyData_moves_legacy_data "user_1"
              (initial_world (frozen_at T0) legacy_store)) as (w1 & E & Hkeys & _ & Hagain).
  - reflexivity.
  - reflexivity.
  - discriminate.
  - unfold legacy_store.
    repeat (apply map_Forall_insert_2;
            [unfold legacy_keys; rewrite !elem_of_cons; tauto |]).
    apply map_Forall_empty.
  - unfold legacy_store.
    repeat (apply map_Forall_insert_2; [split; [discriminate | reflexivity] |]).
    apply map_Forall_empty.
  - discriminate.
  - exists w1. destruct (Hkeys WORKOUT_HISTORY) as [Hnone Hmoved].
    + unfold legacy_keys. rewrite !elem_of_cons. tauto.
    + auto.
Defined.

End StorageFacts.

(** * Export followed by import *)

Module RoundTripFacts.
Import Js Runtime IdGenerator DataService LocalStorage RuntimeFacts NormalizerFacts.
Import StorageFacts.

(** ** Reading and writing items *)

Lemma user_key_later w w' key : later w w' -> user_key w' key = user_key w key.
Proof. intros (_ & _ & Hs & _). unfold user_key. now rewrite Hs. Qed.

Lemma available_later w w' :
  later w w' -> isAvailable (service w') = isAvailable (service w).
Proof. intros (_ & _ & Hs & _). now rewrite Hs. Qed.

Lemma _getItem_run key d w :
  isAvailable (service w) = true ->
  _getItem key d w = (Return (parse_or (localStorage w !! user_key w key) d), w).
Proof.
  intros Ha. unfold _getItem, user_key, _getUserScopedKey, scoped.
  rewrite bind_run. cbn [this]. rewrite Ha. cbn [negb].
  rewrite !bind_run. cbn [this].
  destruct (userId (service w)) as [u |]; [destruct (no_user (Some u)) |]; reflexivity.
Qed.

Lemma _setItem_run key v w :
  isAvailable (service w) = true ->
  _setItem key v w
  = (Return true,
     set_localStorage (<[user_key w key := JSON_roundtrip v]> (localStorage w)) w).
Proof.
  intros Ha. unfold _setItem, user_key, _getUserScopedKey, scoped.
  rewrite bind_run. cbn [this]. rewrite Ha. cbn [negb].
  rewrite !bind_run. cbn [this].
  destruct (userId (service w)) as [u |]; [destruct (no_user (Some u)) |]; reflexivity.
Qed.

Lemma _getItem_ensures key d : ensures (_getItem key d) (fun _ => True).
Proof.
  intros w. unfold _getItem, _getUserScopedKey.
  rewrite bind_run. cbn [this].
  destruct (negb (isAvailable (service w))); [split; [apply later_refl | auto] |].
  rewrite !bind_run. cbn [this].
  destruct (userId (service w)) as [u |]; [destruct (no_user (Some u)) |];
    (split; [apply later_refl | auto]).
Qed.

(** ** Validation *)

Lemma validate_workout_throws v b :
  DataValidators_workout v = Return b -> b = true.
Proof.
  unfold DataValidators_workout.
  repeat match goal with |- context [if ?c then _ else _] => destruct c end;
    congruence.
Qed.

Lemma validate_workout_fuel v : DataValidators_workout v <> Throw OutOfFuel.
Proof.
  unfold DataValidators_workout, cannot_read.
  repeat match goal with |- context [if ?c then _ else _] => destruct c end;
    congruence.
Qed.

(** ** Records that keep their id *)

Lemma normalize_kept x ids :
  nullish x = false -> modern_id (prop x "id") = true ->
  returns_later (normalizeWorkout x ids) (reads_as x).
Proof.
  intros Hx Hid w.
  destruct (normalizeWorkout_spec x ids Hx (or_intror Hid) w)
    as (r & w' & E & L & id & date & c & u & -> & [_ Hi] & [Hd _] & [Hc _]).
  exists (normalized_record x id date c u), w'. split; [exact E |]. split; [exact L |].
  exists date, c, u. rewrite (Hi Hid). auto.
Qed.

Lemma reads_as_id x r : reads_as x r -> prop r "id" = prop x "id".
Proof. intros (d & c & u & -> & _). reflexivity. Qed.

Lemma reads_as_object x r : reads_as x r -> nullish r = false.
Proof. intros (d & c & u & -> & _). reflexivity. Qed.


Lemma reads_as_valid x r :
  modern_id (prop x "id") = true -> reads_as x r ->
  DataValidators_workout r = Return true <-> validates x = true.
Proof.
  intros Hid (d & c & u & -> & Hd & _).
  apply validate_normalized_iff; [| now apply truthy_not_nullish].
  destruct (modern_id_string _ Hid) as [s ->]. reflexivity.
Qed.


(** ** Reading the history *)

Lemma string_ids_run l w :
  Forall (fun x => nullish x = false) l ->
  exists ids,
    string_ids l w = (Return ids, w)
    /\ forall x s, x ∈ l -> prop x "id" = VStr s -> truthy (VStr s) = true -> s ∈ ids.
Proof.
  induction 1 as [|x l Hx _ (ids & E & Hids)]; cbn [string_ids].
  - exists ∅. split; [reflexivity |]. intros x s Hin. now apply elem_of_nil in Hin.
  - rewrite Hx, bind_run, E.
    assert (exists ids', (match prop x "id" with
                          | VStr s => if truthy (VStr s) then mret ({[s]} ∪ ids) else mret ids
                          | _ => mret ids
                          end : M (gset string)) w = (Return ids', w)
                         /\ ids ⊆ ids'
                         /\ forall s, prop x "id" = VStr s -> truthy (VStr s) = true -> s ∈ ids')
      as (ids' & E' & Hsub & Hx').
    { destruct (prop x "id") as [| | | | s | |];
        try (exists ids; split; [reflexivity |]; split; [set_solver | discriminate]).
      destruct (truthy (VStr s)) eqn:Ht.
      - exists ({[s]} ∪ ids). split; [reflexivity |]. split; [set_solver |].
        intros s' [= <-] _. set_solver.
      - exists ids. split; [reflexivity |]. split; [set_solver |].
        intros s' [= <-]. congruence. }
    exists ids'. split; [exact E' |].
    intros y s Hy Hs Ht. apply elem_of_cons in Hy as [-> | Hy]; [now apply Hx' |].
    apply Hsub. eapply Hids; eassumption.
Qed.

Lemma history_step_kept x ids acc w :
  kept_record x ->
  exists ids' out w',
    history_step (ids, acc) x w = (Return (ids', acc ++ out), w')
    /\ later w w'
    /\ Forall2 reads_as (List.filter validates [x]) out.
Proof.
  intros (Hx & Hid & _).
  destruct (normalize_kept x (IdsSet ids) Hx Hid w) as (r & w' & E & L & Hr).
  pose proof (reads_as_valid x r Hid Hr) as Hv.
  unfold history_step, try_catch. rewrite bind_run, E, bind_run. unfold lift.
  cbn [List.filter].
  destruct (DataValidators_workout r) as [b | e] eqn:Ev.
  - apply validate_workout_throws in Ev as Hb. subst b.
    rewrite (proj1 Hv eq_refl). cbn [mret M_ret].
    eexists _, [r], w'. split; [reflexivity |]. split; [exact L |].
    constructor; [exact Hr | constructor].
  - assert (validates x = false) as ->.
    { destruct (validates x); [| reflexivity]. discriminate (proj2 Hv eq_refl). }
    exists ids, [], w'. rewrite app_nil_r.
    split; [| split; [exact L | constructor]].
    destruct e; try reflexivity. now apply validate_workout_fuel in Ev.
Qed.

Lemma history_loop items :
  Forall kept_record items ->
  forall ids acc w,
  exists ids' out w',
    for_of items (ids, acc) history_step w = (Return (ids', acc ++ out), w')
    /\ later w w'
    /\ Forall2 reads_as (List.filter validates items) out.
Proof.
  induction 1 as [|x items Hx _ IH]; intros ids acc w; cbn [for_of].
  - exists ids, [], w. rewrite app_nil_r. split; [reflexivity |].
    split; [apply later_refl | constructor].
  - destruct (history_step_kept x ids acc w Hx) as (ids1 & out1 & w1 & E1 & L1 & H1).
    destruct (IH ids1 (acc ++ out1) w1) as (ids2 & out2 & w2 & E2 & L2 & H2).
    rewrite bind_run, E1, E2. exists ids2, (out1 ++ out2), w2.
    rewrite app_assoc. split; [reflexivity |].
    split; [eapply later_trans; eassumption |].
    change (x :: items) with ([x] ++ items). rewrite List.filter_app.
    now apply Forall2_app.
Qed.

Lemma kept_record_object x : kept_record x -> nullish x = false.
Proof. now intros (? & _). Qed.

(** The history read from a store of records that keep their ids. *)
Lemma getWorkoutHistory_run w :
  isAvailable (service w) = true ->
  (forall v, localStorage w !! user_key w WORKOUT_HISTORY = Some v ->
     exists items, v = VArr items /\ Forall kept_record items) ->
  exists out w',
    getWorkoutHistory w = (Return out, w')
    /\ later w w'
    /\ Forall kept_record (stored_history w)
    /\ Forall2 reads_as (List.filter validates (stored_history w)) out.
Proof.
  intros Ha Hh. unfold getWorkoutHistory, stored_history.
  rewrite bind_run, (_getItem_run _ _ w Ha).
  assert (exists items,
            parse_or (localStorage w !! user_key w WORKOUT_HISTORY) (VArr []) = VArr items
            /\ match localStorage w !! user_key w WORKOUT_HISTORY with
               | Some (VArr items) => items
               | _ => []
               end = items
            /\ Forall kept_record items) as (items & -> & -> & Hk).
  { destruct (localStorage w !! user_key w WORKOUT_HISTORY) as [v |] eqn:E.
    - destruct (Hh v eq_refl) as (items & -> & Hk). now exists items.
    - exists []. repeat split. constructor. }
  rewrite bind_run. cbn [as_array mret M_ret]. rewrite bind_run.
  destruct (string_ids_run items w) as (ids & -> & _).
  { eapply Forall_impl; [exact Hk | apply kept_record_object]. }
  destruct (history_loop items Hk ids [] w) as (ids' & out & w' & E & L & Hout).
  rewrite bind_run, E. cbn [app snd mret M_ret].
  exists out, w'. auto.
Qed.

(** ** Values that JSON leaves alone *)

Lemma json_prop m k : prop (JSON_roundtrip (VObj m)) k = JSON_roundtrip (prop (VObj m) k).
Proof.
  unfold prop. cbn [JSON_roundtrip]. rewrite lookup_omap.
  destruct (m !! k) as [v |]; [| reflexivity]. now destruct v.
Qed.

Lemma stored_json_object m :
  stored_json (VObj m) <-> map_Forall (fun _ x => stored_json x) m.
Proof.
  unfold stored_json. cbn [JSON_roundtrip]. split.
  - intros [_ E] k x Hk. injection E as E.
    apply (f_equal (fun m' => m' !! k)) in E. rewrite lookup_omap, Hk in E.
    cbn in E. destruct x; try discriminate E; split; congruence.
  - intros H. split; [discriminate |]. f_equal. apply map_eq. intros k.
    rewrite lookup_omap. destruct (m !! k) as [x |] eqn:Hk; [| reflexivity].
    destruct (H k x Hk) as [Hx Hr]. cbn. destruct x; congruence.
Qed.

Lemma stored_json_items items x :
  stored_json (VArr items) -> x ∈ items -> stored_json x.
Proof.
  unfold stored_json at 1. cbn [JSON_roundtrip]. intros [_ E] Hx. injection E as E.
  induction items as [|y items IH]; [now apply elem_of_nil in Hx |].
  cbn [map] in E. injection E as Ey E.
  apply elem_of_cons in Hx as [-> | Hx]; [| now apply IH].
  destruct y; unfold JSON_element in Ey; try discriminate Ey;
    (split; [discriminate | exact Ey]).
Qed.

Lemma stored_json_props v :
  stored_json v -> map_Forall (fun _ x => stored_json x) (own_props v).
Proof.
  intros Hv. destruct v as [| | | | s | items | m]; cbn [own_props];
    try apply map_Forall_empty.
  - intros k x Hk. apply elem_of_list_to_map_2, elem_of_lookup_imap in Hk
      as (i & c & [= _ ->] & _). split; [discriminate | reflexivity].
  - intros k x Hk. apply elem_of_list_to_map_2, elem_of_lookup_imap in Hk
      as (i & y & [= _ ->] & Hy). eapply stored_json_items; [exact Hv |].
    eapply list_elem_of_lookup_2, Hy.
  - now apply stored_json_object.
Qed.

Lemma stored_json_union (a b : gmap string value) :
  map_Forall (fun _ x => stored_json x) a ->
  map_Forall (fun _ x => stored_json x) b ->
  map_Forall (fun _ x => stored_json x) (a ∪ b).
Proof.
  intros Ha Hb k x Hk. apply lookup_union_Some_raw in Hk as [Hk | [_ Hk]];
    [eapply Ha | eapply Hb]; eassumption.
Qed.


Lemma prop_stored m k :
  stored_json (VObj m) -> truthy (prop (VObj m) k) = true -> stored_json (prop (VObj m) k).
Proof.
  intros Hm%stored_json_object. unfold prop.
  destruct (m !! k) as [v |] eqn:Hk; [| discriminate]. intros _. eapply Hm, Hk.
Qed.

Lemma union_absorb (a b : gmap string value) : (a ∪ b) ∪ b = a ∪ b.
Proof. rewrite <- (assoc_L (∪)). f_equal. apply (idemp_L (∪)). Qed.

(** ** Preferences *)

Lemma validate_preferences_fuel v : DataValidators_preferences v <> Throw OutOfFuel.
Proof.
  unfold DataValidators_preferences, cannot_read.
  repeat match goal with |- context [if ?c then _ else _] => destruct c end;
    congruence.
Qed.

Lemma getPreferences_run w :
  isAvailable (service w) = true ->
  getPreferences w
  = (Return (read_preferences (localStorage w !! user_key w USER_PREFERENCES)), w).
Proof.
  intros Ha. unfold getPreferences, read_preferences.
  rewrite bind_run, (_getItem_run _ _ w Ha). cbv zeta.
  unfold try_catch. rewrite bind_run. unfold lift.
  pose proof (validate_preferences_fuel
                (parse_or (localStorage w !! user_key w USER_PREFERENCES) DEFAULT_PREFERENCES)).
  destruct (DataValidators_preferences _) as [b | e]; [reflexivity |].
  destruct e; try reflexivity. congruence.
Qed.

Lemma DEFAULT_PREFERENCES_stored : stored_json DEFAULT_PREFERENCES.
Proof. split; [discriminate |]. vm_compute. reflexivity. Qed.



(** ** Settings *)


Lemma prop_current_firstUse current :
  (if nullish current then VUndef else prop current "firstUse") = prop current "firstUse".
Proof. now destruct current. Qed.

(** [saveSettings] on an object: what is merged, and where it goes. *)
Lemma saveSettings_run settings w :
  isAvailable (service w) = true ->
  nullish settings = false ->
  let current := parse_or (localStorage w !! user_key w APP_SETTINGS) VNull in
  exists firstUse w',
    let merged :=
      VObj (<["firstUse" := firstUse]>
              (own_props settings ∪ (own_props current ∪ own_props DEFAULT_SETTINGS))) in
    saveSettings settings w
    = (Return merged,
       set_localStorage
         (<[user_key w APP_SETTINGS := JSON_roundtrip merged]> (localStorage w)) w')
    /\ later w w'
    /\ (truthy (prop current "firstUse") = true -> firstUse = prop current "firstUse")
    /\ (truthy (prop current "firstUse") = false ->
        truthy (prop settings "firstUse") = true -> firstUse = prop settings "firstUse")
    /\ truthy firstUse = true
    /\ (firstUse = prop current "firstUse" \/ firstUse = prop settings "firstUse"
        \/ exists t, firstUse = VStr t).
Proof.
  intros Ha Hs current. unfold saveSettings.
  rewrite bind_run, (_getItem_run _ _ w Ha). fold current. cbv zeta.
  rewrite prop_current_firstUse, Hs, bind_run.
  destruct (truthy (prop current "firstUse")) eqn:Hc.
  - cbn [mret M_ret]. rewrite bind_run, (_setItem_run _ _ w Ha). cbn [mret M_ret].
    exists (prop current "firstUse"), w. unfold spread.
    split; [reflexivity |]. split; [apply later_refl |].
    split; [reflexivity |]. split; [discriminate |]. split; [exact Hc | now left].
  - destruct (truthy (prop settings "firstUse")) eqn:Hf.
    + cbn [mret M_ret]. rewrite bind_run, (_setItem_run _ _ w Ha). cbn [mret M_ret].
      exists (prop settings "firstUse"), w. unfold spread.
      split; [reflexivity |]. split; [apply later_refl |].
      split; [discriminate |]. split; [reflexivity |]. split; [exact Hf | now right; left].
    + destruct (now_iso_truthy w) as (t & w' & E & L & Ht).
      unfold fmap, M_fmap. rewrite E.
      rewrite bind_run, (_setItem_run _ _ w'), (user_key_later _ _ _ L)
        by now rewrite (available_later _ _ L).
      cbn [mret M_ret]. exists (VStr t), w'. unfold spread.
      pose proof L as (_ & Hls & _). rewrite Hls.
      split; [reflexivity |]. split; [exact L |].
      split; [discriminate |]. split; [discriminate |]. split; [exact Ht | eauto].
Qed.

Lemma getSettings_present v w :
  isAvailable (service w) = true ->
  localStorage w !! user_key w APP_SETTINGS = Some v ->
  truthy v = true ->
  getSettings w = (Return (VObj (own_props v ∪ own_props DEFAULT_SETTINGS)), w).
Proof.
  intros Ha Hv Ht. unfold getSettings.
  rewrite bind_run, (_getItem_run _ _ w Ha), Hv.
  assert (parse_or (Some v) VNull = v) as -> by (now destruct v).
  rewrite Ht. reflexivity.
Qed.


(** ** Export *)



(** ** A record written to storage and read again *)

Lemma weight_json v :
  ToNumber v <> Inf false -> positive_num (ToNumber v) = true ->
  ToNumber (JSON_roundtrip (number_or v 0)) = ToNumber v.
Proof.
  unfold number_or, num_or. destruct (ToNumber v) as [| b | q]; cbn; try discriminate.
  - destruct b; [discriminate | congruence].
  - intros _ Hq. destruct (Qeq_bool q 0) eqn:E; [| reflexivity].
    apply Qeq_bool_eq in E.
    assert (Qle_bool q 0 = true) as H0 by (apply Qle_bool_iff; rewrite E; apply Qle_refl).
    now rewrite H0 in Hq.
Qed.

Lemma count_json v :
  negative_num (ToNumber v) = false ->
  negative_num (ToNumber (JSON_roundtrip (number_or v 1))) = false.
Proof.
  unfold number_or, num_or. destruct (ToNumber v) as [| b | q]; cbn; try reflexivity.
  destruct (Qeq_bool q 0); cbn; [reflexivity | auto].
Qed.

Lemma unit_json v :
  negb (truthy v) || is_str v "lbs" || is_str v "kg" = true ->
  let u := JSON_roundtrip (or_else v (VStr "lbs")) in
  negb (truthy u) || is_str u "lbs" || is_str u "kg" = true.
Proof.
  unfold or_else. destruct (truthy v) eqn:Ht; [| reflexivity].
  destruct v as [| | | | s | |]; try discriminate. cbn [JSON_roundtrip]. now rewrite Ht.
Qed.

Lemma json_record_prop x id d c u k :
  prop (JSON_element JSON_roundtrip (normalized_record x id d c u)) k
  = JSON_roundtrip (prop (normalized_record x id d c u) k).
Proof. unfold normalized_record, object. apply json_prop. Qed.

Lemma json_record x r :
  kept_record x -> validates x = true -> reads_as x r ->
  kept_record (JSON_element JSON_roundtrip r)
  /\ validates (JSON_element JSON_roundtrip r) = true.
Proof.
  intros (Hx & Hid & Htw & Haw) Hv (d & c & u & -> & _).
  destruct (normalized_record_props x (prop x "id") d c u)
    as (Pid & _ & _ & Ptw & Paw & Punit & _ & Psets & Preps & _).
  cbv zeta in *.
  unfold validates in Hv. rewrite !andb_true_iff, !negb_true_iff in Hv.
  destruct Hv as ((((Vtw & Vaw) & Vunit) & Vsets) & Vreps).
  unfold kept_record, validates.
  rewrite !json_record_prop, Pid, Ptw, Paw, Punit, Psets, Preps.
  rewrite (weight_json _ Htw Vtw), (weight_json _ Haw Vaw).
  rewrite (count_json _ Vsets), (count_json _ Vreps), Vtw, Vaw.
  destruct (modern_id_string _ Hid) as [s Hs]. rewrite Hs in *. cbn [JSON_roundtrip].
  split; [split; [reflexivity | auto] |].
  cbn [andb negb]. rewrite !andb_true_r.
  apply (unit_json _ Vunit).
Qed.

Lemma json_array l :
  JSON_roundtrip (VArr l) = VArr (map (JSON_element JSON_roundtrip) l).
Proof. reflexivity. Qed.

Lemma filter_all {A} (f : A -> bool) l :
  Forall (fun x => f x = true) l -> List.filter f l = l.
Proof. induction 1 as [|x l Hx _ IH]; cbn; [reflexivity |]. now rewrite Hx, IH. Qed.

Lemma filter_valid_kept items :
  Forall kept_record items ->
  Forall (fun x => kept_record x /\ validates x = true) (List.filter validates items).
Proof.
  induction 1 as [|x l Hx _ IH]; cbn; [constructor |].
  destruct (validates x) eqn:E; [constructor; auto | exact IH].
Qed.


(** ** Import *)



(** ** Keys *)

Lemma user_key_service w w' key : service w' = service w -> user_key w' key = user_key w key.
Proof. intros H. unfold user_key. now rewrite H. Qed.






(** ** The round trip *)







(** The same store with a modern id: one record before, one after. *)
Example exportData_importData_keeps_modern_id :
  let w := initial_world (running_env T0) legacy_store in
  match exportData w with
  | (Return data, w1) =>
      match importData data w1 with
      | (Return true, w2) =>
          fst (history_count w) = Return 1%nat
          /\ fst (history_count w2) = Return 1%nat
      | _ => False
      end
  | (Throw _, _) => False
  end.
Proof. vm_compute. repeat split. Qed.

End RoundTripFacts.
(** * Properties of the user directory *)

Module UserFacts.
Import Js Runtime IdGenerator UserService RuntimeFacts NormalizerFacts.

(** ** Trimming *)

Lemma drop_spaces_suffix l : exists p, l = p ++ drop_spaces l.
Proof.
  induction l as [|c l [p IH]]; simpl.
  - now exists [].
  - destruct (is_space c); [exists (c :: p); simpl; congruence | now exists []].
Qed.

Lemma drop_spaces_fixed l :
  match l with [] => True | c :: _ => is_space c = false end -> drop_spaces l = l.
Proof. destruct l as [|c l]; simpl; [trivial | now intros ->]. Qed.

Lemma drop_spaces_head l :
  match drop_spaces l with [] => True | c :: _ => is_space c = false end.
Proof.
  induction l as [|c l IH]; simpl; [trivial |].
  destruct (is_space c) eqn:E; [exact IH | exact E].
Qed.

Lemma drop_spaces_idem l : drop_spaces (drop_spaces l) = drop_spaces l.
Proof. apply drop_spaces_fixed, drop_spaces_head. Qed.

Lemma trim_idem s : trim (trim s) = trim s.
Proof.
  unfold trim, chars, str. rewrite list_ascii_of_string_of_list_ascii.
  set (m := drop_spaces (list_ascii_of_string s)).
  set (q := drop_spaces (rev m)).
  assert (drop_spaces (rev q) = rev q) as ->.
  { apply drop_spaces_fixed.
    destruct (drop_spaces_suffix (rev m)) as [p Hp]. fold q in Hp.
    apply (f_equal (@rev ascii)) in Hp. rewrite rev_involutive, rev_app_distr in Hp.
    pose proof (drop_spaces_head (list_ascii_of_string s)) as Hm. fold m in Hm.
    destruct (rev q) as [|c r]; [trivial |]. rewrite Hp in Hm. exact Hm. }
  rewrite rev_involutive. subst q. now rewrite drop_spaces_idem.
Qed.

(** ** Profiles *)

Lemma user_record_props userData id name t :
  let x := user_record userData id name t in
  nullish x = false
  /\ prop x "id" = id
  /\ prop x "name" = name
  /\ prop x "createdAt" = or_else (prop userData "createdAt") (VStr t)
  /\ prop x "isActive"
     = match prop userData "isActive" with VUndef => VBool true | v => v end.
Proof. repeat split. Qed.

Lemma generateUserId_ensures fuel ids : ensures (generateUserId fuel ids) (fun _ => True).
Proof.
  induction fuel as [|fuel IH]; simpl.
  - apply ensures_throw.
  - eapply ensures_bind; [apply ensures_of_returns, returns_later_now |]. intros t _.
    eapply ensures_bind; [apply ensures_of_returns, returns_later_random |]. intros r _.
    destruct (bool_decide _); [exact IH | now apply ensures_ret].
Qed.

Lemma normalizeUser_ensures userData ids :
  ensures (normalizeUser userData ids)
    (fun x => exists id s t,
       x = user_record userData id (VStr (trim s)) t
       /\ (truthy (prop userData "id") = true -> id = prop userData "id")
       /\ (truthy (prop userData "id") = false -> exists g, id = VStr g)
       /\ truthy (VStr t) = true).
Proof.
  unfold normalizeUser.
  eapply ensures_bind; [apply ensures_of_returns, now_iso_truthy |]. intros t Ht.
  destruct (nullish userData); [apply ensures_throw |].
  eapply ensures_bind with
    (P := fun id => (truthy (prop userData "id") = true -> id = prop userData "id")
                    /\ (truthy (prop userData "id") = false -> exists g, id = VStr g)).
  { destruct (truthy (prop userData "id")) eqn:E.
    - apply ensures_ret. split; [reflexivity | discriminate].
    - eapply ensures_weaken with (P := fun v => exists g, v = VStr g).
      + intros w. destruct (generateUserId_ensures ID_FUEL ids w) as [L _].
        unfold fmap, M_fmap. destruct (generateUserId ID_FUEL ids w) as [[g | e] w']; cbn in *.
        * split; [exact L |]. intros a [= <-]. eauto.
        * split; [exact L | discriminate].
      + intros v Hv. split; [discriminate | now intros _]. }
  intros id [Hid1 Hid2].
  destruct (or_else (prop userData "name") (VStr EmptyString)) as [| | | | s | |] eqn:En;
    try apply ensures_throw.
  cbn [mbind]. apply ensures_ret. exists id, s, t. auto.
Qed.



Lemma name_never_false v : UserValidators_name v <> Return false.
Proof.
  unfold UserValidators_name. destruct v; try discriminate.
  repeat (match goal with |- context [if ?c then _ else _] => destruct c end;
          try discriminate).
Qed.

Lemma validate_user_record userData id n t :
  UserValidators_user (user_record userData id (VStr n) t) = Return true ->
  exists i, id = VStr i /\ i <> EmptyString /\ UserValidators_name (VStr n) = Return true.
Proof.
  unfold UserValidators_user.
  destruct (user_record_props userData id (VStr n) t) as (Hn & Pid & Pname & Pc & _).
  rewrite Hn, Pid, Pname.
  destruct (0 <? _)%nat; [discriminate |].
  destruct (UserValidators_name (VStr n)) as [[] | e] eqn:En; try discriminate.
  - destruct id as [| | | | i | |]; try discriminate.
    destruct i; [discriminate |]. intros _. eexists. split; [reflexivity |]. now split.
  - now destruct (name_never_false (VStr n)).
Qed.


Lemma getAllUsers_step_ensures st user :
  Forall good_user (snd st) ->
  ensures (getAllUsers_step st user) (fun st' => Forall good_user (snd st')).
Proof.
  destruct st as [ids acc]. cbn [snd]. intros Hacc. unfold getAllUsers_step.
  apply ensures_try_catch; [| intros e; now apply ensures_ret].
  eapply ensures_bind; [apply normalizeUser_ensures |].
  intros x (id & s & t & -> & _ & _ & Ht).
  eapply ensures_bind with (P := fun _ =>
    UserValidators_user (user_record user id (VStr (trim s)) t) = Return true).
  { apply ensures_lift. intros [] E; [exact E |].
    unfold UserValidators_user in E.
    repeat (match type of E with context [if ?c then _ else _] => destruct c end;
            try discriminate);
    repeat (match type of E with context [match ?c with _ => _ end] => destruct c end;
            try discriminate). }
  intros _ Hvalid. apply ensures_ret. cbn [snd].
  apply Forall_app. split; [exact Hacc |]. constructor; [| constructor].
  destruct (validate_user_record _ _ _ _ Hvalid) as (i & -> & Hi & Hn).
  exists user, i, (trim s), t. repeat split; auto using trim_idem.
Qed.

Lemma string_ids_ensures users : ensures (string_ids users) (fun _ => True).
Proof.
  induction users as [|u users IH]; simpl; [now apply ensures_ret |].
  destruct (nullish u); [apply ensures_throw |].
  eapply ensures_bind; [exact IH |]. intros ids _.
  destruct (prop u "id") as [| | | | s | |]; try now apply ensures_ret.
  destruct s; now apply ensures_ret.
Qed.

Lemma user_getItem_run key d w :
  _getItem key d w
  = (Return (if userServiceAvailable w then parse_or (localStorage w !! key) d else d), w).
Proof. unfold _getItem. rewrite bind_run. cbn [get_world]. now destruct (userServiceAvailable w). Qed.

Lemma user_getItem_ensures key d : ensures (_getItem key d) (fun _ => True).
Proof. intros w. rewrite user_getItem_run. split; [apply later_refl | trivial]. Qed.

Lemma getAllUsers_ensures : ensures getAllUsers (Forall good_user).
Proof.
  unfold getAllUsers.
  eapply ensures_bind; [apply user_getItem_ensures |]. intros raw _.
  eapply ensures_bind with (P := fun _ => True).
  { destruct raw; try apply ensures_throw. now apply ensures_ret. }
  intros users _.
  eapply ensures_bind; [apply string_ids_ensures |]. intros ids _.
  eapply ensures_bind.
  { apply ensures_for_of with (I := fun st => Forall good_user (snd st)); [constructor |].
    intros b a Hb. now apply getAllUsers_step_ensures. }
  intros r Hr.
  eapply ensures_bind with (P := fun _ => True).
  { intros w. split; [apply later_refl | trivial]. }
  intros w _. apply ensures_ret.
  eapply Permutation_Forall; [| exact Hr]. symmetry. apply Array_sort_Permutation.
Qed.


(** ** Reading back stored profiles *)







(** ** Looking a profile up by id *)











(** ** Deleting a profile *)

Lemma same_directory_refl w : same_directory w w.
Proof. now split. Qed.

Lemma same_directory_trans w1 w2 w3 :
  same_directory w1 w2 -> same_directory w2 w3 -> same_directory w1 w3.
Proof. intros [? ?] [? ?]. split; congruence. Qed.

Lemma later_same_directory w w' : later w w' -> same_directory w w'.
Proof. intros (_ & Hls & _ & _ & Hu). split; [exact Hu | now rewrite Hls]. Qed.

Lemma user_setItem_run key v w :
  _setItem key v w
  = if userServiceAvailable w
    then (Return true, set_localStorage (<[key := JSON_roundtrip v]> (localStorage w)) w)
    else (Throw (JsError "localStorage not available"), w).
Proof.
  unfold _setItem. rewrite bind_run. cbn [get_world].
  now destruct (userServiceAvailable w).
Qed.

Lemma _setItem_same_directory key v :
  key <> USERS_LIST -> preserves same_directory (_setItem key v).
Proof.
  intros Hk w. rewrite user_setItem_run. destruct (userServiceAvailable w) eqn:E; cbn.
  - split; [reflexivity |]. cbn. now rewrite lookup_insert_ne.
  - apply same_directory_refl.
Qed.

Lemma getUserById_ensures userId : ensures (getUserById userId) (fun _ => True).
Proof.
  unfold getUserById. destruct (negb _); [now apply ensures_ret |].
  eapply ensures_bind; [apply getAllUsers_ensures |]. intros L _. now apply ensures_ret.
Qed.

Lemma getCurrentUser_ensures : ensures getCurrentUser (fun _ => True).
Proof.
  unfold getCurrentUser. eapply ensures_bind; [apply user_getItem_ensures |].
  intros userId _. destruct (negb _); [now apply ensures_ret | apply getUserById_ensures].
Qed.

Lemma sd_ret {A} (a : A) : preserves same_directory (mret a).
Proof. apply preserves_ret, same_directory_refl. Qed.

Lemma sd_throw {A} (e : Error) : preserves same_directory (@throw A e).
Proof. apply preserves_throw, same_directory_refl. Qed.

Lemma sd_bind {A B} (m : M A) (f : A -> M B) :
  preserves same_directory m -> (forall a, preserves same_directory (f a)) ->
  preserves same_directory (m ≫= f).
Proof. apply preserves_bind, same_directory_trans. Qed.

Lemma sd_ensures {A} (m : M A) (P : A -> Prop) :
  ensures m P -> preserves same_directory m.
Proof. apply preserves_of_ensures, later_same_directory. Qed.

Lemma _logSession_same_directory userId type :
  preserves same_directory (_logSession userId type).
Proof.
  unfold _logSession.
  apply preserves_try_catch; [apply same_directory_trans | | intros e; apply sd_ret].
  apply sd_bind; [eapply sd_ensures, user_getItem_ensures |].
  intros sessions. apply sd_bind.
  { destruct sessions; try apply sd_throw. apply sd_ret. }
  intros l. apply sd_bind.
  { eapply sd_ensures. apply ensures_of_returns, returns_later_now_iso. }
  intros t. apply sd_bind.
  { destruct (existsb _ _); [apply sd_throw | apply sd_ret]. }
  intros _. apply sd_bind; [| intros b; apply sd_ret].
  now apply _setItem_same_directory.
Qed.

Lemma clearCurrentUser_run w b w' :
  clearCurrentUser w = (Return b, w') ->
  same_directory w w' /\ localStorage w' !! CURRENT_USER = None.
Proof.
  unfold clearCurrentUser. rewrite bind_run.
  destruct (getCurrentUser_ensures w) as [L1 _].
  destruct (getCurrentUser w) as [[cu | e] w1]; [| discriminate]. cbn [snd] in L1.
  rewrite bind_run.
  set (m := if truthy cu then _logSession (prop cu "id") "logout" else mret ()).
  assert (preserves same_directory m) as Hp.
  { subst m. destruct (truthy cu); [apply _logSession_same_directory | apply sd_ret]. }
  specialize (Hp w1).
  destruct (m w1) as [[[] | e] w2]; [| discriminate].
  cbn [snd] in Hp. rewrite bind_run. cbn [removeItem]. intros [= _ <-].
  split.
  - eapply same_directory_trans; [apply later_same_directory, L1 |].
    eapply same_directory_trans; [exact Hp |].
    split; [reflexivity |]. cbn. now rewrite lookup_delete_ne.
  - cbn. apply lookup_delete_eq.
Qed.


(** ** Profiles through storage *)










(** ** Creating a profile *)

(** C6 fails on the code.  With one soft-deleted profile named Bob (and an
    active Ann), [createUser] rejects the name [bob] as a duplicate, although
    no active profile bears it; [userExistsByName], the sibling check, says
    the name is free. *)
Theorem createUser_rejects_name_of_deleted_user :
  fst (userExistsByName (VStr "bob") (initial_world (frozen_at T0) directory))
    = Return false
  /\ fst (createUser (object [("name", VStr "bob")])
            (initial_world (frozen_at T0) directory))
    = Throw (JsError "A user with this name already exists").
Proof. split; vm_compute; reflexivity. Qed.

(** The name of an active profile is rejected, whatever its case; a fresh
    name is accepted. *)
Example createUser_rejects_active_name :
  fst (createUser (object [("name", VStr " ANN ")])
         (initial_world (frozen_at T0) directory))
  = Throw (JsError "A user with this name already exists").
Proof. vm_compute. reflexivity. Qed.

Example createUser_accepts_fresh_name :
  match createUser (object [("name", VStr "Cleo")])
          (initial_world (frozen_at T0) directory) with
  | (Return user, _) => prop user "name" = VStr "Cleo"
  | (Throw _, _) => False
  end.
Proof. vm_compute. reflexivity. Qed.

(** ** Deleting a profile *)






(** The hypothesis on the ids is needed.  With two live profiles stored
    under one id, [deleteUser] of that id returns true, and
    [setCurrentUser] of the same id then returns the live twin and stores
    the id as the current user. *)
Example deleteUser_twin_still_selected :
  let u := VStr "user_1703891234568_a3f702" in
  match deleteUser u (initial_world (running_env T0) twin_directory) with
  | (Return true, w1) =>
      match setCurrentUser 3 u w1 with
      | (Return user, w2) =>
          localStorage w2 !! CURRENT_USER = Some u
          /\ prop user "id" = u
          /\ prop user "isActive" = VBool true
      | (Throw _, _) => False
      end
  | _ => False
  end.
Proof. vm_compute. repeat split. Qed.

End UserFacts.
(** * The greedy pass of the plate solver *)

Module PlateGreedyFacts.
Import PlateSolver PlateSolverFacts.
#[local] Open Scope Q_scope.

Lemma round2_lower x : x - 0.005 < round2 x.
Proof.
  unfold round2, Math_round.
  pose proof (Qlt_floor (x * 100 + (1 # 2))) as H.
  rewrite inject_Z_plus in H. change (inject_Z 1) with 1 in H.
  apply Qlt_shift_div_l; [reflexivity | lra].
Qed.

Lemma plate_ok_pos w : plate_ok w = true -> 0 < w /\ cents w.
Proof.
  intros [Hpos Hc%centsb_cents]%andb_prop. split; [| exact Hc].
  unfold Qlt_bool in Hpos. apply negb_true_iff in Hpos.
  destruct (Qlt_le_dec 0 w) as [|Hle]; [assumption |].
  apply Qle_bool_iff in Hle. congruence.
Qed.

(** What one denomination leaves of the load. *)
Lemma plateStep_rest bd rem w :
  plate_ok w = true -> 0 <= rem -> cents rem ->
  let rem' := snd (plateStep (bd, rem) w) in
  0 <= rem' /\ rem' <= rem /\ rem' < w /\ cents rem'
  /\ exists c : Z, rem' == rem - inject_Z c * w.
Proof.
  intros [Hw Hc]%plate_ok_pos Hrem Hcents. cbv zeta. unfold plateStep.
  destruct (Qle_bool w rem) eqn:Hle; cbn [snd].
  - set (count := Math_floor (rem / w)).
    pose proof (cents_sub_mul rem w count Hcents Hc) as Hc'.
    pose proof (round2_cents _ Hc') as Hr.
    assert (rem / w * w == rem) as E by (field; lra).
    assert (inject_Z count * w <= rem) as Hfit.
    { pose proof (Qfloor_le (rem / w)) as Hfl. fold (Math_floor (rem / w)) in Hfl.
      fold count in Hfl. apply (Qmult_le_compat_r _ _ w) in Hfl; [| lra].
      now rewrite E in Hfl. }
    assert (rem < (inject_Z count + 1) * w) as Hnext.
    { pose proof (Qlt_floor (rem / w)) as Hfl. fold (Math_floor (rem / w)) in Hfl.
      fold count in Hfl. rewrite inject_Z_plus in Hfl. change (inject_Z 1) with 1 in Hfl.
      apply (Qmult_lt_compat_r _ _ w) in Hfl; [| lra].
      now rewrite E in Hfl. }
    assert (0 <= inject_Z count * w) as Hnn.
    { apply Qmult_le_0_compat; [| lra].
      change 0 with (inject_Z 0). rewrite <- Zle_Qle.
      change 0%Z with (Qfloor 0). apply Qfloor_resp_le.
      apply Qle_shift_div_l; lra. }
    repeat split; try lra; [apply cents_round2 |]. now exists count.
  - assert (rem < w) as Hlt.
    { destruct (Qlt_le_dec rem w) as [|H]; [assumption |].
      apply Qle_bool_iff in H. congruence. }
    repeat split; try lra; [assumption |]. exists 0%Z. change (inject_Z 0) with 0. lra.
Qed.

Lemma plateStep_snd bd bd' rem w :
  snd (plateStep (bd, rem) w) = snd (plateStep (bd', rem) w).
Proof. unfold plateStep. now destruct (Qle_bool w rem). Qed.

(** What the whole pass leaves: less than every denomination, and the load
    minus whole plates. *)
Lemma plateLoop_rest d ps : forall bd rem,
  forallb plate_ok ps = true -> Forall (multiple_of d) ps ->
  0 <= rem -> cents rem ->
  let rest := snd (fold_left plateStep ps (bd, rem)) in
  0 <= rest /\ rest <= rem /\ Forall (fun w => rest < w) ps
  /\ (multiple_of d rem -> multiple_of d rest).
Proof.
  induction ps as [|w ps IH]; intros bd rem Hok Hm Hrem Hc; cbn [fold_left].
  - cbn. repeat split; try lra; [constructor | auto].
  - cbn [forallb] in Hok. apply andb_prop in Hok as [Hw Hok].
    inversion Hm as [|? ? [m Hwm] Hm']; subst.
    destruct (plateStep_rest bd rem w Hw Hrem Hc) as (H0 & Hle & Hlt & Hc' & c & Hrem').
    destruct (plateStep (bd, rem) w) as [bd1 rem1]. cbn [snd] in *.
    destruct (IH bd1 rem1 Hok Hm' H0 Hc') as (H0' & Hle' & Hall & Hmul).
    cbv zeta. repeat split; try lra.
    + constructor; [lra | exact Hall].
    + intros [k Hk]. apply Hmul. exists (k - c * m)%Z.
      unfold Zminus. rewrite inject_Z_plus, inject_Z_opp, inject_Z_mult, Hrem', Hk, Hwm. ring.
Qed.

Lemma builtin_plates_multiples u :
  Forall (multiple_of (smallestPlate u)) (plateWeightsOf u)
  /\ In (smallestPlate u) (plateWeightsOf u)
  /\ 0 < smallestPlate u /\ cents (smallestPlate u).
Proof.
  destruct u; (split; [| split; [| split]]).
  - repeat constructor; [exists 18%Z | exists 10%Z | exists 4%Z | exists 2%Z | exists 1%Z];
      reflexivity.
  - cbn. tauto.
  - reflexivity.
  - exists 250%Z. reflexivity.
  - repeat constructor;
      [exists 20%Z | exists 16%Z | exists 12%Z | exists 8%Z | exists 4%Z | exists 2%Z | exists 1%Z];
      reflexivity.
  - cbn. tauto.
  - reflexivity.
  - exists 125%Z. reflexivity.
Qed.


(** ** The window around the target *)

Lemma cents_gap a b : cents a -> cents b -> a < b -> a <= b - 0.01.
Proof.
  intros [za Ha] [zb Hb] Hlt.
  assert (za < zb)%Z as Hz by (rewrite Zlt_Qlt, <- Ha, <- Hb; lra).
  assert (za <= zb - 1)%Z as Hz' by lia.
  rewrite Zle_Qle in Hz'. unfold Zminus in Hz'.
  rewrite inject_Z_plus, inject_Z_opp, <- Ha, <- Hb in Hz'.
  change (inject_Z 1) with 1 in Hz'. lra.
Qed.

Lemma plateLoop_cents ps : forall bd rem,
  forallb plate_ok ps = true -> 0 <= rem -> cents rem ->
  cents (snd (fold_left plateStep ps (bd, rem))).
Proof.
  induction ps as [|w ps IH]; intros bd rem Hok Hrem Hc; cbn [fold_left]; [exact Hc |].
  cbn [forallb] in Hok. apply andb_prop in Hok as [Hw Hok].
  destruct (plateStep_rest bd rem w Hw Hrem Hc) as (H0 & _ & _ & Hc' & _).
  destruct (plateStep (bd, rem) w) as [bd1 rem1]. cbn [snd] in *.
  now apply IH.
Qed.

(** What the pass leaves of the rounded load is a whole number of cents
    below the lightest plate: at least one cent less. *)
Lemma calculatePlates_rest_cents (u : Unit) (barbell target : Q) :
  barbell <= target ->
  exists rest,
    actualWeight (calculatePlates u barbell target)
    == barbell + round2 (target - barbell) - rest
    /\ 0 <= rest /\ rest <= smallestPlate u - 0.01.
Proof.
  intros Hle. unfold calculatePlates. fold (plateWeightsOf u).
  assert (Qlt_bool target barbell = false) as ->.
  { unfold Qlt_bool. apply negb_false_iff, Qle_bool_iff, Hle. }
  destruct (builtin_plates_ok u) as (Hok & Hd & Hz & Hzero).
  destruct (builtin_plates_multiples u) as (Hm & Hin & Hpos & Hsc).
  pose proof (round2_nonneg (target - barbell) ltac:(lra)) as Hr0.
  pose proof (plateLoop_spec _ _ _ Hok Hd Hz Hr0 (cents_round2 _)) as Hloop.
  pose proof (plateLoop_rest (smallestPlate u) _ (zeroBreakdown (plateWeightsOf u)) _
                Hok Hm Hr0 (cents_round2 _)) as Hrest.
  pose proof (plateLoop_cents _ (zeroBreakdown (plateWeightsOf u)) _
                Hok Hr0 (cents_round2 _)) as Hcents.
  cbv zeta in Hloop, Hrest.
  destruct (fold_left plateStep (plateWeightsOf u) _) as [bd rem].
  cbn [fst snd actualWeight] in *.
  destruct Hloop as (Hsum & _). destruct Hrest as (H0 & _ & Hall & _).
  rewrite Forall_forall in Hall. specialize (Hall _ (proj2 (list_elem_of_In _ _) Hin)).
  exists rem.
  rewrite reduce_entrySum, (entrySum_Permutation _ _ (Object_entries_Permutation bd)).
  split; [lra |]. split; [exact H0 |]. now apply cents_gap.
Qed.

(** C1 (as amended).  For every target from 0 to 10000 and every bar
    heavier than 0, on the built-in lbs and kg denominations.  Below the
    bar the solver answers the bare bar, without a plate.  From the bar
    upwards it loads what the plates can make of the load rounded to
    cents: the answer is never lighter than the bar, it falls short of the
    target by less than the lightest plate (2.5 lbs, 1.25 kg), and it
    exceeds the target by less than a cent.

    Numbers are exact rationals here and 64-bit floating-point numbers in
    the source.  The two bounds tied to the target are met with 0.005 to
    spare, which at the weights a bar carries is far more than the
    floating-point arithmetic of the source can lose. *)
Theorem calculatePlates_actualWeight_bounds (u : Unit) (barbell target : Q) :
  0 <= target -> 0 < barbell -> target <= 10000 ->
  (target < barbell ->
     actualWeight (calculatePlates u barbell target) = barbell
     /\ totalPlates (calculatePlates u barbell target) = 0%Z)
  /\ (barbell <= target ->
        barbell <= actualWeight (calculatePlates u barbell target)
        /\ target - smallestPlate u < actualWeight (calculatePlates u barbell target)
        /\ actualWeight (calculatePlates u barbell target) < target + 0.01).
Proof.
  intros _ _ _. split; [apply calculatePlates_below_bar |].
  intros Hle.
  destruct (calculatePlates_upper u barbell target Hle) as (Hbar & Hup & _).
  destruct (calculatePlates_rest_cents u barbell target Hle) as (rest & E & H0 & Hgap).
  pose proof (round2_lower (target - barbell)) as Hlow.
  split; [exact Hbar |]. split; lra.
Qed.

Lemma calculatePlates_actualWeight_bounds_witness :
  0 <= 46 /\ 0 < 45 /\ 46 <= 10000 /\ 45 <= 46
  /\ 45 <= actualWeight (calculatePlates lbs 45 46)
  /\ 46 - smallestPlate lbs < actualWeight (calculatePlates lbs 45 46)
  /\ actualWeight (calculatePlates lbs 45 46) < 46 + 0.01.
Proof.
  assert (0 <= 46) as H1 by (vm_compute; discriminate).
  assert (0 < 45) as H2 by reflexivity.
  assert (46 <= 10000) as H3 by (vm_compute; discriminate).
  assert (45 <= 46) as H4 by (vm_compute; discriminate).
  exact (conj H1 (conj H2 (conj H3 (conj H4
           (proj2 (calculatePlates_actualWeight_bounds lbs 45 46 H1 H2 H3) H4))))).
Defined.

(** A load that rounds up: 61.245 kg on the 20 kg bar is answered 61.25. *)
Example calculatePlates_61_245 :
  actualWeight (calculatePlates kg 20 61.245) == 61.25
  /\ totalPlates (calculatePlates kg 20 61.245) = 3%Z.
Proof. split; reflexivity. Qed.

(** The 64-bit number nearest 61.245 lies just below it.  Its exact load
    times 100 is below the tie 4124.5, and the answer here is 60 with two
    plates; the source, whose floating-point product is the tie itself,
    answers 61.25 with three.  Both answers lie in the window of the
    theorem. *)
Example calculatePlates_61_245_binary64 :
  let target := 8619467474322063 # 140737488355328 in
  actualWeight (calculatePlates kg 20 target) == 60
  /\ totalPlates (calculatePlates kg 20 target) = 2%Z
  /\ target - smallestPlate kg < 60
  /\ 61.25 < target + 0.01.
Proof. repeat split. Qed.

(** ** The shortfall *)







End PlateGreedyFacts.
(** * Unit conversion *)

Module WeightUtilsFacts.
Import PlateSolver PlateSolverFacts PlateGreedyFacts WeightUtils.
#[local] Open Scope Q_scope.

(** Converting a weight of up to 1000 to the other unit and back moves it
    by at most two hundredths (pounds) or one hundredth (kilograms): the
    two factors are not inverse to each other and each conversion rounds
    to two decimals. *)
Theorem conversion_round_trip (x : Q) :
  0 <= x -> x <= 1000 ->
  (x - 0.02 <= kgToLbs (lbsToKg x) /\ kgToLbs (lbsToKg x) <= x + 0.02)
  /\ (x - 0.01 <= lbsToKg (kgToLbs x) /\ lbsToKg (kgToLbs x) <= x + 0.01).
Proof.
  intros H0 H1. unfold kgToLbs, lbsToKg.
  pose proof (round2_lower (x * 0.453592)) as A1.
  pose proof (round2_upper (x * 0.453592)) as A2.
  pose proof (round2_lower (round2 (x * 0.453592) * 2.20462)) as A3.
  pose proof (round2_upper (round2 (x * 0.453592) * 2.20462)) as A4.
  pose proof (round2_lower (x * 2.20462)) as B1.
  pose proof (round2_upper (x * 2.20462)) as B2.
  pose proof (round2_lower (round2 (x * 2.20462) * 0.453592)) as B3.
  pose proof (round2_upper (round2 (x * 2.20462) * 0.453592)) as B4.
  repeat split; lra.
Qed.

Lemma conversion_round_trip_witness :
  0 <= 225 /\ 225 <= 1000
  /\ (225 - 0.02 <= kgToLbs (lbsToKg 225) /\ kgToLbs (lbsToKg 225) <= 225 + 0.02)
  /\ (225 - 0.01 <= lbsToKg (kgToLbs 225) /\ lbsToKg (kgToLbs 225) <= 225 + 0.01).
Proof.
  assert (0 <= 225) as H0 by (vm_compute; discriminate).
  assert (225 <= 1000) as H1 by (vm_compute; discriminate).
  exact (conj H0 (conj H1 (conversion_round_trip 225 H0 H1))).
Defined.

(** The round trip is not the identity: 1 lb comes back as 0.99. *)
Example conversion_round_trip_1 : kgToLbs (lbsToKg 1) == 0.99.
Proof. vm_compute. reflexivity. Qed.

End WeightUtilsFacts.
(** * The shape of generated identifiers *)

Module IdShapeFacts.
Import Js Runtime IdGenerator RuntimeFacts IdGeneratorFacts.

(** ** The fallback *)

(** A test that holds of the sixteen hexadecimal digit values holds of
    every value below sixteen. *)
Lemma hex_values (p : N -> bool) :
  forallb p (map N.of_nat (seq 0 16)) = true ->
  forall n, (n < 16)%N -> p n = true.
Proof.
  intros Hall n Hn. rewrite forallb_forall in Hall. apply Hall.
  apply in_map_iff. exists (N.to_nat n). split; [lia |]. apply in_seq. lia.
Qed.

Lemma hex_char_lower n : (n < 16)%N -> is_hex_lower (hex_char_of_N n) = true.
Proof.
  apply (hex_values (fun n => is_hex_lower (hex_char_of_N n))).
  vm_compute. reflexivity.
Qed.

Lemma random_times16_bound r : (random_times16 r < 16)%N.
Proof. destruct r as [|h r]; [reflexivity |]. now destruct h. Qed.

Lemma uuid_variant_char n :
  (n < 16)%N ->
  existsb (Ascii.eqb (hex_char_of_N (N.lor (N.land n 3) 8))) (chars "89ab") = true.
Proof.
  apply (hex_values
           (fun n => existsb (Ascii.eqb (hex_char_of_N (N.lor (N.land n 3) 8))) (chars "89ab"))).
  vm_compute. reflexivity.
Qed.

Lemma uuid_char_slot c : returns_later (uuid_char c) (uuid_slot c).
Proof.
  intros w. unfold uuid_char, uuid_slot.
  destruct (Ascii.eqb c "x") eqn:Hx; cbn [orb].
  - destruct (returns_later_random w) as (r & w' & E & L & _).
    rewrite bind_run, E. exists (hex_char_of_N (random_times16 r)), w'.
    split; [reflexivity |]. split; [exact L |].
    apply hex_char_lower, random_times16_bound.
  - destruct (Ascii.eqb c "y") eqn:Hy.
    + destruct (returns_later_random w) as (r & w' & E & L & _).
      rewrite bind_run, E. eexists _, w'.
      split; [reflexivity |]. split; [exact L |].
      apply uuid_variant_char, random_times16_bound.
    + exists c, w. split; [reflexivity |]. split; [apply later_refl | reflexivity].
Qed.

Lemma uuid_loop template : forall acc w,
  exists vs w',
    for_of template acc (fun acc c => v ← uuid_char c; mret (v :: acc)) w
    = (Return (rev vs ++ acc), w')
    /\ later w w'
    /\ Forall2 uuid_slot template vs.
Proof.
  induction template as [|c template IH]; intros acc w; cbn [for_of].
  - exists [], w. split; [reflexivity |]. split; [apply later_refl | constructor].
  - destruct (uuid_char_slot c w) as (v & w1 & E1 & L1 & Hv).
    destruct (IH (v :: acc) w1) as (vs & w2 & E2 & L2 & Hvs).
    rewrite bind_run, bind_run, E1. cbn [mret M_ret]. rewrite E2.
    exists (v :: vs), w2. cbn [rev]. rewrite <- app_assoc.
    split; [reflexivity |]. split; [eapply later_trans; eassumption |].
    now constructor.
Qed.

Lemma hex_run_0 l : hex_run 0 l = Some l.
Proof. reflexivity. Qed.

Lemma hex_run_S n c l : is_hex c = true -> hex_run (S n) (c :: l) = hex_run n l.
Proof. intros H. unfold hex_run. cbn [firstn skipn length forallb Nat.eqb]. now rewrite H. Qed.

Lemma is_hex_of_lower c : is_hex_lower c = true -> is_hex c = true.
Proof. intros H. unfold is_hex. now rewrite H. Qed.

Lemma uuid_variant c :
  existsb (Ascii.eqb c) (chars "89ab") = true ->
  existsb (Ascii.eqb (lower_char c)) (chars "89ab") = true /\ is_hex c = true.
Proof.
  intros H. cbn [chars list_ascii_of_string existsb] in H.
  rewrite !orb_true_iff, !Ascii.eqb_eq in H.
  destruct H as [-> | [-> | [-> | [-> | H]]]]; try discriminate H; split; reflexivity.
Qed.

Lemma uuid_slot_x v : uuid_slot "x" v -> is_hex v = true.
Proof. exact (is_hex_of_lower v). Qed.

Lemma uuid_slot_y v :
  uuid_slot "y" v ->
  existsb (Ascii.eqb (lower_char v)) (chars "89ab") = true /\ is_hex v = true.
Proof. exact (uuid_variant v). Qed.

Lemma uuid_slot_dash v : uuid_slot "-" v -> v = "-"%char.
Proof. exact (fun H => H). Qed.

Lemma uuid_slot_4 v : uuid_slot "4" v -> v = "4"%char.
Proof. exact (fun H => H). Qed.

(** Every string that fills the template is accepted by the UUID
    pattern. *)
Lemma uuid_shape vs :
  Forall2 uuid_slot (chars "xxxxxxxx-xxxx-4xxx-yxxx-xxxxxxxxxxxx") vs ->
  uuidPattern (str vs) = true /\ length vs = 36%nat.
Proof.
  intros H. split; [| now rewrite <- (Forall2_length _ _ _ H)].
  cbn [chars list_ascii_of_string] in H.
  repeat match goal with
         | H : Forall2 _ (_ :: _) _ |- _ =>
             let Hs := fresh "Hs" in
             apply Forall2_cons_inv_l in H as (? & ? & Hs & H & ->);
             first [ apply uuid_slot_x in Hs
                   | apply uuid_slot_y in Hs as [? ?]
                   | apply uuid_slot_dash in Hs as ->
                   | apply uuid_slot_4 in Hs as -> ]
         | H : Forall2 _ [] _ |- _ => apply Forall2_nil_inv_l in H as ->
         end.
  unfold uuidPattern, chars, str in *. rewrite list_ascii_of_string_of_list_ascii.
  repeat first [ rewrite hex_run_S by assumption
               | rewrite hex_run_0
               | progress cbn [mbind option_bind dash]
               | match goal with H : existsb _ _ = true |- _ => rewrite H end ].
  reflexivity.
Qed.

Lemma uuidPattern_valid s : uuidPattern s = true -> isValidWorkoutId (VStr s) = true.
Proof.
  intros H. unfold isValidWorkoutId.
  destruct s as [|c s]; [discriminate H |]. cbn [truthy negb]. rewrite H.
  now destruct (timestampRandomPattern _).
Qed.

Lemma generateUUID_shape (w : World) :
  exists id w',
    generateUUID w = (Return id, w')
    /\ later w w'
    /\ String.length id = 36%nat
    /\ uuidPattern id = true
    /\ isValidWorkoutId (VStr id) = true.
Proof.
  unfold generateUUID.
  destruct (uuid_loop (chars "xxxxxxxx-xxxx-4xxx-yxxx-xxxxxxxxxxxx") [] w)
    as (vs & w' & E & L & Hvs).
  rewrite bind_run, E. cbn [mret M_ret]. rewrite app_nil_r, rev_involutive.
  destruct (uuid_shape vs Hvs) as [Hp Hl].
  exists (str vs), w'. split; [reflexivity |]. split; [exact L |].
  split; [| split; [exact Hp | now apply uuidPattern_valid]].
  rewrite <- Hl. unfold str. clear. induction vs as [|c vs IH]; cbn; congruence.
Qed.

(** Whatever the random source draws, [generateUUID] returns 36 characters
    that the UUID pattern, and with it [isValidWorkoutId], accepts; it
    changes nothing. *)
Theorem generateUUID_valid (w : World) :
  exists id w',
    generateUUID w = (Return id, w')
    /\ later w w'
    /\ String.length id = 36%nat
    /\ uuidPattern id = true
    /\ isValidWorkoutId (VStr id) = true.
Proof. apply generateUUID_shape. Qed.

(** ** Freshness *)

Lemma generateWorkoutId_loop_fresh remaining s : forall attempts w,
  exists id w',
    generateWorkoutId_loop remaining attempts (IdsSet s) w = (Return id, w')
    /\ later w w'
    /\ (id ∉ s \/ uuidPattern id = true).
Proof.
  induction remaining as [|n IH]; intros attempts w; cbn [generateWorkoutId_loop].
  - destruct (generateUUID_shape w) as (id & w' & E & L & _ & Hp & _).
    exists id, w'. auto.
  - destruct (generateUniqueId_returns w) as (id & w1 & E1 & L1 & _).
    rewrite bind_run, E1, bind_run. cbn [has mret M_ret].
    destruct (bool_decide (id ∈ s)) eqn:Hd; cbn [negb].
    2:{ exists id, w1. split; [reflexivity |]. split; [exact L1 |]. left.
        now apply bool_decide_eq_false in Hd. }
    destruct (10 <? S attempts)%nat.
    2:{ destruct (IH (S attempts) w1) as (id' & w2 & E2 & L2 & H2).
        exists id', w2. split; [exact E2 |]. split; [eapply later_trans; eassumption | exact H2]. }
    destruct (returns_later_now w1) as (t & w2 & E2 & L2 & _).
    destruct (returns_later_perf_now w2) as (p & w3 & E3 & L3 & _).
    destruct (returns_later_random w3) as (r & w4 & E4 & L4 & _).
    rewrite bind_run, E2, bind_run, E3, bind_run, E4, bind_run. cbn [has mret M_ret].
    assert (later w w4) as L.
    { eapply later_trans; [exact L1 |]. eapply later_trans; [exact L2 |].
      eapply later_trans; [exact L3 | exact L4]. }
    match goal with |- context [bool_decide (?i ∈ s)] => set (uniqueId := i) end.
    destruct (bool_decide (uniqueId ∈ s)) eqn:Hu; cbn [negb].
    + destruct (IH (S attempts) w4) as (id' & w5 & E5 & L5 & H5).
      exists id', w5. split; [exact E5 |]. split; [eapply later_trans; eassumption | exact H5].
    + exists uniqueId, w4. split; [reflexivity |]. split; [exact L |]. left.
      now apply bool_decide_eq_false in Hu.
Qed.

(** [generateWorkoutId] always returns, changes nothing, and the id it
    returns is not in [existingIds], unless all hundred rounds collided and
    it fell back on a UUID, which it does not check against the set. *)
Theorem generateWorkoutId_fresh_or_uuid (s : gset string) (w : World) :
  exists id w',
    generateWorkoutId (IdsSet s) w = (Return id, w')
    /\ later w w'
    /\ (id ∉ s \/ uuidPattern id = true).
Proof. apply generateWorkoutId_loop_fresh. Qed.

End IdShapeFacts.
(** * The workout store *)

Module WorkoutStoreFacts.
Import Js Runtime IdGenerator DataService LocalStorage RuntimeFacts NormalizerFacts.
Import StorageFacts RoundTripFacts.

(** ** Reading never writes *)

Lemma normalizeWorkout_ensures x s :
  ensures (normalizeWorkout x (IdsSet s)) (fun _ => True).
Proof.
  destruct (nullish x) eqn:Hx.
  - intros w. unfold normalizeWorkout. rewrite Hx. split; [apply later_refl | auto].
  - apply ensures_of_returns. eapply returns_later_weaken.
    + apply normalizeWorkout_spec; [exact Hx | left; now exists s].
    + auto.
Qed.

Lemma history_string_ids_ensures l : ensures (string_ids l) (fun _ => True).
Proof.
  induction l as [|x l IH]; cbn [string_ids]; [now apply ensures_ret |].
  destruct (nullish x); [apply ensures_throw |].
  eapply ensures_bind; [exact IH |]. intros ids _.
  destruct (prop x "id") as [| | | | s | |]; try now apply ensures_ret.
  destruct (truthy (VStr s)); now apply ensures_ret.
Qed.

Lemma history_step_ensures st x :
  Forall (fun r => DataValidators_workout r = Return true) (snd st) ->
  ensures (history_step st x)
    (fun st' => Forall (fun r => DataValidators_workout r = Return true) (snd st')).
Proof.
  destruct st as [ids acc]. cbn [snd]. intros Hacc. unfold history_step.
  apply ensures_try_catch; [| intros e; now apply ensures_ret].
  eapply ensures_bind; [apply normalizeWorkout_ensures |]. intros r _.
  eapply ensures_bind with (P := fun b => DataValidators_workout r = Return b).
  - apply ensures_lift. auto.
  - intros b Hb. apply ensures_ret. cbn [snd].
    apply validate_workout_throws in Hb as Hb'. subst b.
    apply Forall_app. split; [exact Hacc | now constructor].
Qed.

Lemma getWorkoutHistory_ensures :
  ensures getWorkoutHistory
    (Forall (fun r => DataValidators_workout r = Return true)).
Proof.
  unfold getWorkoutHistory.
  eapply ensures_bind; [apply _getItem_ensures |]. intros v _.
  eapply ensures_bind with (P := fun _ => True).
  { destruct v; try apply ensures_throw. now apply ensures_ret. }
  intros workouts _.
  eapply ensures_bind; [apply history_string_ids_ensures |]. intros ids _.
  eapply ensures_bind
    with (P := fun st => Forall (fun r => DataValidators_workout r = Return true) (snd st)).
  - apply ensures_for_of; [constructor |]. intros st x Hst. now apply history_step_ensures.
  - intros st Hst. now apply ensures_ret.
Qed.

(** [getWorkoutHistory] writes nothing, whatever the store holds and
    whether it returns or throws, and every record it returns passes
    [DataValidators.workout]. *)
Theorem getWorkoutHistory_reads_valid_records :
  ensures getWorkoutHistory
    (Forall (fun r => DataValidators_workout r = Return true)).
Proof. exact getWorkoutHistory_ensures. Qed.

(** ** Settings *)

Lemma prop_union_l (a b : gmap string value) k v :
  a !! k = Some v -> prop (VObj (a ∪ b)) k = v.
Proof. intros H. unfold prop. now rewrite (lookup_union_Some_l _ _ _ _ H). Qed.

Lemma service_available w w' :
  service w' = service w -> isAvailable (service w) = true ->
  isAvailable (service w') = true.
Proof. now intros ->. Qed.

(** [getSettings] returns an object; it writes the settings item at most. *)
Lemma getSettings_any w :
  isAvailable (service w) = true ->
  exists m w1,
    getSettings w = (Return (VObj m), w1)
    /\ service w1 = service w
    /\ (forall k, k <> user_key w APP_SETTINGS ->
          localStorage w1 !! k = localStorage w !! k).
Proof.
  intros Ha. unfold getSettings. rewrite bind_run, (_getItem_run _ _ w Ha).
  set (cur := parse_or (localStorage w !! user_key w APP_SETTINGS) VNull).
  destruct (truthy cur) eqn:Ht; cbn [negb].
  - eexists _, w. split; [reflexivity |]. split; reflexivity.
  - unfold createDefaultSettings. rewrite !bind_run.
    destruct (returns_later_now_iso w) as (t & wa & -> & L & _).
    cbn [mret M_ret].
    assert (isAvailable (service wa) = true) as Haa by now rewrite (available_later _ _ L).
    match goal with |- context [saveSettings ?new] =>
      destruct (saveSettings_run new wa Haa eq_refl) as (f & wb & E & Lb & _)
    end.
    rewrite (user_key_later _ _ _ L) in E. rewrite bind_run, E. cbn [mret M_ret].
    eexists _, _. split; [reflexivity |]. cbn [service localStorage set_localStorage].
    split; [transitivity (service wa); [apply Lb | apply L] |].
    intros k Hk. rewrite lookup_insert_ne by congruence. now destruct L as (_ & -> & _).
Qed.

(** After [saveSettings] of an object that carries [totalWorkouts = n],
    [getSettings] reports that count. *)
Lemma saveSettings_total ms n w :
  isAvailable (service w) = true ->
  ms !! "totalWorkouts" = Some (VInt n) ->
  exists merged w1,
    saveSettings (VObj ms) w = (Return merged, w1)
    /\ service w1 = service w
    /\ (forall k, k <> user_key w APP_SETTINGS ->
          localStorage w1 !! k = localStorage w !! k)
    /\ exists S, getSettings w1 = (Return S, w1) /\ prop S "totalWorkouts" = VInt n.
Proof.
  intros Ha Hn.
  destruct (saveSettings_run (VObj ms) w Ha eq_refl) as (f & w' & E & L & _).
  cbv zeta in E.
  set (mm := <["firstUse" := f]> (own_props (VObj ms) ∪ _)) in E.
  rewrite E. eexists _, _. split; [reflexivity |].
  cbn [service localStorage set_localStorage].
  split; [apply L |]. split; [intros k Hk; now apply lookup_insert_ne |].
  exists (VObj (own_props (JSON_roundtrip (VObj mm)) ∪ own_props DEFAULT_SETTINGS)). split.
  - apply (getSettings_present (JSON_roundtrip (VObj mm))).
    + cbn [service set_localStorage]. now rewrite (available_later _ _ L).
    + cbn [localStorage set_localStorage]. unfold user_key at 1.
      cbn [service set_localStorage].
      replace (service w') with (service w) by (symmetry; apply L).
      apply lookup_insert_eq.
    + reflexivity.
  - cbn [own_props JSON_roundtrip]. apply prop_union_l.
    subst mm. rewrite lookup_omap, lookup_insert_ne by discriminate.
    cbn [own_props]. now rewrite (lookup_union_Some_l _ _ _ _ Hn).
Qed.

(** ** Keys *)

Lemma storage_key_ne w k k' :
  k ∈ storage_keys -> k' ∈ storage_keys -> k <> k' -> user_key w k <> user_key w k'.
Proof.
  intros Hk Hk' Hne. unfold user_key.
  destruct (userId (service w)) as [u |]; [| exact Hne].
  destruct (no_user (Some u)); [exact Hne |].
  intros E. apply Hne. revert Hk Hk' E. clear.
  unfold storage_keys, scoped. rewrite !elem_of_cons, !elem_of_nil.
  intros [-> | [-> | [-> | [-> | []]]]] [-> | [-> | [-> | [-> | []]]]]; cbn;
    first [reflexivity | discriminate].
Qed.

Lemma _removeItem_run key w :
  isAvailable (service w) = true ->
  _removeItem key w
  = (Return tt, set_localStorage (delete (user_key w key) (localStorage w)) w).
Proof.
  intros Ha. unfold _removeItem, user_key, _getUserScopedKey, scoped.
  rewrite bind_run. cbn [this]. rewrite Ha. cbn [negb].
  rewrite !bind_run. cbn [this].
  destruct (userId (service w)) as [u |]; [destruct (no_user (Some u)) |]; reflexivity.
Qed.

Lemma getWorkoutHistory_empty w :
  isAvailable (service w) = true ->
  parse_or (localStorage w !! user_key w WORKOUT_HISTORY) (VArr []) = VArr [] ->
  getWorkoutHistory w = (Return [], w).
Proof.
  intros Ha He. unfold getWorkoutHistory.
  rewrite bind_run, (_getItem_run _ _ w Ha), He. reflexivity.
Qed.

(** ** Clearing *)

(** [clearWorkoutHistory] on an available backend returns true; afterwards
    the history is empty, the settings report no workout, and the
    preferences are what they were. *)
Theorem clearWorkoutHistory_empties (w : World) :
  isAvailable (service w) = true ->
  exists w',
    clearWorkoutHistory w = (Return true, w')
    /\ getWorkoutHistory w' = (Return [], w')
    /\ (exists S, getSettings w' = (Return S, w') /\ prop S "totalWorkouts" = VInt 0)
    /\ getPreferences w' = (fst (getPreferences w), w').
Proof.
  intros Ha.
  assert (WORKOUT_HISTORY ∈ storage_keys /\ USER_PREFERENCES ∈ storage_keys
          /\ APP_SETTINGS ∈ storage_keys) as (K1 & K2 & K3)
    by (unfold storage_keys; rewrite !elem_of_cons; tauto).
  pose proof (storage_key_ne w _ _ K1 K3 ltac:(discriminate)) as Khs.
  pose proof (storage_key_ne w _ _ K2 K3 ltac:(discriminate)) as Kps.
  pose proof (storage_key_ne w _ _ K2 K1 ltac:(discriminate)) as Kph.
  unfold clearWorkoutHistory. rewrite bind_run, (_setItem_run _ _ w Ha), json_array.
  cbn [map].
  set (w1 := set_localStorage _ w).
  assert (service w1 = service w) as S1 by reflexivity.
  destruct (getSettings_any w1 Ha) as (m & w2 & E2 & S2 & O2).
  rewrite (user_key_service _ _ _ S1) in O2.
  rewrite bind_run, E2.
  assert (isAvailable (service w2) = true) as Ha2 by (rewrite S2; exact Ha).
  destruct (saveSettings_total (<["totalWorkouts" := VInt 0]> m) 0 w2 Ha2
              (lookup_insert_eq _ _ _))
    as (merged & w3 & E3 & S3 & O3 & S & ES & HS).
  cbn [own_props]. rewrite bind_run, E3. cbn [mret M_ret].
  assert (service w3 = service w) as S3' by congruence.
  rewrite (user_key_service _ _ _ (eq_trans S2 S1)) in O3.
  assert (isAvailable (service w3) = true) as Ha3 by (rewrite S3'; exact Ha).
  exists w3. split; [reflexivity |]. split; [| split].
  - apply getWorkoutHistory_empty; [exact Ha3 |].
    rewrite (user_key_service _ _ _ S3'), O3, O2 by exact Khs.
    subst w1. cbn [localStorage set_localStorage]. now rewrite lookup_insert_eq.
  - exists S. auto.
  - rewrite (getPreferences_run w3 Ha3), (getPreferences_run w Ha). cbn [fst].
    rewrite (user_key_service _ _ _ S3'), O3, O2 by exact Kps.
    subst w1. cbn [localStorage set_localStorage]. now rewrite lookup_insert_ne by exact (not_eq_sym Kph).
Qed.

Lemma clearWorkoutHistory_empties_witness :
  let w := initial_world (frozen_at T0) legacy_store in
  isAvailable (service w) = true
  /\ exists w',
       clearWorkoutHistory w = (Return true, w')
       /\ getWorkoutHistory w' = (Return [], w')
       /\ (exists S, getSettings w' = (Return S, w') /\ prop S "totalWorkouts" = VInt 0)
       /\ getPreferences w' = (fst (getPreferences w), w').
Proof.
  exact (conj eq_refl
           (clearWorkoutHistory_empties (initial_world (frozen_at T0) legacy_store) eq_refl)).
Defined.

Lemma read_preferences_default : read_preferences None = DEFAULT_PREFERENCES.
Proof. vm_compute. reflexivity. Qed.

(** [clearAllData] on an available backend removes the four items of the
    current user scope and nothing else.  Afterwards the history is empty,
    the preferences are the defaults and the data version is the schema
    version. *)
Theorem clearAllData_clears (w : World) :
  isAvailable (service w) = true ->
  exists w',
    clearAllData w = (Return true, w')
    /\ service w' = service w
    /\ (forall key, key ∈ storage_keys -> localStorage w' !! user_key w key = None)
    /\ (forall k, (forall key, key ∈ storage_keys -> k <> user_key w key) ->
          localStorage w' !! k = localStorage w !! k)
    /\ getWorkoutHistory w' = (Return [], w')
    /\ getPreferences w' = (Return DEFAULT_PREFERENCES, w')
    /\ getDataVersion w' = (Return (VStr DATA_SCHEMA_VERSION), w').
Proof.
  intros Ha. unfold clearAllData. cbn [for_of].
  rewrite !bind_run, (_removeItem_run _ w Ha).
  set (w1 := set_localStorage _ w).
  rewrite !bind_run, (_removeItem_run _ w1 Ha).
  set (w2 := set_localStorage _ w1).
  rewrite !bind_run, (_removeItem_run _ w2 Ha).
  set (w3 := set_localStorage _ w2).
  rewrite !bind_run, (_removeItem_run _ w3 Ha).
  set (w4 := set_localStorage _ w3). cbn [mret M_ret].
  assert (forall key, key ∈ storage_keys -> localStorage w4 !! user_key w key = None) as Hgone.
  { intros key. unfold storage_keys. rewrite !elem_of_cons, elem_of_nil.
    subst w4 w3 w2 w1. cbn [localStorage set_localStorage].
    change (user_key (set_localStorage _ _) ?k) with (user_key w k).
    intros [-> | [-> | [-> | [-> | []]]]];
      repeat first [apply lookup_delete_eq | rewrite lookup_delete_None; right]. }
  assert (WORKOUT_HISTORY ∈ storage_keys /\ USER_PREFERENCES ∈ storage_keys
          /\ DATA_VERSION ∈ storage_keys) as (K1 & K2 & K4)
    by (unfold storage_keys; rewrite !elem_of_cons; tauto).
  exists w4. split; [reflexivity |]. split; [reflexivity |]. split; [exact Hgone |].
  split; [| split; [| split]].
  - intros k Hk. subst w4 w3 w2 w1. cbn [localStorage set_localStorage].
    change (user_key (set_localStorage _ _) ?k) with (user_key w k).
    rewrite !lookup_delete_ne; [reflexivity | ..];
      apply not_eq_sym, Hk; unfold storage_keys; rewrite !elem_of_cons; tauto.
  - apply getWorkoutHistory_empty; [exact Ha |].
    change (user_key w4 ?k) with (user_key w k). now rewrite (Hgone _ K1).
  - rewrite (getPreferences_run w4 Ha). change (user_key w4 ?k) with (user_key w k).
    now rewrite (Hgone _ K2), read_preferences_default.
  - unfold getDataVersion. rewrite (_getItem_run _ _ w4 Ha).
    change (user_key w4 ?k) with (user_key w k). now rewrite (Hgone _ K4).
Qed.

Lemma clearAllData_clears_witness :
  let w := initial_world (frozen_at T0) legacy_store in
  isAvailable (service w) = true
  /\ exists w',
       clearAllData w = (Return true, w')
       /\ service w' = service w
       /\ (forall key, key ∈ storage_keys -> localStorage w' !! user_key w key = None)
       /\ (forall k, (forall key, key ∈ storage_keys -> k <> user_key w key) ->
             localStorage w' !! k = localStorage w !! k)
       /\ getWorkoutHistory w' = (Return [], w')
       /\ getPreferences w' = (Return DEFAULT_PREFERENCES, w')
       /\ getDataVersion w' = (Return (VStr DATA_SCHEMA_VERSION), w').
Proof.
  exact (conj eq_refl
           (clearAllData_clears (initial_world (frozen_at T0) legacy_store) eq_refl)).
Defined.

(** ** The data version *)



(** ** Preferences *)

Lemma _setItem_unavailable key v w :
  isAvailable (service w) = false ->
  _setItem key v w = (Throw (JsError "localStorage is not available"), w).
Proof.
  intros Ha. unfold _setItem. rewrite bind_run. cbn [this]. now rewrite Ha.
Qed.

(** [savePreferences] of a JSON value either throws and writes nothing, or
    returns the merged preferences, and these are what [getPreferences]
    returns afterwards. *)
Theorem savePreferences_then_getPreferences (preferences : value) (w : World) :
  stored_json preferences ->
  match savePreferences preferences w with
  | (Return merged, w') => getPreferences w' = (Return merged, w')
  | (Throw _, w') => w' = w
  end.
Proof.
  intros Hp. unfold savePreferences. cbv zeta.
  set (m := spread (own_props DEFAULT_PREFERENCES) (own_props preferences)).
  rewrite bind_run. unfold lift.
  destruct (DataValidators_preferences (VObj m)) as [b | e] eqn:Ev; [| reflexivity].
  rewrite bind_run.
  destruct (isAvailable (service w)) eqn:Ha;
    [| now rewrite (_setItem_unavailable _ _ w Ha)].
  assert (stored_json (VObj m)) as [_ Hj].
  { apply stored_json_object, stored_json_union.
    - now apply stored_json_props.
    - apply stored_json_props, DEFAULT_PREFERENCES_stored. }
  rewrite (_setItem_run _ _ w Ha), Hj. cbn [mret M_ret].
  rewrite getPreferences_run by exact Ha. cbn [localStorage set_localStorage].
  change (user_key (set_localStorage _ _) ?k) with (user_key w k).
  rewrite lookup_insert_eq. unfold read_preferences. cbn [parse_or]. cbv zeta. rewrite Ev.
  cbn [own_props]. subst m. unfold spread. now rewrite union_absorb.
Qed.

Lemma savePreferences_then_getPreferences_witness :
  let preferences := object [("unit", VStr "kg")] in
  let w := initial_world (frozen_at T0) legacy_store in
  stored_json preferences
  /\ match savePreferences preferences w with
     | (Return merged, w') => getPreferences w' = (Return merged, w')
     | (Throw _, w') => w' = w
     end.
Proof.
  intros preferences w.
  assert (stored_json preferences) as H by (split; [discriminate | vm_compute; reflexivity]).
  exact (conj H (savePreferences_then_getPreferences preferences w H)).
Defined.

(** The preferences of the witness are accepted, a unit that is neither
    lbs nor kg is refused. *)
Example savePreferences_refuses_unit :
  fst (savePreferences (object [("unit", VStr "stone")])
         (initial_world (frozen_at T0) legacy_store))
  = Throw (JsError ("Unit preference must be either " ++ quote ++ "lbs" ++ quote
                    ++ " or " ++ quote ++ "kg" ++ quote)).
Proof. vm_compute. reflexivity. Qed.

(** ** The first use *)

(** Once the stored settings carry a [firstUse], no [saveSettings] replaces
    it: whatever object is saved, the merged settings and the settings read
    afterwards bear the stored [firstUse]. *)
Theorem saveSettings_keeps_firstUse (settings current : value) (w : World) :
  isAvailable (service w) = true ->
  localStorage w !! user_key w APP_SETTINGS = Some current ->
  stored_json current ->
  truthy (prop current "firstUse") = true ->
  nullish settings = false ->
  exists merged w',
    saveSettings settings w = (Return merged, w')
    /\ prop merged "firstUse" = prop current "firstUse"
    /\ exists S,
         getSettings w' = (Return S, w')
         /\ prop S "firstUse" = prop current "firstUse".
Proof.
  intros Ha Hc Hj Ht Hs.
  destruct (saveSettings_run settings w Ha Hs) as (f & w1 & E & L & Hf & _).
  cbv zeta in E, Hf. rewrite Hc in E, Hf.
  assert (parse_or (Some current) VNull = current) as Ec by (now destruct current).
  rewrite Ec in E, Hf. specialize (Hf Ht). subst f.
  set (mm := <["firstUse" := prop current "firstUse"]> _) in E.
  assert (stored_json (prop current "firstUse")) as [_ Hfj].
  { destruct current as [| | | | | |m]; try discriminate Ht. now apply prop_stored. }
  rewrite E. eexists _, _. split; [reflexivity |].
  split; [unfold prop, mm; now rewrite lookup_insert_eq |].
  exists (VObj (own_props (JSON_roundtrip (VObj mm)) ∪ own_props DEFAULT_SETTINGS)). split.
  - apply (getSettings_present (JSON_roundtrip (VObj mm))).
    + cbn [service set_localStorage]. now rewrite (available_later _ _ L).
    + cbn [localStorage set_localStorage]. unfold user_key at 1.
      cbn [service set_localStorage].
      replace (service w1) with (service w) by (symmetry; apply L).
      apply lookup_insert_eq.
    + reflexivity.
  - cbn [own_props JSON_roundtrip]. apply prop_union_l.
    subst mm. rewrite lookup_omap, lookup_insert_eq. cbn.
    destruct (prop current "firstUse"); try discriminate Ht; now rewrite ?Hfj.
Qed.

Lemma saveSettings_keeps_firstUse_witness :
  let settings := object [("firstUse", VStr "2025-01-01T00:00:00.000Z")] in
  let current := object [("totalWorkouts", VInt 1);
                         ("firstUse", VStr "2023-12-29T23:07:14.567Z")] in
  let w := initial_world (frozen_at T0) legacy_store in
  isAvailable (service w) = true
  /\ localStorage w !! user_key w APP_SETTINGS = Some current
  /\ stored_json current
  /\ truthy (prop current "firstUse") = true
  /\ nullish settings = false
  /\ exists merged w',
       saveSettings settings w = (Return merged, w')
       /\ prop merged "firstUse" = prop current "firstUse"
       /\ exists S,
            getSettings w' = (Return S, w')
            /\ prop S "firstUse" = prop current "firstUse".
Proof.
  intros settings current w.
  assert (localStorage w !! user_key w APP_SETTINGS = Some current) as H1 by reflexivity.
  assert (stored_json current) as H2 by (split; [discriminate | vm_compute; reflexivity]).
  exact (conj eq_refl (conj H1 (conj H2 (conj eq_refl (conj eq_refl
           (saveSettings_keeps_firstUse settings current w eq_refl H1 H2 eq_refl eq_refl)))))).
Defined.

(** ** Deleting a record *)

Lemma findIndex_None (p : value -> bool) l :
  Forall (fun r => p r = false) l -> findIndex p l = None.
Proof. induction 1 as [|x l Hx _ IH]; cbn; [reflexivity |]. now rewrite Hx, IH. Qed.



(** ** Saving a record *)

Lemma json_records xs L :
  Forall (fun x => kept_record x /\ validates x = true) xs ->
  Forall2 reads_as xs L ->
  Forall (fun y => kept_record y /\ validates y = true)
         (map (JSON_element JSON_roundtrip) L).
Proof.
  intros Hxs HL. induction HL as [|x r xs L Hr _ IH]; [constructor |].
  apply Forall_cons in Hxs as [[Hk Hv] Hxs]. cbn [map].
  constructor; [now apply (json_record x) | now apply IH].
Qed.

Lemma strict_eq_str v s : strict_eq v (VStr s) = true <-> v = VStr s.
Proof.
  destruct v as [| | | [| |] | s' | |]; cbn; try (split; [discriminate | congruence]).
  rewrite String.eqb_eq. split; congruence.
Qed.

Lemma reads_of_other_id x xs L r :
  modern_id (prop x "id") = true ->
  Forall (fun y => prop y "id" <> prop x "id") xs ->
  Forall2 reads_as xs L ->
  reads_as x r ->
  Forall (fun y => strict_eq (prop y "id") (prop r "id") = false) L.
Proof.
  intros Hid Hxs HL Hr. rewrite (reads_as_id _ _ Hr).
  destruct (modern_id_string _ Hid) as [s Hs]. rewrite Hs in *.
  induction HL as [|y o xs L Ho _ IH]; [constructor |].
  apply Forall_cons in Hxs as [Hy Hxs]. constructor; [| now apply IH].
  rewrite (reads_as_id _ _ Ho).
  destruct (strict_eq (prop y "id") (VStr s)) eqn:E; [| reflexivity].
  now apply strict_eq_str in E.
Qed.

(** On a store whose records keep their ids, [saveWorkout] of a valid
    record with a modern id that no stored record bears returns the
    normalised record under that id; afterwards the history has one record
    more, the new record comes first under the same id, and the settings
    report the new count. *)
Theorem saveWorkout_adds_record (x : value) (w : World) :
  isAvailable (service w) = true ->
  (forall v, localStorage w !! user_key w WORKOUT_HISTORY = Some v ->
     exists items, v = VArr items /\ Forall kept_record items) ->
  kept_record x -> validates x = true ->
  Forall (fun y => prop y "id" <> prop x "id") (stored_history w) ->
  exists r w' before after rest first wb wa,
    saveWorkout x w = (Return r, w')
    /\ prop r "id" = prop x "id"
    /\ getWorkoutHistory w = (Return before, wb)
    /\ getWorkoutHistory w' = (Return after, wa)
    /\ after = first :: rest
    /\ prop first "id" = prop x "id"
    /\ length after = S (length before)
    /\ exists S, getSettings w' = (Return S, w')
                 /\ prop S "totalWorkouts" = VInt (Z.of_nat (length after)).
Proof.
  intros Ha Hh Hx Hv Hnew.
  assert (WORKOUT_HISTORY ∈ storage_keys /\ APP_SETTINGS ∈ storage_keys) as (K1 & K3)
    by (unfold storage_keys; rewrite !elem_of_cons; tauto).
  pose proof (storage_key_ne w _ _ K1 K3 ltac:(discriminate)) as Khs.
  destruct (getWorkoutHistory_run w Ha Hh) as (L0 & wb & Eb & Lb & Hk & HL0).
  pose proof (filter_valid_kept _ Hk) as Hxs.
  set (xs := List.filter validates (stored_history w)) in *.
  assert (Forall (fun y => prop y "id" <> prop x "id") xs) as Hnew'.
  { subst xs. clear -Hnew. induction Hnew as [|y l Hy _ IH]; cbn; [constructor |].
    destruct (validates y); [now constructor | exact IH]. }
  destruct (string_ids_run L0 wb) as (ids & Eids & _).
  { clear -HL0. induction HL0 as [|? r ? ? Hr _ IH]; constructor; [| exact IH].
    eapply reads_as_object, Hr. }
  pose proof Hx as (Hxn & Hxid & _).
  destruct (normalize_kept x (IdsSet ids) Hxn Hxid wb) as (r & wc & Ec & Lc & Hr).
  assert (DataValidators_workout r = Return true) as Hval
    by now apply (reads_as_valid x r Hxid Hr).
  assert (later w wc) as Lwc by (eapply later_trans; eassumption).
  assert (service wc = service w) as Swc by apply Lwc.
  assert (isAvailable (service wc) = true) as Hac by now rewrite Swc.
  unfold saveWorkout.
  rewrite bind_run, Eb, bind_run, Eids, bind_run, Ec, bind_run. unfold lift at 1.
  rewrite Hval. cbv zeta.
  rewrite (findIndex_None _ _ (reads_of_other_id x xs L0 r Hxid Hnew' HL0 Hr)).
  rewrite bind_run, (_setItem_run _ _ wc Hac), json_array, (user_key_service _ _ _ Swc).
  set (stored := map (JSON_element JSON_roundtrip) (r :: L0)).
  set (w1 := set_localStorage _ wc).
  assert (service w1 = service w) as S1 by exact Swc.
  assert (isAvailable (service w1) = true) as Ha1 by exact Hac.
  destruct (getSettings_any w1 Ha1) as (m & w2 & E2 & S2 & O2).
  rewrite (user_key_service _ _ _ S1) in O2. rewrite bind_run, E2.
  assert (isAvailable (service w2) = true) as Ha2 by (rewrite S2; exact Ha1).
  destruct (saveSettings_total
              (<["totalWorkouts" := VInt (Z.of_nat (length (r :: L0)))]> m) _ w2 Ha2
              (lookup_insert_eq _ _ _))
    as (merged & w3 & E3 & S3 & O3 & S & ES & HS).
  cbn [own_props]. rewrite bind_run, E3. cbn [mret M_ret].
  rewrite (user_key_service _ _ _ (eq_trans S2 S1)) in O3.
  assert (service w3 = service w) as S3' by congruence.
  assert (isAvailable (service w3) = true) as Ha3 by (rewrite S3'; exact Ha).
  assert (localStorage w3 !! user_key w WORKOUT_HISTORY = Some (VArr stored)) as Hst.
  { rewrite O3, O2 by exact Khs. subst w1. cbn [localStorage set_localStorage].
    apply lookup_insert_eq. }
  assert (Forall (fun y => kept_record y /\ validates y = true) stored) as Hstored.
  { subst stored. apply (json_records (x :: xs)); constructor; auto. }
  destruct (getWorkoutHistory_run w3 Ha3) as (after & wa & Ea & _ & _ & Hafter).
  { rewrite (user_key_service _ _ _ S3'), Hst. intros v [= <-]. exists stored.
    split; [reflexivity |]. eapply Forall_impl; [exact Hstored | now intros y [? _]]. }
  unfold stored_history in Hafter. rewrite (user_key_service _ _ _ S3'), Hst in Hafter.
  rewrite filter_all in Hafter
    by (eapply Forall_impl; [exact Hstored | now intros y [_ ?]]).
  subst stored. cbn [map] in Hafter.
  apply Forall2_cons_inv_l in Hafter as (first & rest & Hfirst & Hrest & ->).
  exists r, w3, L0, (first :: rest), rest, first, wb, wa.
  split; [reflexivity |]. split; [apply (reads_as_id _ _ Hr) |].
  split; [reflexivity |]. split; [exact Ea |]. split; [reflexivity |].
  assert (length rest = length L0) as Hlen.
  { rewrite <- (Forall2_length _ _ _ Hrest). apply length_map. }
  split; [| split].
  - rewrite (reads_as_id _ _ Hfirst).
    destruct Hr as (d & c & u & -> & _). rewrite json_record_prop.
    destruct (modern_id_string _ Hxid) as [s Hs].
    change (prop (normalized_record x (prop x "id") d c u) "id") with (prop x "id").
    now rewrite Hs.
  - cbn [length]. now rewrite Hlen.
  - exists S. split; [exact ES |]. cbn [length] in HS |- *. now rewrite Hlen.
Qed.

Lemma saveWorkout_adds_record_witness :
  let w := initial_world (running_env T0) legacy_store in
  isAvailable (service w) = true
  /\ (forall v, localStorage w !! user_key w WORKOUT_HISTORY = Some v ->
        exists items, v = VArr items /\ Forall kept_record items)
  /\ kept_record bench_press /\ validates bench_press = true
  /\ Forall (fun y => prop y "id" <> prop bench_press "id") (stored_history w)
  /\ exists r w' before after rest first wb wa,
       saveWorkout bench_press w = (Return r, w')
       /\ prop r "id" = prop bench_press "id"
       /\ getWorkoutHistory w = (Return before, wb)
       /\ getWorkoutHistory w' = (Return after, wa)
       /\ after = first :: rest
       /\ prop first "id" = prop bench_press "id"
       /\ length after = S (length before)
       /\ exists S, getSettings w' = (Return S, w')
                    /\ prop S "totalWorkouts" = VInt (Z.of_nat (length after)).
Proof.
  intros w.
  assert (forall v, localStorage w !! user_key w WORKOUT_HISTORY = Some v ->
            exists items, v = VArr items /\ Forall kept_record items) as Hh.
  { change (user_key w WORKOUT_HISTORY) with WORKOUT_HISTORY.
    change (localStorage w) with legacy_store. unfold legacy_store.
    rewrite lookup_insert_eq. intros v [= <-]. eexists. split; [reflexivity |].
    constructor; [| constructor].
    split; [reflexivity |]. split; [vm_compute; reflexivity |].
    split; vm_compute; discriminate. }
  assert (kept_record bench_press) as Hx.
  { split; [reflexivity |]. split; [vm_compute; reflexivity |].
    split; vm_compute; discriminate. }
  assert (validates bench_press = true) as Hv by (vm_compute; reflexivity).
  assert (Forall (fun y => prop y "id" <> prop bench_press "id") (stored_history w)) as Hnew.
  { unfold stored_history. change (user_key w WORKOUT_HISTORY) with WORKOUT_HISTORY.
    change (localStorage w) with legacy_store. unfold legacy_store.
    rewrite lookup_insert_eq. constructor; [| constructor].
    vm_compute. discriminate. }
  exact (conj eq_refl (conj Hh (conj Hx (conj Hv (conj Hnew
           (saveWorkout_adds_record bench_press w eq_refl Hh Hx Hv Hnew)))))).
Defined.

(** ** Deleting a stored record *)

Lemma Forall2_filter_r {A B} (R : A -> B -> Prop) (P : A -> Prop) (p : B -> bool) xs L :
  Forall P xs -> Forall2 R xs L ->
  exists xs', Forall P xs' /\ Forall2 R xs' (List.filter p L).
Proof.
  intros Hxs HL. induction HL as [|x r xs L Hr _ IH]; [exists []; split; constructor |].
  apply Forall_cons in Hxs as [Hx Hxs]. destruct (IH Hxs) as (xs' & H1 & H2).
  cbn [List.filter]. destruct (p r).
  - exists (x :: xs'). split; constructor; assumption.
  - exists xs'. split; assumption.
Qed.

Lemma reread_record_ids xs L :
  Forall2 reads_as xs L ->
  map (fun r => prop r "id") L = map (fun r => prop r "id") xs.
Proof.
  induction 1 as [|x r xs L Hr _ IH]; [reflexivity |]. cbn [map].
  now rewrite (reads_as_id _ _ Hr), IH.
Qed.

Lemma json_record_ids xs L :
  Forall (fun x => kept_record x /\ validates x = true) xs ->
  Forall2 reads_as xs L ->
  map (fun r => prop r "id") (map (JSON_element JSON_roundtrip) L)
  = map (fun r => prop r "id") L.
Proof.
  intros Hxs HL. induction HL as [|x r xs L Hr _ IH]; [reflexivity |].
  apply Forall_cons in Hxs as [[(_ & Hid & _) _] Hxs]. cbn [map].
  rewrite (IH Hxs). f_equal.
  destruct Hr as (d & c & u & -> & _). rewrite json_record_prop.
  destruct (modern_id_string _ Hid) as [s Hs].
  change (prop (normalized_record x (prop x "id") d c u) "id") with (prop x "id").
  now rewrite Hs.
Qed.

Lemma ids_Forall (q : value -> bool) (A B : list value) :
  map (fun r => prop r "id") A = map (fun r => prop r "id") B ->
  Forall (fun r => q (prop r "id") = true) B ->
  Forall (fun r => q (prop r "id") = true) A.
Proof.
  revert B. induction A as [|a A IH]; intros [|b B] E HB; try discriminate; [constructor |].
  cbn [map] in E. injection E as Ea E. apply Forall_cons in HB as [Hb HB].
  constructor; [now rewrite Ea | now apply (IH B)].
Qed.

Lemma filter_Forall {A} (p : A -> bool) l : Forall (fun x => p x = true) (List.filter p l).
Proof.
  induction l as [|x l IH]; cbn; [constructor |].
  destruct (p x) eqn:E; [now constructor | exact IH].
Qed.

(** On a store whose records keep their ids, once [deleteWorkout(id)] has
    returned, the history read afterwards holds the records that did not
    bear the id, in their order, and none that bears it; it is shorter than
    before, and the settings report the new count. *)
Theorem deleteWorkout_removes_record (workoutId : value) (w : World) b w' :
  isAvailable (service w) = true ->
  (forall v, localStorage w !! user_key w WORKOUT_HISTORY = Some v ->
     exists items, v = VArr items /\ Forall kept_record items) ->
  deleteWorkout workoutId w = (Return b, w') ->
  exists before wb after wa,
    getWorkoutHistory w = (Return before, wb)
    /\ getWorkoutHistory w' = (Return after, wa)
    /\ map (fun r => prop r "id") after
       = map (fun r => prop r "id")
           (List.filter (fun r => negb (strict_eq (prop r "id") workoutId)) before)
    /\ Forall (fun r => strict_eq (prop r "id") workoutId = false) after
    /\ (length after < length before)%nat
    /\ exists S, getSettings w' = (Return S, w')
                 /\ prop S "totalWorkouts" = VInt (Z.of_nat (length after)).
Proof.
  intros Ha Hh.
  assert (WORKOUT_HISTORY ∈ storage_keys /\ APP_SETTINGS ∈ storage_keys) as (K1 & K3)
    by (unfold storage_keys; rewrite !elem_of_cons; tauto).
  pose proof (storage_key_ne w _ _ K1 K3 ltac:(discriminate)) as Khs.
  destruct (getWorkoutHistory_run w Ha Hh) as (L0 & wb & Eb & Lb & Hk & HL0).
  pose proof (filter_valid_kept _ Hk) as Hxs.
  set (xs := List.filter validates (stored_history w)) in *.
  set (p := fun r => negb (strict_eq (prop r "id") workoutId)).
  destruct (Forall2_filter_r reads_as _ p xs L0 Hxs HL0) as (xs' & Hxs' & HF).
  assert (service wb = service w) as Swb by apply Lb.
  assert (isAvailable (service wb) = true) as Hab by now rewrite Swb.
  unfold deleteWorkout. rewrite bind_run, Eb. cbv zeta. fold p.
  destruct (length (List.filter p L0) =? length L0)%nat eqn:Elen; [discriminate |].
  apply Nat.eqb_neq in Elen.
  rewrite bind_run, (_setItem_run _ _ wb Hab), json_array, (user_key_service _ _ _ Swb).
  set (stored := map (JSON_element JSON_roundtrip) (List.filter p L0)).
  set (w1 := set_localStorage _ wb).
  assert (service w1 = service w) as S1 by exact Swb.
  assert (isAvailable (service w1) = true) as Ha1 by exact Hab.
  destruct (getSettings_any w1 Ha1) as (m & w2 & E2 & S2 & O2).
  rewrite (user_key_service _ _ _ S1) in O2. rewrite bind_run, E2.
  assert (isAvailable (service w2) = true) as Ha2 by (rewrite S2; exact Ha1).
  destruct (saveSettings_total
              (<["totalWorkouts" := VInt (Z.of_nat (length (List.filter p L0)))]> m) _ w2 Ha2
              (lookup_insert_eq _ _ _))
    as (merged & w3 & E3 & S3 & O3 & S & ES & HS).
  cbn [own_props]. rewrite bind_run, E3. cbn [mret M_ret].
  rewrite (user_key_service _ _ _ (eq_trans S2 S1)) in O3.
  assert (service w3 = service w) as S3' by congruence.
  assert (isAvailable (service w3) = true) as Ha3 by (rewrite S3'; exact Ha).
  assert (localStorage w3 !! user_key w WORKOUT_HISTORY = Some (VArr stored)) as Hst.
  { rewrite O3, O2 by exact Khs. subst w1. cbn [localStorage set_localStorage].
    apply lookup_insert_eq. }
  assert (Forall (fun y => kept_record y /\ validates y = true) stored) as Hstored.
  { subst stored. now apply (json_records xs'). }
  destruct (getWorkoutHistory_run w3 Ha3) as (after & wa & Ea & _ & _ & Hafter).
  { rewrite (user_key_service _ _ _ S3'), Hst. intros v [= <-]. exists stored.
    split; [reflexivity |]. eapply Forall_impl; [exact Hstored | now intros y [? _]]. }
  unfold stored_history in Hafter. rewrite (user_key_service _ _ _ S3'), Hst in Hafter.
  rewrite filter_all in Hafter
    by (eapply Forall_impl; [exact Hstored | now intros y [_ ?]]).
  assert (map (fun r => prop r "id") after
          = map (fun r => prop r "id") (List.filter p L0)) as Hids.
  { rewrite (reread_record_ids _ _ Hafter). subst stored.
    now apply (json_record_ids xs'). }
  assert (length after = length (List.filter p L0)) as Hlen.
  { apply (f_equal (@length value)) in Hids. now rewrite !length_map in Hids. }
  intros [= <- <-].
  exists L0, wb, after, wa.
  split; [reflexivity |]. split; [exact Ea |]. split; [exact Hids |].
  split; [| split].
  - eapply Forall_impl.
    + apply (ids_Forall (fun i => negb (strict_eq i workoutId)) _ _ Hids), (filter_Forall p).
    + intros r Hr. now apply negb_true_iff.
  - rewrite Hlen. pose proof (List.filter_length_le p L0). lia.
  - exists S. split; [exact ES |]. now rewrite Hlen.
Qed.

Lemma deleteWorkout_removes_record_witness :
  let w := initial_world (frozen_at T0) legacy_store in
  let workoutId := VStr "1703891234567_a3f7c9" in
  isAvailable (service w) = true
  /\ (forall v, localStorage w !! user_key w WORKOUT_HISTORY = Some v ->
        exists items, v = VArr items /\ Forall kept_record items)
  /\ exists b w',
       deleteWorkout workoutId w = (Return b, w')
       /\ exists before wb after wa,
            getWorkoutHistory w = (Return before, wb)
            /\ getWorkoutHistory w' = (Return after, wa)
            /\ map (fun r => prop r "id") after
               = map (fun r => prop r "id")
                   (List.filter (fun r => negb (strict_eq (prop r "id") workoutId)) before)
            /\ Forall (fun r => strict_eq (prop r "id") workoutId = false) after
            /\ (length after < length before)%nat
            /\ exists S, getSettings w' = (Return S, w')
                         /\ prop S "totalWorkouts" = VInt (Z.of_nat (length after)).
Proof.
  intros w workoutId.
  assert (forall v, localStorage w !! user_key w WORKOUT_HISTORY = Some v ->
            exists items, v = VArr items /\ Forall kept_record items) as Hh.
  { change (user_key w WORKOUT_HISTORY) with WORKOUT_HISTORY.
    change (localStorage w) with legacy_store. unfold legacy_store.
    rewrite lookup_insert_eq. intros v [= <-]. eexists. split; [reflexivity |].
    constructor; [| constructor].
    split; [reflexivity |]. split; [vm_compute; reflexivity |].
    split; vm_compute; discriminate. }
  split; [reflexivity |]. split; [exact Hh |].
  destruct (deleteWorkout workoutId w) as [[b | e] w'] eqn:E.
  - exists b, w'. split; [reflexivity |].
    exact (deleteWorkout_removes_record workoutId w b w' eq_refl Hh E).
  - exfalso. assert (fst (deleteWorkout workoutId w) = Throw e) as H by (now rewrite E).
    vm_compute in H. discriminate H.
Defined.

(** ** The user scope *)

Lemma same_service_refl w : same_service w w.
Proof. reflexivity. Qed.

Lemma same_service_trans w1 w2 w3 :
  same_service w1 w2 -> same_service w2 w3 -> same_service w1 w3.
Proof. unfold same_service. congruence. Qed.

Lemma same_service_later w w' : later w w' -> same_service w w'.
Proof. intros L. apply L. Qed.

Lemma ss_ensures {A} (m : M A) (P : A -> Prop) : ensures m P -> preserves same_service m.
Proof. apply preserves_of_ensures, same_service_later. Qed.

Lemma ss_bind {A B} (m : M A) (f : A -> M B) :
  preserves same_service m -> (forall a, preserves same_service (f a)) ->
  preserves same_service (m ≫= f).
Proof. apply preserves_bind, same_service_trans. Qed.

Lemma ss_ret {A} (a : A) : preserves same_service (mret a).
Proof. apply preserves_ret, same_service_refl. Qed.

Lemma ss_setItem key v : preserves same_service (_setItem key v).
Proof.
  intros w. destruct (isAvailable (service w)) eqn:Ha.
  - now rewrite (_setItem_run _ _ w Ha).
  - now rewrite (_setItem_unavailable _ _ w Ha).
Qed.

Lemma ss_getPreferences : preserves same_service getPreferences.
Proof.
  unfold getPreferences. apply ss_bind; [eapply ss_ensures, _getItem_ensures |].
  intros v. apply (preserves_try_catch _ same_service_trans).
  - apply ss_bind; [| intros; apply ss_ret].
    eapply ss_ensures, ensures_lift. intros a _. exact I.
  - intros e. apply ss_ret.
Qed.

Lemma ss_saveSettings settings : preserves same_service (saveSettings settings).
Proof.
  unfold saveSettings. apply ss_bind; [eapply ss_ensures, _getItem_ensures |].
  intros current. cbv zeta. apply ss_bind.
  - destruct (truthy _); [apply ss_ret |].
    destruct (nullish settings); [apply preserves_throw, same_service_refl |].
    destruct (truthy _); [apply ss_ret |].
    eapply ss_ensures, ensures_of_returns.
    eapply returns_later_fmap with (Q := fun _ => True);
      [apply returns_later_now_iso | auto].
  - intros f. apply ss_bind; [apply ss_setItem | intros; apply ss_ret].
Qed.

Lemma ss_getSettings : preserves same_service getSettings.
Proof.
  unfold getSettings. apply ss_bind; [eapply ss_ensures, _getItem_ensures |].
  intros v. destruct (negb (truthy v)); [| apply ss_ret].
  apply ss_bind.
  - unfold createDefaultSettings. apply ss_bind; [| intros; apply ss_ret].
    eapply ss_ensures, ensures_of_returns, returns_later_now_iso.
  - intros new. apply ss_bind; [apply ss_saveSettings | intros; apply ss_ret].
Qed.

Lemma ss_promise_all3 {A B C} (a : M A) (b : M B) (c : M C) :
  preserves same_service a -> preserves same_service b -> preserves same_service c ->
  preserves same_service (promise_all3 a b c).
Proof.
  intros Pa Pb Pc w. unfold promise_all3.
  specialize (Pa w). destruct (a w) as [ra w1].
  specialize (Pb w1). destruct (b w1) as [rb w2].
  specialize (Pc w2). destruct (c w2) as [rc w3]. cbn [snd] in *.
  assert (same_service w w3) as H
    by (eapply same_service_trans; [eassumption |];
        eapply same_service_trans; eassumption).
  destruct ra, rb, rc; exact H.
Qed.

(** [getAllUserData] puts the user scope of the backend back to what it
    was, whether it returns or throws; with no user id given and none set
    it throws before reading anything. *)
Theorem getAllUserData_restores_scope (userId : option string) (w : World) :
  service (snd (getAllUserData userId w)) = service w
  /\ (if no_user userId && no_user (Runtime.userId (service w))
      then getAllUserData userId w
           = (Throw (JsError "User ID required for scoped data export"), w)
      else True).
Proof.
  unfold getAllUserData. rewrite bind_run. cbn [this]. cbv zeta.
  set (target := if no_user userId then Runtime.userId (service w) else userId).
  assert (no_user target = no_user userId && no_user (Runtime.userId (service w))) as Et.
  { subst target. destruct (no_user userId) eqn:E; [reflexivity | exact E]. }
  rewrite <- Et. destruct (no_user target); [split; reflexivity |].
  split; [| exact I].
  rewrite bind_run. cbn [set_userId]. unfold try_finally.
  set (w1 := set_service _ w).
  match goal with |- context [(promise_all3 ?a ?b ?c ≫= ?f) w1] =>
    set (m := promise_all3 a b c ≫= f)
  end.
  assert (preserves same_service m) as Hm.
  { apply ss_bind.
    - apply ss_promise_all3;
        [eapply ss_ensures, getWorkoutHistory_ensures | apply ss_getPreferences
        | apply ss_getSettings].
    - intros [[? ?] ?]. apply ss_ret. }
  specialize (Hm w1). unfold same_service in Hm.
  destruct (m w1) as [r w2]. cbn [snd set_userId] in *.
  rewrite Hm. subst w1. cbn. now destruct (service w).
Qed.

End WorkoutStoreFacts.
(** * Migration of legacy data over existing user data *)

Module MigrationFacts.
Import Js Runtime IdGenerator DataService LocalStorage RuntimeFacts NormalizerFacts.
Import StorageFacts.

Lemma move_key_scoped_any u k ls :
  k ∈ legacy_keys ->
  move_key u k ls !! scoped k u
  = match ls !! k with Some v => Some v | None => ls !! scoped k u end.
Proof.
  intros Hk. unfold move_key. destruct (ls !! k) eqn:E; [| reflexivity].
  rewrite lookup_delete_ne by (intros H; symmetry in H; revert H; now apply scoped_not_legacy).
  apply lookup_insert_eq.
Qed.

Lemma migrated_scoped_any u ls k :
  k ∈ legacy_keys ->
  migrated u ls !! scoped k u
  = match ls !! k with Some v => Some v | None => ls !! scoped k u end.
Proof.
  intros Hk.
  assert (forall k' m, k' ∈ legacy_keys -> k <> k' ->
          move_key u k' m !! scoped k u = m !! scoped k u) as Hskip.
  { intros k' m Hk' Hne. apply move_key_other; [now apply scoped_not_legacy |].
    intros H. apply Hne. eapply scoped_inj; eassumption. }
  assert (forall k' m, k' ∈ legacy_keys -> k <> k' -> move_key u k' m !! k = m !! k) as Hkeep.
  { intros k' m Hk' Hne. apply move_key_other; [exact Hne |].
    now apply not_eq_sym, scoped_not_legacy. }
  assert (WORKOUT_HISTORY ∈ legacy_keys) as K1 by (unfold legacy_keys; rewrite !elem_of_cons; tauto).
  assert (USER_PREFERENCES ∈ legacy_keys) as K2 by (unfold legacy_keys; rewrite !elem_of_cons; tauto).
  assert (APP_SETTINGS ∈ legacy_keys) as K3 by (unfold legacy_keys; rewrite !elem_of_cons; tauto).
  revert Hk. unfold legacy_keys at 1. rewrite !elem_of_cons, elem_of_nil. unfold migrated.
  intros [-> | [-> | [-> | []]]].
  - rewrite !Hskip by (assumption || discriminate). now apply move_key_scoped_any.
  - rewrite Hskip by (assumption || discriminate).
    rewrite move_key_scoped_any by assumption.
    rewrite Hkeep, Hskip by (assumption || discriminate). reflexivity.
  - rewrite move_key_scoped_any by assumption.
    rewrite !Hkeep, !Hskip by (assumption || discriminate). reflexivity.
Qed.

(** On any store, [migrateLegacyDataToUser(u)] moves each legacy item under
    the key scoped to [u], replacing whatever [u] had there; where there
    is no legacy item the scoped item stays.  Every other key is left
    alone, the user scope of the backend is restored, and [hasLegacyData]
    is false afterwards. *)
Theorem migrateLegacyDataToUser_overwrites (u : string) (w : World) :
  isAvailable (service w) = true ->
  u <> EmptyString ->
  (forall k v, k ∈ legacy_keys -> localStorage w !! k = Some v -> stored_json v) ->
  localStorage w !! WORKOUT_HISTORY <> Some VNull ->
  exists w',
    migrateLegacyDataToUser (Some u) w = (Return (has_legacy (localStorage w)), w')
    /\ service w' = service w
    /\ (forall k, k ∈ legacy_keys ->
          localStorage w' !! k = None
          /\ localStorage w' !! scoped k u
             = match localStorage w !! k with
               | Some v => Some v
               | None => localStorage w !! scoped k u
               end)
    /\ (forall key, key ∉ legacy_keys ->
          (forall k, k ∈ legacy_keys -> key <> scoped k u) ->
          localStorage w' !! key = localStorage w !! key)
    /\ LocalStorage.hasLegacyData w' = (Return false, w').
Proof.
  destruct w as [e t ls [av ou] cs ua]. cbn [service isAvailable localStorage].
  intros -> Hu Hjson Hnull.
  rewrite (migrateLegacyDataToUser_run u e t ls ou cs ua Hu Hjson Hnull).
  eexists. split; [reflexivity |]. cbn [service localStorage].
  split; [reflexivity |].
  split; [intros k Hk; split; [now apply migrated_legacy | now apply migrated_scoped_any] |].
  split; [intros key H1 H2; now apply migrated_other |].
  unfold LocalStorage.hasLegacyData. rewrite bind_run. cbn [this service isAvailable negb].
  repeat (rewrite bind_run; cbn [getItem localStorage];
          rewrite migrated_legacy by (unfold legacy_keys; rewrite !elem_of_cons; tauto)).
  reflexivity.
Qed.

Lemma migrateLegacyDataToUser_overwrites_witness :
  let w := initial_world (frozen_at T0) mixed_store in
  isAvailable (service w) = true
  /\ "ann" <> EmptyString
  /\ (forall k v, k ∈ legacy_keys -> localStorage w !! k = Some v -> stored_json v)
  /\ localStorage w !! WORKOUT_HISTORY <> Some VNull
  /\ exists w',
       migrateLegacyDataToUser (Some "ann") w = (Return (has_legacy (localStorage w)), w')
       /\ service w' = service w
       /\ (forall k, k ∈ legacy_keys ->
             localStorage w' !! k = None
             /\ localStorage w' !! scoped k "ann"
                = match localStorage w !! k with
                  | Some v => Some v
                  | None => localStorage w !! scoped k "ann"
                  end)
       /\ (forall key, key ∉ legacy_keys ->
             (forall k, k ∈ legacy_keys -> key <> scoped k "ann") ->
             localStorage w' !! key = localStorage w !! key)
       /\ LocalStorage.hasLegacyData w' = (Return false, w').
Proof.
  intros w.
  assert ("ann" <> EmptyString) as Hu by discriminate.
  assert (forall k v, k ∈ legacy_keys -> localStorage w !! k = Some v -> stored_json v) as Hj.
  { intros k v. unfold legacy_keys. rewrite !elem_of_cons, elem_of_nil.
    intros [-> | [-> | [-> | []]]] H; vm_compute in H; injection H as <-;
      (split; [discriminate | vm_compute; reflexivity]). }
  assert (localStorage w !! WORKOUT_HISTORY <> Some VNull) as Hn
    by (vm_compute; discriminate).
  exact (conj eq_refl (conj Hu (conj Hj (conj Hn
           (migrateLegacyDataToUser_overwrites "ann" w eq_refl Hu Hj Hn))))).
Defined.

End MigrationFacts.
(** * The user directory: reading, unknown ids, sessions *)

Module DirectoryFacts.
Import Js Runtime IdGenerator UserService RuntimeFacts NormalizerFacts UserFacts.

(** ** Reading the directory *)

Lemma validate_user_true v b : UserValidators_user v = Return b -> b = true.
Proof.
  unfold UserValidators_user.
  destruct (nullish v); [discriminate |]. cbv zeta.
  destruct (0 <? _)%nat; [discriminate |].
  destruct (UserValidators_name _); [| discriminate].
  destruct (prop v "id"); try discriminate.
  destruct (_ <? 1)%nat; [discriminate | congruence].
Qed.

Lemma get_world_ensures : ensures get_world (fun _ => True).
Proof. intros w. split; [apply later_refl | auto]. Qed.

Lemma getAllUsers_valid :
  ensures getAllUsers (Forall (fun u => UserValidators_user u = Return true)).
Proof.
  unfold getAllUsers.
  eapply ensures_bind; [apply user_getItem_ensures |]. intros v _.
  eapply ensures_bind with (P := fun _ => True).
  { destruct v; try apply ensures_throw. now apply ensures_ret. }
  intros users _.
  eapply ensures_bind; [apply string_ids_ensures |]. intros ids _.
  eapply ensures_bind
    with (P := fun st => Forall (fun u => UserValidators_user u = Return true) (snd st)).
  - apply ensures_for_of; [constructor |]. intros [ids' acc] user Hacc. cbn [snd] in Hacc.
    unfold getAllUsers_step. apply ensures_try_catch; [| intros e; now apply ensures_ret].
    eapply ensures_bind; [apply normalizeUser_ensures |]. intros x _.
    eapply ensures_bind with (P := fun b => UserValidators_user x = Return b).
    + apply ensures_lift. auto.
    + intros b Hb. apply ensures_ret. cbn [snd].
      apply validate_user_true in Hb as Hb'. subst b.
      apply Forall_app. split; [exact Hacc | now constructor].
  - intros st Hst. eapply ensures_bind; [apply get_world_ensures |]. intros w' _.
    apply ensures_ret. now rewrite Array_sort_Permutation.
Qed.

(** [getAllUsers] writes nothing, whatever the store holds and whether it
    returns or throws, and every profile it returns passes
    [UserValidators.user]. *)
Theorem getAllUsers_reads_valid_profiles :
  ensures getAllUsers (Forall (fun u => UserValidators_user u = Return true)).
Proof. exact getAllUsers_valid. Qed.

(** ** An id that no profile bears *)

Lemma find_or_null_none (p : value -> bool) l :
  Forall (fun x => p x = false) l -> find_or_null p l = VNull.
Proof.
  unfold find_or_null. induction 1 as [|x l Hx _ IH]; cbn; [reflexivity |].
  now rewrite Hx.
Qed.

Lemma user_findIndex_none (p : value -> bool) l :
  Forall (fun x => p x = false) l -> findIndex p l = None.
Proof. induction 1 as [|x l Hx _ IH]; cbn; [reflexivity |]. now rewrite Hx, IH. Qed.

(** With an id that none of the profiles read from the directory bears,
    [setCurrentUser], [updateUser] and [deleteUser] throw "User with ID ...
    not found" and write nothing. *)
Theorem unknown_user_id_is_refused (u : string) (w : World) L w1 :
  u <> EmptyString ->
  getAllUsers w = (Return L, w1) ->
  Forall (fun x => strict_eq (prop x "id") (VStr u) = false) L ->
  later w w1
  /\ (forall fuel,
        setCurrentUser (S fuel) (VStr u) w
        = (Throw (JsError ("User with ID " ++ u ++ " not found")), w1))
  /\ (forall fuel updates,
        updateUser (S fuel) (VStr u) updates w
        = (Throw (JsError ("User with ID " ++ u ++ " not found")), w1))
  /\ deleteUser (VStr u) w
     = (Throw (JsError ("User with ID " ++ u ++ " not found")), w1).
Proof.
  intros Hu E HL.
  split; [exact (proj1 (ensures_run _ _ _ _ _ getAllUsers_valid E)) |].
  assert (truthy (VStr u) = true) as Ht by (destruct u; [congruence | reflexivity]).
  split; [| split].
  - intros fuel. cbn [setCurrentUser nullish]. cbv iota.
    change (user_ref (VStr u)) with (VStr u).
    rewrite bind_run. cbn [mret M_ret]. rewrite bind_run. unfold getUserById.
    rewrite Ht. cbn [negb]. rewrite bind_run, E. cbn [mret M_ret].
    now rewrite (find_or_null_none _ _ HL).
  - intros fuel updates. cbn [updateUser]. rewrite bind_run, E.
    now rewrite (user_findIndex_none _ _ HL).
  - unfold deleteUser. rewrite bind_run, E. now rewrite (user_findIndex_none _ _ HL).
Qed.

Lemma unknown_user_id_is_refused_witness :
  let w := initial_world (frozen_at T0) directory in
  let u := "user_1703891234000_ffffff" in
  exists L w1,
    u <> EmptyString
    /\ getAllUsers w = (Return L, w1)
    /\ Forall (fun x => strict_eq (prop x "id") (VStr u) = false) L
    /\ later w w1
    /\ (forall fuel,
          setCurrentUser (S fuel) (VStr u) w
          = (Throw (JsError ("User with ID " ++ u ++ " not found")), w1))
    /\ (forall fuel updates,
          updateUser (S fuel) (VStr u) updates w
          = (Throw (JsError ("User with ID " ++ u ++ " not found")), w1))
    /\ deleteUser (VStr u) w
       = (Throw (JsError ("User with ID " ++ u ++ " not found")), w1).
Proof.
  intros w u.
  assert (u <> EmptyString) as Hu by discriminate.
  destruct (getAllUsers w) as [[L | e] w1] eqn:E.
  - assert (forallb (fun x => negb (strict_eq (prop x "id") (VStr u))) L = true) as Hb.
    { replace L with (match fst (getAllUsers w) with Return l => l | Throw _ => [] end)
        by (now rewrite E).
      vm_compute. reflexivity. }
    assert (Forall (fun x => strict_eq (prop x "id") (VStr u) = false) L) as HL.
    { apply Forall_forall. intros r Hr. apply list_elem_of_In in Hr.
      rewrite forallb_forall in Hb. now apply negb_true_iff, Hb. }
    exists L, w1. split; [exact Hu |]. split; [reflexivity |]. split; [exact HL |].
    exact (unknown_user_id_is_refused u w L w1 Hu E HL).
  - exfalso. assert (fst (getAllUsers w) = Throw e) as H by (now rewrite E).
    vm_compute in H. discriminate H.
Defined.

(** ** Creating a profile *)








(** ** Logging out *)

(** After [clearCurrentUser] has returned there is no current user, and the
    directory is what it was. *)
Theorem clearCurrentUser_then_getCurrentUser (w : World) b w' :
  clearCurrentUser w = (Return b, w') ->
  getCurrentUser w' = (Return VNull, w')
  /\ localStorage w' !! USERS_LIST = localStorage w !! USERS_LIST.
Proof.
  intros E. apply clearCurrentUser_run in E as [[_ Hd] Hnone]. split; [| exact Hd].
  unfold getCurrentUser. rewrite bind_run, user_getItem_run, Hnone. cbn [parse_or].
  now destruct (userServiceAvailable w').
Qed.

Lemma clearCurrentUser_then_getCurrentUser_witness :
  let w := initial_world (frozen_at T0) directory in
  let w' := snd (clearCurrentUser w) in
  clearCurrentUser w = (Return true, w')
  /\ getCurrentUser w' = (Return VNull, w')
  /\ localStorage w' !! USERS_LIST = localStorage w !! USERS_LIST.
Proof.
  intros w w'.
  assert (clearCurrentUser w = (Return true, w')) as E.
  { assert (fst (clearCurrentUser w) = Return true) as Hf by (vm_compute; reflexivity).
    subst w'. destruct (clearCurrentUser w) as [o w1]. cbn [fst snd] in Hf |- *.
    now rewrite Hf. }
  exact (conj E (clearCurrentUser_then_getCurrentUser w true w' E)).
Defined.

(** ** The session log *)

Lemma session_test_json s u :
  strict_eq (prop (JSON_element JSON_roundtrip s) "userId") (VStr u)
  = strict_eq (prop s "userId") (VStr u).
Proof.
  destruct s as [| | | [| |] | | | m]; try reflexivity.
  unfold prop. cbn [JSON_element JSON_roundtrip]. rewrite lookup_omap.
  destruct (m !! "userId") as [v |]; [| reflexivity].
  now destruct v as [| | | [| |] | | |].
Qed.

Lemma filter_map_test {A} (f : A -> A) (p : A -> bool) l :
  (forall x, p (f x) = p x) ->
  List.filter p (map f l) = map f (List.filter p l).
Proof.
  intros H. induction l as [|x l IH]; [reflexivity |]. cbn [map List.filter].
  rewrite H. destruct (p x); cbn [map]; now rewrite IH.
Qed.

Lemma filter_none {A} (p : A -> bool) l :
  Forall (fun x => p x = false) l -> List.filter p l = [].
Proof. induction 1 as [|x l Hx _ IH]; cbn; [reflexivity |]. now rewrite Hx. Qed.

Lemma filter_kept {A} (p : A -> bool) l :
  Forall (fun x => p x = true) l -> List.filter p l = l.
Proof. induction 1 as [|x l Hx _ IH]; cbn; [reflexivity |]. now rewrite Hx, IH. Qed.

Lemma filter_holds {A} (p : A -> bool) l : Forall (fun x => p x = true) (List.filter p l).
Proof.
  induction l as [|x l IH]; cbn; [constructor |].
  destruct (p x) eqn:E; [now constructor | exact IH].
Qed.

(** [_logSession] never throws, whatever the store holds and whether or
    not it is available: what goes wrong while the entry is logged is
    caught. *)
Theorem logSession_never_throws (userId : value) (type : string) (w : World) :
  exists w', _logSession userId type w = (Return tt, w').
Proof.
  unfold _logSession, try_catch. rewrite bind_run, user_getItem_run.
  destruct (if userServiceAvailable w then _ else _) as [| | | | | l |];
    try (eexists; reflexivity).
  cbn [as_array]. rewrite bind_run. cbn [mret M_ret]. rewrite bind_run.
  destruct (returns_later_now_iso w) as (t & w1 & -> & L1 & _). cbv zeta.
  rewrite bind_run.
  destruct (existsb nullish _); [eexists; reflexivity |].
  cbn [mret M_ret]. rewrite bind_run, user_setItem_run.
  destruct (userServiceAvailable w1); eexists; reflexivity.
Qed.

(** When the stored log is an array of entries, [_logSession(u, type)]
    appends an entry for [u] and stores the log with the entries of the
    other users first, kept in their order, then at most the last hundred
    entries of [u], the new one last.  Nothing else is written. *)
Theorem logSession_keeps_last_hundred (u type : string) (l0 : list value) (w : World) :
  userServiceAvailable w = true ->
  parse_or (localStorage w !! USER_SESSIONS) (VArr []) = VArr l0 ->
  Forall (fun s => nullish s = false) l0 ->
  let mine := fun s => strict_eq (prop s "userId") (VStr u) in
  exists front e w',
    _logSession (VStr u) type w = (Return tt, w')
    /\ localStorage w' !! USER_SESSIONS = Some (VArr (front ++ [e]))
    /\ (forall k, k <> USER_SESSIONS -> localStorage w' !! k = localStorage w !! k)
    /\ prop e "userId" = VStr u /\ prop e "type" = VStr type
    /\ (length (List.filter mine (front ++ [e])) <= 100)%nat
    /\ List.filter (fun s => negb (mine s)) (front ++ [e])
       = map (JSON_element JSON_roundtrip) (List.filter (fun s => negb (mine s)) l0).
Proof.
  intros Hav Hl0 Hobj mine.
  unfold _logSession, try_catch. rewrite bind_run, user_getItem_run, Hav, Hl0.
  cbn [as_array]. rewrite bind_run. cbn [mret M_ret]. rewrite bind_run.
  destruct (returns_later_now_iso w) as (t & w1 & -> & L1 & _). cbv zeta.
  set (new := object [("userId", VStr u); ("type", VStr type); ("timestamp", VStr t)]).
  assert (mine new = true) as Hnew by (unfold mine; cbn; apply String.eqb_refl).
  assert (existsb nullish (l0 ++ [new]) = false) as ->.
  { rewrite existsb_app. cbn. rewrite orb_false_r.
    clear -Hobj. induction Hobj as [|x l Hx _ IH]; cbn; [reflexivity |]. now rewrite Hx. }
  rewrite bind_run. cbn [mret M_ret]. rewrite bind_run, user_setItem_run.
  assert (userServiceAvailable w1 = true) as -> by (rewrite <- Hav; apply L1).
  cbn [mret M_ret].
  change (fun s => strict_eq (prop s "userId") (VStr u)) with mine.
  change (fun s => negb (strict_eq (prop s "userId") (VStr u)))
    with (fun s => negb (mine s)).
  rewrite !List.filter_app. cbn [List.filter]. rewrite Hnew. cbn [negb].
  rewrite app_nil_r.
  set (mine0 := List.filter mine l0).
  set (others := List.filter (fun s => negb (mine s)) l0).
  set (k := (length (mine0 ++ [new]) - 100)%nat).
  assert (k <= length mine0)%nat as Hk by (subst k; rewrite length_app; cbn; lia).
  assert (skipn k (mine0 ++ [new]) = skipn k mine0 ++ [new]) as ->.
  { rewrite skipn_app. replace (k - length mine0)%nat with 0%nat by lia. reflexivity. }
  set (J := JSON_element JSON_roundtrip).
  assert (JSON_roundtrip (VArr (others ++ skipn k mine0 ++ [new]))
          = VArr (map J (others ++ skipn k mine0) ++ [J new])) as ->.
  { cbn [JSON_roundtrip]. fold J. now rewrite app_assoc, map_app. }
  assert (forall x, mine (J x) = mine x) as HJ by (intros x; apply session_test_json).
  assert (forall x, negb (mine (J x)) = negb (mine x)) as HJn by (intros x; now rewrite HJ).
  eexists (map J (others ++ skipn k mine0)), (J new), _.
  split; [reflexivity |].
  split; [cbn [localStorage set_localStorage]; apply lookup_insert_eq |].
  split.
  { intros key Hkey. cbn [localStorage set_localStorage].
    rewrite lookup_insert_ne by congruence. destruct L1 as (_ & -> & _). reflexivity. }
  split; [reflexivity |]. split; [reflexivity |].
  assert (map J (others ++ skipn k mine0) ++ [J new]
          = map J (others ++ skipn k mine0 ++ [new])) as ->
    by (now rewrite (app_assoc others), (map_app J (others ++ skipn k mine0) [new])).
  assert (Forall (fun x => mine x = true) (skipn k mine0 ++ [new])) as Hmine.
  { apply Forall_app. split; [| now repeat constructor].
    apply Forall_drop, filter_holds. }
  assert (Forall (fun x => mine x = false) others) as Hothers.
  { eapply Forall_impl; [apply (filter_holds (fun s => negb (mine s))) |].
    intros x Hx. now apply negb_true_iff. }
  split.
  - rewrite (filter_map_test J mine _ HJ), length_map, List.filter_app.
    rewrite (filter_none _ _ Hothers), (filter_kept _ _ Hmine). cbn [app].
    rewrite length_app, length_skipn. cbn. subst k. rewrite length_app. cbn. lia.
  - rewrite (filter_map_test J (fun s => negb (mine s)) _ HJn), List.filter_app.
    rewrite (filter_kept (fun s => negb (mine s)) others)
      by (eapply Forall_impl; [exact Hothers | now intros x ->]).
    rewrite (filter_none (fun s => negb (mine s)) (skipn k mine0 ++ [new]))
      by (eapply Forall_impl; [exact Hmine | now intros x ->]).
    now rewrite app_nil_r.
Qed.

Lemma logSession_keeps_last_hundred_witness :
  let w := initial_world (frozen_at T0) busy_directory in
  let u := "user_1703891234999_0c11d4" in
  let mine := fun s => strict_eq (prop s "userId") (VStr u) in
  userServiceAvailable w = true
  /\ parse_or (localStorage w !! USER_SESSIONS) (VArr []) = VArr busy_log
  /\ Forall (fun s => nullish s = false) busy_log
  /\ length (List.filter mine busy_log) = 100%nat
  /\ length (List.filter (fun s => negb (mine s)) busy_log) = 2%nat
  /\ exists front e w',
       _logSession (VStr u) "login" w = (Return tt, w')
       /\ localStorage w' !! USER_SESSIONS = Some (VArr (front ++ [e]))
       /\ (forall k, k <> USER_SESSIONS -> localStorage w' !! k = localStorage w !! k)
       /\ prop e "userId" = VStr u /\ prop e "type" = VStr "login"
       /\ (length (List.filter mine (front ++ [e])) <= 100)%nat
       /\ List.filter (fun s => negb (mine s)) (front ++ [e])
          = map (JSON_element JSON_roundtrip)
              (List.filter (fun s => negb (mine s)) busy_log).
Proof.
  intros w u mine.
  assert (parse_or (localStorage w !! USER_SESSIONS) (VArr []) = VArr busy_log) as H
    by reflexivity.
  assert (Forall (fun s => nullish s = false) busy_log) as Hobj.
  { apply Forall_forall. intros s Hs.
    assert (forallb (fun s => negb (nullish s)) busy_log = true) as Hb
      by (vm_compute; reflexivity).
    rewrite forallb_forall in Hb. apply negb_true_iff, Hb. now apply list_elem_of_In. }
  assert (length (List.filter mine busy_log) = 100%nat) as H100
    by (vm_compute; reflexivity).
  assert (length (List.filter (fun s => negb (mine s)) busy_log) = 2%nat) as H2
    by (vm_compute; reflexivity).
  exact (conj eq_refl (conj H (conj Hobj (conj H100 (conj H2
           (logSession_keeps_last_hundred u "login" busy_log w eq_refl H Hobj)))))).
Defined.

(** On the full log the new entry of Ann drives her oldest one out: the
    stored log keeps 102 entries, a hundred of them Ann's, the new one
    last, none from the 29th, and Bob's two come first in their order. *)
Example logSession_drops_the_oldest :
  let u := "user_1703891234999_0c11d4" in
  let mine := fun s => strict_eq (prop s "userId") (VStr u) in
  match _logSession (VStr u) "login" (initial_world (frozen_at T0) busy_directory) with
  | (Return tt, w') =>
      match localStorage w' !! USER_SESSIONS with
      | Some (VArr l) =>
          length l = 102%nat
          /\ length (List.filter mine l) = 100%nat
          /\ forallb (fun s => negb (strict_eq (prop s "timestamp")
                                       (VStr "2023-12-29T23:07:14.999Z"))) l = true
          /\ map (fun s => prop s "type") (firstn 2 l) = [VStr "login"; VStr "logout"]
          /\ map mine (firstn 2 l) = [false; false]
          /\ map (fun s => prop s "timestamp") (skipn 101 l) = [VStr (toISOString T0)]
      | _ => False
      end
  | _ => False
  end.
Proof. vm_compute. repeat split. Qed.

(** ** The health check *)

(** [isHealthy] answers whether the storage is available.  On an available
    storage it leaves every item as it was, except the item under
    [userService_health_test], which it removes. *)
Theorem isHealthy_answers_availability (w : World) :
  exists w',
    later w w'
    /\ isHealthy w
       = (Return (VBool (userServiceAvailable w)),
          if userServiceAvailable w
          then set_localStorage (delete "userService_health_test" (localStorage w)) w'
          else w').
Proof.
  exists (tick w). split; [apply later_tick |].
  unfold isHealthy, try_catch. rewrite bind_run. cbn [now]. cbv zeta.
  rewrite bind_run, user_setItem_run.
  change (userServiceAvailable (tick w)) with (userServiceAvailable w).
  destruct (userServiceAvailable w) eqn:Ha; [| reflexivity].
  rewrite bind_run, user_getItem_run.
  cbn [userServiceAvailable localStorage set_localStorage tick]. rewrite Ha, lookup_insert_eq.
  set (t := Date_now (env w) (ticks w)).
  change (JSON_roundtrip (object [("timestamp", VInt (Z.of_N t))]))
    with (object [("timestamp", VInt (Z.of_N t))]).
  change (parse_or (Some (object [("timestamp", VInt (Z.of_N t))])) VNull)
    with (object [("timestamp", VInt (Z.of_N t))]).
  rewrite bind_run. cbn [removeItem mret M_ret].
  change (truthy (object [("timestamp", VInt (Z.of_N t))])) with true. cbv iota.
  change (prop (object [("timestamp", VInt (Z.of_N t))]) "timestamp")
    with (VNum (Fin (inject_Z (Z.of_N t)))).
  cbn [strict_eq]. rewrite Qeq_bool_refl.
  cbn [localStorage set_localStorage]. rewrite delete_insert_eq. reflexivity.
Qed.

End DirectoryFacts.
(** * Selecting the profile that is already selected *)

Module ReselectFacts.
Import Js Runtime IdGenerator UserService RuntimeFacts NormalizerFacts UserFacts
       DirectoryFacts.












End ReselectFacts.
